(** * eth-btc-swapper: the atomic-swap engine, embedded and verified

    The development follows the repository's components:
    - [SHA256], [Keccak], [RIPEMD160]: the hash primitives the code and
      its libraries call (Node's [crypto.createHash('sha256')], the EVM's
      and ethers' [keccak256], and the hash of a pay-to-script-hash
      output);
    - [FusionResolver]: the Solidity order registry;
    - [Script], [BitcoinHTLC]: script compilation, the lock, the claim
      and refund transactions and the scan for the secret of
      [bitcoin/htlc.js];
    - [BitcoinWallet]: building a payment and watching an address, of
      [bitcoin/wallet.js];
    - [StateManager], [SwapCoordinator]: the persisted swap state and the
      coordinator's calls on it;
    - [Ethers]: the conversions of ethers the coordinator applies to its
      arguments ([getBytes], [hexlify], [zeroPadValue], [keccak256]).

    Integers are [Z] with the wrap-around or the overflow check written
    out; buffers are lists of bytes; Solidity mappings are finite maps
    read with the zero default. *)

From Stdlib Require Import ZArith List Lia Bool Sorted OrdersEx DecimalString.
From Stdlib.Strings Require Import Byte.
From stdpp Require Import gmap strings list.
Import ListNotations.
Local Open Scope Z_scope.

(** ** Bytes *)

Abbreviation bytes := (list byte).

Definition byte_to_Z (b : byte) : Z := Z.of_N (Byte.to_N b).

Definition Z_to_byte (z : Z) : byte :=
  match Byte.of_N (Z.to_N (z mod 256)) with
  | Some b => b
  | None => x00
  end.

#[global] Instance byte_eq_dec : EqDecision byte := Byte.byte_eq_dec.

(** Big-endian encoding of [z] on [n] bytes, and its inverse. *)
Fixpoint be_bytes (n : nat) (z : Z) : list Z :=
  match n with
  | O => []
  | S n' => be_bytes n' (Z.shiftr z 8) ++ [Z.land z 255]
  end.

Definition be_value (bs : list Z) : Z :=
  fold_left (fun acc b => Z.shiftl acc 8 + b) bs 0.

(** Little-endian encoding of [z] on [n] bytes, and its inverse. *)
Fixpoint le_bytes (n : nat) (z : Z) : list Z :=
  match n with
  | O => []
  | S n' => Z.land z 255 :: le_bytes n' (Z.shiftr z 8)
  end.

Fixpoint le_value (bs : list Z) : Z :=
  match bs with
  | [] => 0
  | b :: t => b + Z.shiftl (le_value t) 8
  end.

(** [Buffer.prototype.toString('hex')]: two lower-case digits per byte. *)
Definition hex_digit (n : Z) : Ascii.ascii :=
  Ascii.ascii_of_N (Z.to_N (if n <? 10 then 48 + n else 87 + n)).

Fixpoint to_hex (b : bytes) : string :=
  match b with
  | [] => EmptyString
  | x :: t =>
      String (hex_digit (byte_to_Z x / 16))
             (String (hex_digit (byte_to_Z x mod 16)) (to_hex t))
  end.

(** [Buffer.from(s, 'hex')]: pairs of hex digits, up to the first pair
    that is not one. *)
Definition hex_value (c : Ascii.ascii) : option Z :=
  let n := Z.of_N (Ascii.N_of_ascii c) in
  if (48 <=? n) && (n <=? 57) then Some (n - 48)
  else if (97 <=? n) && (n <=? 102) then Some (n - 87)
  else if (65 <=? n) && (n <=? 70) then Some (n - 55)
  else None.

Fixpoint from_hex (s : string) : bytes :=
  match s with
  | String hi (String lo rest) =>
      match hex_value hi, hex_value lo with
      | Some h, Some l => Z_to_byte (16 * h + l) :: from_hex rest
      | _, _ => []
      end
  | _ => []
  end.

(** ** SHA-256 (FIPS 180-4), as computed by [crypto.createHash('sha256')] *)

Module SHA256.
Definition mask32 : Z := 4294967295.
Definition add32 (x y : Z) : Z := Z.land (x + y) mask32.
Definition rotr (n x : Z) : Z :=
  Z.lor (Z.shiftr x n) (Z.land (Z.shiftl x (32 - n)) mask32).
Definition Ch (x y z : Z) : Z :=
  Z.lxor (Z.land x y) (Z.land (Z.lxor x mask32) z).
Definition Maj (x y z : Z) : Z :=
  Z.lxor (Z.lxor (Z.land x y) (Z.land x z)) (Z.land y z).
Definition bsig0 (x : Z) : Z := Z.lxor (Z.lxor (rotr 2 x) (rotr 13 x)) (rotr 22 x).
Definition bsig1 (x : Z) : Z := Z.lxor (Z.lxor (rotr 6 x) (rotr 11 x)) (rotr 25 x).
Definition ssig0 (x : Z) : Z := Z.lxor (Z.lxor (rotr 7 x) (rotr 18 x)) (Z.shiftr x 3).
Definition ssig1 (x : Z) : Z := Z.lxor (Z.lxor (rotr 17 x) (rotr 19 x)) (Z.shiftr x 10).

(** The round constants: the first 32 bits of the fractional parts of the
    cube roots of the first 64 primes. *)
Definition is_prime (p : Z) : bool :=
  forallb (fun d => negb (p mod Z.of_nat d =? 0)) (seq 2 (Z.to_nat p - 2)).

Definition primes : list Z :=
  List.filter is_prime (map Z.of_nat (seq 2 310)).

Fixpoint cube_root_from (bit : nat) (n r : Z) : Z :=
  match bit with
  | O => r
  | S b =>
      let c := r + Z.shiftl 1 (Z.of_nat b) in
      cube_root_from b n (if c * c * c <=? n then c else r)
  end.

Definition cube_root (n : Z) : Z := cube_root_from 36 n 0.

Definition K : list Z :=
  Eval vm_compute in
    map (fun p => Z.land (cube_root (Z.shiftl p 96)) mask32) primes.

Definition regs : Type := (Z * Z * Z * Z * Z * Z * Z * Z)%type.

Definition init : regs :=
  (0x6a09e667, 0xbb67ae85, 0x3c6ef372, 0xa54ff53a,
   0x510e527f, 0x9b05688c, 0x1f83d9ab, 0x5be0cd19).

(** One [0x80] byte, zeros up to 56 mod 64, then the bit length on 8 bytes. *)
Definition pad (msg : list Z) : list Z :=
  let len := Z.of_nat (length msg) in
  msg ++ [128] ++ repeat 0 (Z.to_nat ((55 - len) mod 64)) ++ be_bytes 8 (8 * len).

Fixpoint words_be (bs : list Z) : list Z :=
  match bs with
  | a :: b :: c :: d :: t =>
      (Z.shiftl a 24 + Z.shiftl b 16 + Z.shiftl c 8 + d) :: words_be t
  | _ => []
  end.

Fixpoint blocks (n : nat) (ws : list Z) : list (list Z) :=
  match n with
  | O => []
  | S n' => firstn 16 ws :: blocks n' (skipn 16 ws)
  end.

(** The message schedule, grown newest first: [r] is W(t-1), W(t-2), ... *)
Fixpoint extend (n : nat) (r : list Z) : list Z :=
  match n with
  | O => r
  | S n' =>
      let wt := add32 (add32 (ssig1 (nth 1 r 0)) (nth 6 r 0))
                      (add32 (ssig0 (nth 14 r 0)) (nth 15 r 0)) in
      extend n' (wt :: r)
  end.

Definition schedule (block : list Z) : list Z := rev (extend 48 (rev block)).

Definition round (s : regs) (kw : Z * Z) : regs :=
  let '(a, b, c, d, e, f, g, h) := s in
  let t1 := add32 (add32 (add32 h (bsig1 e)) (add32 (Ch e f g) (fst kw))) (snd kw) in
  let t2 := add32 (bsig0 a) (Maj a b c) in
  (add32 t1 t2, a, b, c, add32 d t1, e, f, g).

Definition compress (s : regs) (block : list Z) : regs :=
  let '(a, b, c, d, e, f, g, h) := fold_left round (combine K (schedule block)) s in
  let '(a0, b0, c0, d0, e0, f0, g0, h0) := s in
  (add32 a0 a, add32 b0 b, add32 c0 c, add32 d0 d,
   add32 e0 e, add32 f0 f, add32 g0 g, add32 h0 h).

Definition digest (msg : list Z) : list Z :=
  let ws := words_be (pad msg) in
  let '(a, b, c, d, e, f, g, h) :=
    fold_left compress (blocks (length ws / 16) ws) init in
  concat (map (be_bytes 4) [a; b; c; d; e; f; g; h]).

Definition sha256 (msg : bytes) : bytes :=
  map Z_to_byte (digest (map byte_to_Z msg)).
End SHA256.

(** ** Keccak-256 (the EVM's [keccak256]: rate 136, padding 0x01 .. 0x80) *)

Module Keccak.
Definition mask64 : Z := 18446744073709551615.
Definition rotl (n x : Z) : Z :=
  Z.lor (Z.land (Z.shiftl x n) mask64) (Z.shiftr x (64 - n)).

Definition RC : list Z :=
  [0x0000000000000001; 0x0000000000008082; 0x800000000000808A; 0x8000000080008000;
   0x000000000000808B; 0x0000000080000001; 0x8000000080008081; 0x8000000000008009;
   0x000000000000008A; 0x0000000000000088; 0x0000000080008009; 0x000000008000000A;
   0x000000008000808B; 0x800000000000008B; 0x8000000000008089; 0x8000000000008003;
   0x8000000000008002; 0x8000000000000080; 0x000000000000800A; 0x800000008000000A;
   0x8000000080008081; 0x8000000000008080; 0x0000000080000001; 0x8000000080008008].

(** Rotation offsets; lane (x, y) is stored at index x + 5 y. *)
Definition offsets : list Z :=
  [ 0;  1; 62; 28; 27;
   36; 44;  6; 55; 20;
    3; 10; 43; 25; 39;
   41; 45; 15; 21;  8;
   18;  2; 61; 56; 14].

Definition lane (A : list Z) (x y : nat) : Z :=
  nth (x mod 5 + 5 * (y mod 5)) A 0.

Definition lanes (f : nat -> nat -> Z) : list Z :=
  map (fun i => f (i mod 5)%nat (i / 5)%nat) (seq 0 25).

Definition theta (A : list Z) : list Z :=
  let C x := Z.lxor (Z.lxor (Z.lxor (Z.lxor (lane A x 0) (lane A x 1))
                                    (lane A x 2)) (lane A x 3)) (lane A x 4) in
  let Cs := map C (seq 0 5) in
  let D x := Z.lxor (nth ((x + 4) mod 5) Cs 0) (rotl 1 (nth ((x + 1) mod 5) Cs 0)) in
  let Ds := map D (seq 0 5) in
  lanes (fun x y => Z.lxor (lane A x y) (nth x Ds 0)).

(** B(y, 2x+3y) = rotl (A(x, y)); lane (X, Y) of B is read back from
    x = X + 3Y mod 5, y = X. *)
Definition rho_pi (A : list Z) : list Z :=
  lanes (fun X Y =>
           let x := ((X + 3 * Y) mod 5)%nat in
           rotl (nth (x + 5 * X) offsets 0) (lane A x X)).

Definition chi (B : list Z) : list Z :=
  lanes (fun x y =>
           Z.lxor (lane B x y)
                  (Z.land (Z.lxor (lane B (x + 1) y) mask64) (lane B (x + 2) y))).

Definition iota (rc : Z) (A : list Z) : list Z :=
  match A with
  | a :: t => Z.lxor a rc :: t
  | [] => []
  end.

Definition round (A : list Z) (rc : Z) : list Z :=
  iota rc (chi (rho_pi (theta A))).

Definition keccak_f (A : list Z) : list Z := fold_left round RC A.

Fixpoint lanes_of (n : nat) (bs : list Z) : list Z :=
  match n with
  | O => []
  | S n' => le_value (firstn 8 bs) :: lanes_of n' (skipn 8 bs)
  end.

Definition rate : nat := 136.

Definition pad (msg : list Z) : list Z :=
  match (rate - length msg mod rate)%nat with
  | 1%nat => msg ++ [0x81]
  | q => msg ++ [0x01] ++ repeat 0 (q - 2) ++ [0x80]
  end.

Fixpoint xor_lanes (A B : list Z) : list Z :=
  match A, B with
  | a :: A', b :: B' => Z.lxor a b :: xor_lanes A' B'
  | _, [] => A
  | [], _ => []
  end.

Fixpoint absorb (n : nat) (bs : list Z) (A : list Z) : list Z :=
  match n with
  | O => A
  | S n' =>
      absorb n' (skipn rate bs)
             (keccak_f (xor_lanes A (lanes_of 17 (firstn rate bs))))
  end.

Definition digest (msg : list Z) : list Z :=
  let p := pad msg in
  let A := absorb (length p / rate) p (repeat 0 25) in
  concat (map (le_bytes 8) (firstn 4 A)).

Definition keccak256 (msg : bytes) : bytes :=
  map Z_to_byte (digest (map byte_to_Z msg)).
End Keccak.

(** ** RIPEMD-160, the second half of bitcoinjs-lib's [hash160] *)

Module RIPEMD160.
Definition mask32 : Z := 4294967295.
Definition add32 (x y : Z) : Z := Z.land (x + y) mask32.
Definition rotl (n x : Z) : Z :=
  Z.lor (Z.land (Z.shiftl x n) mask32) (Z.shiftr x (32 - n)).
Definition not32 (x : Z) : Z := Z.lxor x mask32.

(** The five boolean functions, one per group of sixteen steps. *)
Definition f (group : nat) (x y z : Z) : Z :=
  match group with
  | 0%nat => Z.lxor (Z.lxor x y) z
  | 1%nat => Z.lor (Z.land x y) (Z.land (not32 x) z)
  | 2%nat => Z.lxor (Z.lor x (not32 y)) z
  | 3%nat => Z.lor (Z.land x z) (Z.land y (not32 z))
  | _ => Z.lxor x (Z.lor y (not32 z))
  end.

Definition K_left : list Z := [0; 0x5a827999; 0x6ed9eba1; 0x8f1bbcdc; 0xa953fd4e].
Definition K_right : list Z := [0x50a28be6; 0x5c4dd124; 0x6d703ef3; 0x7a6d76e9; 0].

(** Which message word each step takes, and by how much it rotates. *)
Definition r_left : list nat :=
  [0; 1; 2; 3; 4; 5; 6; 7; 8; 9; 10; 11; 12; 13; 14; 15;
   7; 4; 13; 1; 10; 6; 15; 3; 12; 0; 9; 5; 2; 14; 11; 8;
   3; 10; 14; 4; 9; 15; 8; 1; 2; 7; 0; 6; 13; 11; 5; 12;
   1; 9; 11; 10; 0; 8; 12; 4; 13; 3; 7; 15; 14; 5; 6; 2;
   4; 0; 5; 9; 7; 12; 2; 10; 14; 1; 3; 8; 11; 6; 15; 13]%nat.
Definition r_right : list nat :=
  [5; 14; 7; 0; 9; 2; 11; 4; 13; 6; 15; 8; 1; 10; 3; 12;
   6; 11; 3; 7; 0; 13; 5; 10; 14; 15; 8; 12; 4; 9; 1; 2;
   15; 5; 1; 3; 7; 14; 6; 9; 11; 8; 12; 2; 10; 0; 4; 13;
   8; 6; 4; 1; 3; 11; 15; 0; 5; 12; 2; 13; 9; 7; 10; 14;
   12; 15; 10; 4; 1; 5; 8; 7; 6; 2; 13; 14; 0; 3; 9; 11]%nat.
Definition s_left : list Z :=
  [11; 14; 15; 12; 5; 8; 7; 9; 11; 13; 14; 15; 6; 7; 9; 8;
   7; 6; 8; 13; 11; 9; 7; 15; 7; 12; 15; 9; 11; 7; 13; 12;
   11; 13; 6; 7; 14; 9; 13; 15; 14; 8; 13; 6; 5; 12; 7; 5;
   11; 12; 14; 15; 14; 15; 9; 8; 9; 14; 5; 6; 8; 6; 5; 12;
   9; 15; 5; 11; 6; 8; 13; 12; 5; 12; 13; 14; 11; 8; 5; 6].
Definition s_right : list Z :=
  [8; 9; 9; 11; 13; 15; 15; 5; 7; 7; 8; 11; 14; 14; 12; 6;
   9; 13; 15; 7; 12; 8; 9; 11; 7; 7; 12; 7; 6; 15; 13; 11;
   9; 7; 15; 11; 8; 6; 6; 14; 12; 13; 5; 14; 13; 13; 7; 5;
   15; 5; 8; 11; 14; 14; 6; 14; 6; 9; 12; 9; 12; 5; 15; 8;
   8; 5; 12; 9; 12; 5; 14; 6; 8; 13; 6; 5; 15; 13; 11; 11].

Definition regs : Type := (Z * Z * Z * Z * Z)%type.

Definition init : regs :=
  (0x67452301, 0xefcdab89, 0x98badcfe, 0x10325476, 0xc3d2e1f0).

(** One step of a line: [group] selects the boolean function, [k] is the
    constant, [x] the message word, [s] the rotation. *)
Definition step (group : nat) (k x s : Z) (v : regs) : regs :=
  let '(a, b, c, d, e) := v in
  let t := add32 (rotl s (add32 (add32 a (f group b c d)) (add32 x k))) e in
  (e, t, b, rotl 10 c, d).

(** The eighty steps of the left or of the right line, from step [j]. *)
Fixpoint line (left : bool) (block : list Z) (j : nat) (steps : list (nat * Z))
    (v : regs) : regs :=
  match steps with
  | [] => v
  | (r, s) :: rest =>
      let group := (j / 16)%nat in
      let v' := step (if left then group else (4 - group)%nat)
                     (nth group (if left then K_left else K_right) 0)
                     (nth r block 0) s v in
      line left block (S j) rest v'
  end.

Definition compress (h : regs) (block : list Z) : regs :=
  let '(h0, h1, h2, h3, h4) := h in
  let '(al, bl, cl, dl, el) := line true block 0 (combine r_left s_left) h in
  let '(ar, br, cr, dr, er) := line false block 0 (combine r_right s_right) h in
  (add32 (add32 h1 cl) dr, add32 (add32 h2 dl) er, add32 (add32 h3 el) ar,
   add32 (add32 h4 al) br, add32 (add32 h0 bl) cr).

(** One [0x80] byte, zeros up to 56 mod 64, then the bit length on 8
    bytes, least significant first. *)
Definition pad (msg : list Z) : list Z :=
  let len := Z.of_nat (length msg) in
  msg ++ [128] ++ repeat 0 (Z.to_nat ((55 - len) mod 64)) ++ le_bytes 8 (8 * len).

Fixpoint words_le (bs : list Z) : list Z :=
  match bs with
  | a :: b :: c :: d :: t =>
      (a + Z.shiftl b 8 + Z.shiftl c 16 + Z.shiftl d 24) :: words_le t
  | _ => []
  end.

Definition digest (msg : list Z) : list Z :=
  let ws := words_le (pad msg) in
  let '(a, b, c, d, e) :=
    fold_left compress (SHA256.blocks (length ws / 16) ws) init in
  concat (map (le_bytes 4) [a; b; c; d; e]).

Definition ripemd160 (msg : bytes) : bytes :=
  map Z_to_byte (digest (map byte_to_Z msg)).
End RIPEMD160.

(** The hashes are evaluated on concrete buffers only ([vm_compute]);
    proofs about arbitrary inputs never look inside them. *)
#[global] Opaque SHA256.sha256 Keccak.keccak256 RIPEMD160.ripemd160.

(** ** The order registry: contract [FusionResolver] *)

Module FusionResolver.

(** [address], [bytes32] and [uint256] values are integers; a [bytes32]
    is the big-endian value of its 32 bytes. *)
Abbreviation address := Z.
Abbreviation bytes32 := Z.
Abbreviation uint256 := Z.

Definition MAX_UINT256 : Z := 2 ^ 256 - 1.

Definition bytes32_to_bytes (x : bytes32) : bytes := map Z_to_byte (be_bytes 32 x).
Definition bytes32_of_bytes (b : bytes) : bytes32 := be_value (map byte_to_Z b).

(** [keccak256(abi.encodePacked(x))] for a [bytes32] x: the hash of its
    32 bytes. *)
Definition keccak256_packed (x : bytes32) : bytes32 :=
  bytes32_of_bytes (Keccak.keccak256 (bytes32_to_bytes x)).

Inductive SwapStatus : Type := Pending | Completed | Refunded | Expired.

Definition SwapStatus_eqb (a b : SwapStatus) : bool :=
  match a, b with
  | Pending, Pending | Completed, Completed
  | Refunded, Refunded | Expired, Expired => true
  | _, _ => false
  end.

Record SwapOrder : Type := mkSwapOrder {
  user : address;
  tokenOut : address;
  amountOut : uint256;
  bitcoinTxHash : bytes32;
  secretHash : bytes32;
  lockTime : uint256;
  createdAt : uint256;
  status : SwapStatus
}.

(** What a mapping yields at a key never written. *)
Definition zeroOrder : SwapOrder := mkSwapOrder 0 0 0 0 0 0 0 Pending.

Inductive Event : Type :=
| SwapInitiated (swapId : bytes32) (usr tokOut : address) (amtOut : uint256)
                (btcTxHash : bytes32) (lockT : uint256)
| SwapCompleted (swapId : bytes32) (usr : address) (secret btcTxHash : bytes32)
| SwapRefunded (swapId : bytes32) (usr : address) (reason : string)
| OwnershipTransferred (previousOwner newOwner : address).

Record State : Type := mkState {
  swapOrders : gmap Z SwapOrder;
  usedSecrets : gmap Z bool;
  processedBitcoinTxs : gmap Z bool;
  authorizedOracles : gmap Z bool;
  owner : address
}.

(** The transaction context: [msg.sender] and [block.timestamp]. *)
Record Env : Type := mkEnv {
  msg_sender : address;
  block_timestamp : uint256
}.

Definition SWAP_TIMEOUT : uint256 := 24 * 3600.
Definition MIN_CONFIRMATIONS : uint256 := 3.

(** Outcome of a call: a value, a failed [require] with its message, or
    the panic of checked arithmetic (0x11). A call that does not return
    [Ok] leaves the storage as it was. *)
Inductive result (A : Type) : Type :=
| Ok (a : A)
| Revert (reason : string)
| Panic (code : Z).
Arguments Ok {A} a.
Arguments Revert {A} reason.
Arguments Panic {A} code.

Definition bind {A B : Type} (r : result A) (k : A -> result B) : result B :=
  match r with
  | Ok a => k a
  | Revert m => Revert m
  | Panic c => Panic c
  end.

Definition require (cond : bool) (reason : string) : result unit :=
  if cond then Ok tt else Revert reason.

Notation "'do' x <- r ; k" := (bind r (fun x => k))
  (at level 10, x name, r at level 100, k at level 200).
Notation "'do_' r ; k" := (bind r (fun _ => k))
  (at level 10, r at level 100, k at level 200).

(** [a + b] under Solidity 0.8: panics on overflow. *)
Definition checked_add (a b : uint256) : result uint256 :=
  if a + b <=? MAX_UINT256 then Ok (a + b) else Panic 17.

(** Reading mappings. *)
Definition order_at (s : State) (swapId : bytes32) : SwapOrder :=
  default zeroOrder (swapOrders s !! swapId).
Definition flag (m : gmap Z bool) (k : Z) : bool := default false (m !! k).

Definition set_order (s : State) (swapId : bytes32) (o : SwapOrder) : State :=
  mkState (<[swapId := o]> (swapOrders s)) (usedSecrets s)
          (processedBitcoinTxs s) (authorizedOracles s) (owner s).

Definition set_status (o : SwapOrder) (st : SwapStatus) : SwapOrder :=
  mkSwapOrder (user o) (tokenOut o) (amountOut o) (bitcoinTxHash o)
              (secretHash o) (lockTime o) (createdAt o) st.

(** The constructor: [Ownable] makes the deployer the owner (the
    deployment emits [OwnershipTransferred 0 deployer]), and the deployer
    is the first authorized oracle. *)
Definition constructor (e : Env) : State :=
  mkState ∅ ∅ ∅ {[ msg_sender e := true ]} (msg_sender e).

(** The one event of the deployment, from [Ownable]'s constructor. *)
Definition constructor_events (e : Env) : list Event :=
  [OwnershipTransferred 0 (msg_sender e)].

Definition initiateSwap (s : State) (e : Env)
    (swapId : bytes32) (tokOut : address) (amtOut : uint256)
    (btcTxHash secHash : bytes32) (lockT : uint256)
  : result (State * list Event) :=
  do_ require (user (order_at s swapId) =? 0) "Swap already exists" ;
  do_ require (negb (tokOut =? 0)) "Invalid token address" ;
  do_ require (amtOut >? 0) "Invalid amount" ;
  do_ require (lockT >? block_timestamp e) "Invalid lock time" ;
  Ok (set_order s swapId
        (mkSwapOrder (msg_sender e) tokOut amtOut btcTxHash secHash lockT
                     (block_timestamp e) Pending),
      [SwapInitiated swapId (msg_sender e) tokOut amtOut btcTxHash lockT]).

(** "Simplified implementation": any non-empty proof is accepted. *)
Definition verifyBitcoinTransaction (txHash : bytes32) (txProof : bytes)
    (merkleProof : list bytes32) : bool :=
  (0 <? Z.of_nat (length txProof)) && (0 <? Z.of_nat (length merkleProof)).

Definition _executeFusionSwap (order : SwapOrder) : result unit :=
  require (amountOut order >? 0) "Invalid amount for swap execution".

(** [nonReentrant]: the body makes no external call, so within one call
    the guard is entered and left without effect. *)
Definition completeSwap (s : State) (e : Env)
    (swapId secret : bytes32) (bitcoinTxProof : bytes) (merkleProof : list bytes32)
  : result (State * list Event) :=
  let order := order_at s swapId in
  do_ require (negb (user order =? 0)) "Swap does not exist" ;
  do_ require (SwapStatus_eqb (status order) Pending) "Swap not pending" ;
  do_ require (block_timestamp e <=? lockTime order) "Swap expired" ;
  do_ require (keccak256_packed secret =? secretHash order) "Invalid secret" ;
  do_ require (negb (flag (usedSecrets s) secret)) "Secret already used" ;
  do_ require (verifyBitcoinTransaction (bitcoinTxHash order) bitcoinTxProof merkleProof)
          "Invalid Bitcoin transaction proof" ;
  let order' := set_status order Completed in
  let s' := mkState (<[swapId := order']> (swapOrders s))
                    (<[secret := true]> (usedSecrets s))
                    (<[bitcoinTxHash order := true]> (processedBitcoinTxs s))
                    (authorizedOracles s) (owner s) in
  do_ _executeFusionSwap order' ;
  Ok (s', [SwapCompleted swapId (user order') secret (bitcoinTxHash order')]).

(** [block.timestamp > order.lockTime || block.timestamp > order.createdAt
    + SWAP_TIMEOUT]: the sum is evaluated, and checked, only when the first
    comparison is false. *)
Definition expired (e : Env) (order : SwapOrder) : result bool :=
  if block_timestamp e >? lockTime order then Ok true
  else
    do ceiling <- checked_add (createdAt order) SWAP_TIMEOUT ;
    Ok (block_timestamp e >? ceiling).

Definition refundSwap (s : State) (e : Env) (swapId : bytes32) (reason : string)
  : result (State * list Event) :=
  let order := order_at s swapId in
  do_ require (negb (user order =? 0)) "Swap does not exist" ;
  do_ require (SwapStatus_eqb (status order) Pending) "Swap not pending" ;
  do ok <- expired e order ;
  do_ require ok "Swap not expired" ;
  Ok (set_order s swapId (set_status order Refunded),
      [SwapRefunded swapId (user order) reason]).

Definition onlyAuthorizedOracle (s : State) (e : Env) : result unit :=
  require (flag (authorizedOracles s) (msg_sender e)) "Not authorized oracle".

(** [Ownable]'s modifier. *)
Definition onlyOwner (s : State) (e : Env) : result unit :=
  require (owner s =? msg_sender e) "Ownable: caller is not the owner".

Definition submitBitcoinProof (s : State) (e : Env)
    (swapId btcTxHash : bytes32) (confirmations : uint256) (isValid : bool)
  : result (State * list Event) :=
  do_ onlyAuthorizedOracle s e ;
  let order := order_at s swapId in
  do_ require (negb (user order =? 0)) "Swap does not exist" ;
  do_ require (bitcoinTxHash order =? btcTxHash) "Hash mismatch" ;
  do_ require (confirmations >=? MIN_CONFIRMATIONS) "Insufficient confirmations" ;
  Ok (if isValid
      then mkState (swapOrders s) (usedSecrets s)
                   (<[btcTxHash := true]> (processedBitcoinTxs s))
                   (authorizedOracles s) (owner s)
      else s, []).

Definition set_oracle (s : State) (oracle : address) (b : bool) : State :=
  mkState (swapOrders s) (usedSecrets s) (processedBitcoinTxs s)
          (<[oracle := b]> (authorizedOracles s)) (owner s).

Definition addAuthorizedOracle (s : State) (e : Env) (oracle : address)
  : result (State * list Event) :=
  do_ onlyOwner s e ; Ok (set_oracle s oracle true, []).

Definition removeAuthorizedOracle (s : State) (e : Env) (oracle : address)
  : result (State * list Event) :=
  do_ onlyOwner s e ; Ok (set_oracle s oracle false, []).

Definition getSwapOrder (s : State) (swapId : bytes32) : SwapOrder :=
  order_at s swapId.

Definition isSwapExpired (s : State) (e : Env) (swapId : bytes32) : result bool :=
  expired e (order_at s swapId).

(** [pause] and [recoverTokens] have empty bodies behind [onlyOwner]. *)
Definition pause (s : State) (e : Env) : result (State * list Event) :=
  do_ onlyOwner s e ; Ok (s, []).

Definition recoverTokens (s : State) (e : Env) (token : address) (amount : uint256)
  : result (State * list Event) :=
  do_ onlyOwner s e ; Ok (s, []).

Definition set_owner (s : State) (o : address) : State :=
  mkState (swapOrders s) (usedSecrets s) (processedBitcoinTxs s)
          (authorizedOracles s) o.

(** Inherited from [Ownable]: both end in [_transferOwnership], which
    emits [OwnershipTransferred] with the owner it replaces. *)
Definition _transferOwnership (s : State) (newOwner : address) : State * list Event :=
  let oldOwner := owner s in
  (set_owner s newOwner, [OwnershipTransferred oldOwner newOwner]).

Definition transferOwnership (s : State) (e : Env) (newOwner : address)
  : result (State * list Event) :=
  do_ onlyOwner s e ;
  do_ require (negb (newOwner =? 0)) "Ownable: new owner is the zero address" ;
  Ok (_transferOwnership s newOwner).

Definition renounceOwnership (s : State) (e : Env) : result (State * list Event) :=
  do_ onlyOwner s e ; Ok (_transferOwnership s 0).

(** The state-changing entry points, and one transaction. *)
Inductive Call : Type :=
| CallInitiateSwap (swapId : bytes32) (tokOut : address) (amtOut : uint256)
                   (btcTxHash secHash : bytes32) (lockT : uint256)
| CallCompleteSwap (swapId secret : bytes32) (bitcoinTxProof : bytes)
                   (merkleProof : list bytes32)
| CallRefundSwap (swapId : bytes32) (reason : string)
| CallSubmitBitcoinProof (swapId btcTxHash : bytes32) (confirmations : uint256)
                         (isValid : bool)
| CallAddAuthorizedOracle (oracle : address)
| CallRemoveAuthorizedOracle (oracle : address)
| CallPause
| CallRecoverTokens (token : address) (amount : uint256)
| CallTransferOwnership (newOwner : address)
| CallRenounceOwnership.

Definition execute (s : State) (e : Env) (c : Call) : result (State * list Event) :=
  match c with
  | CallInitiateSwap i t a h sh l => initiateSwap s e i t a h sh l
  | CallCompleteSwap i sec p m => completeSwap s e i sec p m
  | CallRefundSwap i r => refundSwap s e i r
  | CallSubmitBitcoinProof i h n v => submitBitcoinProof s e i h n v
  | CallAddAuthorizedOracle o => addAuthorizedOracle s e o
  | CallRemoveAuthorizedOracle o => removeAuthorizedOracle s e o
  | CallPause => pause s e
  | CallRecoverTokens t a => recoverTokens s e t a
  | CallTransferOwnership o => transferOwnership s e o
  | CallRenounceOwnership => renounceOwnership s e
  end.

(** A transaction that reverts or panics changes nothing. *)
Definition step (s : State) (tx : Env * Call) : State :=
  match execute s (fst tx) (snd tx) with
  | Ok (s', _) => s'
  | _ => s
  end.

Definition run (s : State) (txs : list (Env * Call)) : State :=
  fold_left step txs s.

(** The states of a deployed registry. *)
Definition reachable (s : State) : Prop :=
  exists (deployer : Env) (txs : list (Env * Call)),
    s = run (constructor deployer) txs.

Definition terminal (st : SwapStatus) : bool := negb (SwapStatus_eqb st Pending).

(** What a call that returns does to the orders and to the consumed
    secrets: the registry's transition relation. *)
Inductive effect (s : State) (e : Env) : Call -> State -> Prop :=
| effect_initiate id tok amt h sh l :
    user (order_at s id) = 0 -> amt > 0 ->
    effect s e (CallInitiateSwap id tok amt h sh l)
           (set_order s id
              (mkSwapOrder (msg_sender e) tok amt h sh l (block_timestamp e) Pending))
| effect_complete id secret proof mp s' :
    user (order_at s id) <> 0 -> status (order_at s id) = Pending ->
    swapOrders s' = <[id := set_status (order_at s id) Completed]> (swapOrders s) ->
    usedSecrets s' = <[secret := true]> (usedSecrets s) ->
    effect s e (CallCompleteSwap id secret proof mp) s'
| effect_refund id reason :
    user (order_at s id) <> 0 -> status (order_at s id) = Pending ->
    effect s e (CallRefundSwap id reason)
           (set_order s id (set_status (order_at s id) Refunded))
| effect_other c s' :
    swapOrders s' = swapOrders s -> usedSecrets s' = usedSecrets s ->
    effect s e c s'.

(** What one transaction can do to one order: nothing, create it in a free
    slot, or close a pending registered order. *)
Inductive order_step (o o' : SwapOrder) : Prop :=
| os_same : o' = o -> order_step o o'
| os_create : user o = 0 -> status o' = Pending -> amountOut o' > 0 ->
              order_step o o'
| os_close : user o <> 0 -> status o = Pending ->
             (o' = set_status o Completed \/ o' = set_status o Refunded) ->
             order_step o o'.

(** Two facts hold of every slot of a deployed registry: a closed order
    has a registrant, and a registered order has a positive amount. *)
Definition order_inv (o : SwapOrder) : Prop :=
  (status o <> Pending -> user o <> 0) /\ (user o <> 0 -> amountOut o > 0).

(** Two orders that differ in [status] at most. *)
Definition same_terms (o o' : SwapOrder) : Prop :=
  user o' = user o /\ tokenOut o' = tokenOut o /\ amountOut o' = amountOut o /\
  bitcoinTxHash o' = bitcoinTxHash o /\ secretHash o' = secretHash o /\
  lockTime o' = lockTime o /\ createdAt o' = createdAt o.

Definition registers (swapId : bytes32) (tx : Env * Call) : bool :=
  match snd tx with
  | CallInitiateSwap i _ _ _ _ _ => i =? swapId
  | _ => false
  end.

Definition authorizes (oracle : address) (tx : Env * Call) : bool :=
  match snd tx with
  | CallAddAuthorizedOracle o => o =? oracle
  | _ => false
  end.

(** What the caller of a transaction observes: the events of a call that
    returns, or the reason it did not. *)
Definition outcome (r : result (State * list Event)) : result (list Event) :=
  match r with
  | Ok (_, evs) => Ok evs
  | Revert m => Revert m
  | Panic c => Panic c
  end.

(** An order is settled in [s] when its Bitcoin transaction is marked as
    processed and a preimage of its secret hash is among the used
    secrets. *)
Definition settled (s : State) (o : SwapOrder) : Prop :=
  flag (processedBitcoinTxs s) (bitcoinTxHash o) = true /\
  exists secret,
    keccak256_packed secret = secretHash o /\ flag (usedSecrets s) secret = true.

End FusionResolver.

(** ** JavaScript outcomes: a value returned or an error thrown *)

Inductive js (A : Type) : Type :=
| Return (a : A)
| Throw (message : string).
Arguments Return {A} a.
Arguments Throw {A} message.

Definition js_bind {A B : Type} (r : js A) (k : A -> js B) : js B :=
  match r with
  | Return a => k a
  | Throw m => Throw m
  end.

Declare Scope js_scope.
Delimit Scope js_scope with js.
Notation "'let*' x := r 'in' k" := (js_bind r (fun x => k))
  (at level 10, x name, r at level 100, k at level 200) : js_scope.
Notation "'run*' r 'in' k" := (js_bind r (fun _ => k))
  (at level 10, r at level 100, k at level 200) : js_scope.

(** A loop whose body may throw: [for (const x of xs) acc = body(acc, x)]. *)
Fixpoint js_fold {A B : Type} (body : A -> B -> js A) (xs : list B) (acc : A) : js A :=
  match xs with
  | [] => Return acc
  | x :: rest => js_bind (body acc x) (js_fold body rest)
  end.

(** ** Scripts: [bitcoin.script.compile] and [bitcoin.script.decompile] *)

Module Script.
Local Open Scope js_scope.

(** A chunk is an opcode (a number) or a data push (a Buffer). *)
Inductive chunk : Type :=
| Op (code : Z)
| Data (data : bytes).

Definition OP_0 : Z := 0.
Definition OP_FALSE : Z := 0.
Definition OP_PUSHDATA1 : Z := 76.
Definition OP_PUSHDATA2 : Z := 77.
Definition OP_PUSHDATA4 : Z := 78.
Definition OP_1NEGATE : Z := 79.
Definition OP_RESERVED : Z := 80.
Definition OP_TRUE : Z := 81.
Definition OP_16 : Z := 96.
Definition OP_IF : Z := 99.
Definition OP_ELSE : Z := 103.
Definition OP_ENDIF : Z := 104.
Definition OP_DROP : Z := 117.
Definition OP_EQUAL : Z := 135.
Definition OP_EQUALVERIFY : Z := 136.
Definition OP_SHA256 : Z := 168.
Definition OP_HASH160 : Z := 169.
Definition OP_CHECKSIG : Z := 172.
Definition OP_CHECKLOCKTIMEVERIFY : Z := 177.

(** The opcode that stands for a push of [data], when there is one. *)
Definition asMinimalOP (data : bytes) : option Z :=
  match data with
  | [] => Some OP_0
  | [x] =>
      let v := byte_to_Z x in
      if (1 <=? v) && (v <=? 16) then Some (OP_RESERVED + v)
      else if v =? 129 then Some OP_1NEGATE
      else None
  | _ => None
  end.

(** [pushdata.encode]: the length prefix of a push of [number] bytes;
    [writeUInt32LE] throws beyond 32 bits. *)
Definition pushdata_encode (number : Z) : js bytes :=
  if number <? OP_PUSHDATA1 then Return [Z_to_byte number]
  else if number <=? 255 then Return [Z_to_byte OP_PUSHDATA1; Z_to_byte number]
  else if number <=? 65535 then
    Return (Z_to_byte OP_PUSHDATA2 :: map Z_to_byte (le_bytes 2 number))
  else if number <=? 4294967295 then
    Return (Z_to_byte OP_PUSHDATA4 :: map Z_to_byte (le_bytes 4 number))
  else Throw "The value of 'value' is out of range".

(** [pushdata.decode] at the head of [buf]: the announced length and the
    size of the prefix, or [None] when the prefix is cut short. *)
Definition pushdata_decode (buf : bytes) : option (Z * nat) :=
  match buf with
  | [] => None
  | x :: rest =>
      let opcode := byte_to_Z x in
      if opcode <? OP_PUSHDATA1 then Some (opcode, 1%nat)
      else if opcode =? OP_PUSHDATA1 then
        match rest with
        | a :: _ => Some (byte_to_Z a, 2%nat)
        | _ => None
        end
      else if opcode =? OP_PUSHDATA2 then
        match rest with
        | a :: b :: _ => Some (le_value (map byte_to_Z [a; b]), 3%nat)
        | _ => None
        end
      else
        match rest with
        | a :: b :: c :: d :: _ => Some (le_value (map byte_to_Z [a; b; c; d]), 5%nat)
        | _ => None
        end
  end.

Definition compile_chunk (c : chunk) : js bytes :=
  match c with
  | Data data =>
      match asMinimalOP data with
      | Some opcode => Return [Z_to_byte opcode]
      | None =>
          let* prefix := pushdata_encode (Z.of_nat (length data)) in
          Return (prefix ++ data)
      end
  | Op code =>
      if (0 <=? code) && (code <=? 255) then Return [Z_to_byte code]
      else Throw "The value of 'value' is out of range"
  end.

Fixpoint compile (chunks : list chunk) : js bytes :=
  match chunks with
  | [] => Return []
  | c :: rest =>
      let* head := compile_chunk c in
      let* tail := compile rest in
      Return (head ++ tail)
  end.

(** The loop of [decompile] from the current offset on: [buf] is what is
    left to read. Every turn reads at least one byte, so [length buf]
    turns are enough; [None] is the [null] of a malformed push. *)
Fixpoint decompile_from (turns : nat) (buf : bytes) : option (list chunk) :=
  match buf with
  | [] => Some []
  | x :: rest =>
      match turns with
      | O => None
      | S turns' =>
          let opcode := byte_to_Z x in
          if (OP_0 <? opcode) && (opcode <=? OP_PUSHDATA4) then
            match pushdata_decode buf with
            | None => None
            | Some (number, size) =>
                let after := skipn size buf in
                if Z.of_nat (length after) <? number then None
                else
                  let data := firstn (Z.to_nat number) after in
                  let c := match asMinimalOP data with
                           | Some op => Op op
                           | None => Data data
                           end in
                  option_map (cons c)
                    (decompile_from turns' (skipn (Z.to_nat number) after))
            end
          else option_map (cons (Op opcode)) (decompile_from turns' rest)
      end
  end.

Definition decompile (buf : bytes) : option (list chunk) :=
  decompile_from (length buf) buf.

(** What [decompile] gives back for a compiled chunk: a push that has a
    minimal opcode comes back as that opcode. *)
Definition normalize (c : chunk) : chunk :=
  match c with
  | Data d =>
      match asMinimalOP d with
      | Some op => Op op
      | None => Data d
      end
  | Op code => Op code
  end.

(** Opcode chunks that are not themselves push prefixes. *)
Definition plain (c : chunk) : Prop :=
  match c with
  | Op code => code = 0 \/ OP_PUSHDATA4 < code
  | Data d => True
  end.

(** [isPushOnly]: data pushes and the small-integer opcodes. *)
Definition isPushOnlyChunk (c : chunk) : bool :=
  match c with
  | Data _ => true
  | Op v => (v =? OP_0) || ((OP_TRUE <=? v) && (v <=? OP_16)) || (v =? OP_1NEGATE)
  end.

(** [script.number.encode]: little-endian sign-magnitude, with the
    32-bit coercions of [&] and [>>=]. *)
Definition toInt32 (v : Z) : Z := (v + 2147483648) mod 4294967296 - 2147483648.

Definition scriptNumSize (i : Z) : nat :=
  if i >? 2147483647 then 5
  else if i >? 8388607 then 4
  else if i >? 32767 then 3
  else if i >? 127 then 2
  else if i >? 0 then 1
  else 0.

Fixpoint number_bytes (size : nat) (value : Z) : list Z :=
  match size with
  | O => []
  | S n => Z.land (toInt32 value) 255 :: number_bytes n (Z.shiftr (toInt32 value) 8)
  end.

Definition number_encode (number : Z) : bytes :=
  let value := Z.abs number in
  let size := scriptNumSize value in
  let raw := number_bytes size value in
  let negative := number <? 0 in
  match rev raw with
  | [] => []
  | top :: lower =>
      let top' :=
        if negb (Z.land top 128 =? 0) then (if negative then 128 else 0)
        else if negative then Z.lor top 128
        else top in
      map Z_to_byte (rev (top' :: lower))
  end.

End Script.

(** ** Transactions and the calls into bitcoinjs-lib *)

Module Bitcoin.
Local Open Scope js_scope.
Import Script.

(** A [bitcoin.Transaction]: inputs carry the previous output's hash (the
    txid, byte-reversed) and index, the scriptSig, the sequence and the
    witness stack (empty but in a segwit transaction); outputs carry the
    scriptPubKey and the value in satoshis. *)
Record TxInput : Type := mkTxInput {
  in_hash : bytes;
  in_index : Z;
  in_script : bytes;
  in_sequence : Z;
  in_witness : list bytes
}.

Record TxOutput : Type := mkTxOutput {
  out_script : bytes;
  out_value : Z
}.

Record Transaction : Type := mkTransaction {
  tx_version : Z;
  tx_ins : list TxInput;
  tx_outs : list TxOutput;
  tx_locktime : Z
}.

(** An entry of the UTXO arrays the callers pass around. *)
Record Utxo : Type := mkUtxo {
  txid : string;
  vout : Z;
  value : Z;
  scriptPubKey : string
}.

(** One input of a [bitcoin.Psbt] under construction. *)
Record PsbtInput : Type := mkPsbtInput {
  pi_hash : string;
  pi_index : Z;
  pi_sequence : option Z;
  pi_witnessUtxo : string * Z;
  pi_redeemScript : bytes;
  pi_finalScriptSig : option bytes
}.

Record Psbt : Type := mkPsbt {
  psbt_locktime : Z;
  psbt_inputs : list PsbtInput;
  psbt_outputs : list TxOutput
}.

Definition new_Psbt : Psbt := mkPsbt 0 [] [].

(** What the model asks of bitcoinjs-lib (6.1), ecpair and
    tiny-secp256k1: key import, address decoding and derivation, the
    validation each [Psbt] method performs before it acts (each may
    throw), and the hex form of a transaction. The data flow around these
    calls is the model's, and so is the search of [signInput] for the
    script to sign, which decides whether an input of this program can
    be signed at all; [Psbt_signInput_check] is what follows that search:
    the key must be one the script names, and the signing itself. *)
Record Lib : Type := mkLib {
  ECPair_fromWIF : string -> js bytes;
  address_toOutputScript : string -> js bytes;
  payments_p2sh_address : bytes -> js string;
  Psbt_addInput_check : Psbt -> PsbtInput -> js unit;
  Psbt_addOutput_check : Psbt -> TxOutput -> js unit;
  Psbt_signInput_check : Psbt -> nat -> bytes -> js unit;
  Psbt_finalizeInput_check : Psbt -> nat -> js unit;
  Psbt_extractTransaction_check : Psbt -> js unit;
  Transaction_toHex : Transaction -> string;
  Transaction_fromHex : string -> js Transaction
}.

(** A txid string names the previous transaction; its hash in an input
    is the byte-reversed decoding. *)
Definition hash_of_txid (txid : string) : bytes := rev (from_hex txid).

(** The index of an input in an error message. *)
Definition decimal (n : nat) : string := NilEmpty.string_of_uint (Nat.to_uint n).

(** The script templates, as [psbtutils] recognises them by the
    validation of a payment's [output]. The program never calls
    [initEccLib], so no script counts as pay-to-taproot. *)
Definition byte_at (script : bytes) (i : nat) : Z := byte_to_Z (nth i script x00).

Definition isP2SHScript (script : bytes) : bool :=
  (length script =? 23)%nat && (byte_at script 0 =? OP_HASH160)
  && (byte_at script 1 =? 20) && (byte_at script 22 =? OP_EQUAL).

Definition isP2WSHScript (script : bytes) : bool :=
  (length script =? 34)%nat && (byte_at script 0 =? OP_0) && (byte_at script 1 =? 32).

Definition isP2WPKH (script : bytes) : bool :=
  (length script =? 22)%nat && (byte_at script 0 =? OP_0) && (byte_at script 1 =? 20).

Definition hash160 (buffer : bytes) : bytes :=
  RIPEMD160.ripemd160 (SHA256.sha256 buffer).

(** [payments.p2sh({ redeem: { output } }).output]: the redeem script
    must decompile to at least one chunk. *)
Definition payments_p2sh_output (redeem_output : bytes) : js bytes :=
  match decompile redeem_output with
  | None | Some [] => Throw "Redeem.output too short"
  | Some _ => compile [Op OP_HASH160; Data (hash160 redeem_output); Op OP_EQUAL]
  end.

Definition checkRedeemScript (inputIndex : nat) (scriptPubKey redeemScript : bytes)
  : js unit :=
  let* redeemScriptOutput := payments_p2sh_output redeemScript in
  if bool_decide (scriptPubKey = redeemScriptOutput) then Return tt
  else Throw ("Redeem script for input #" ++ decimal inputIndex
              ++ " doesn't match the scriptPubKey in the prevout")%string.

(** [getMeaningfulScript] on an input that has a redeem script and no
    witness script, as every input of this program has. *)
Definition getMeaningfulScript (script : bytes) (index : nat) (redeemScript : bytes)
  : js bytes :=
  let isP2SH := isP2SHScript script in
  let isP2SHP2WSH := isP2SH && isP2WSHScript redeemScript in
  let isP2WSH := isP2WSHScript script in
  if isP2WSH || isP2SHP2WSH
  then Throw "scriptPubkey or redeemScript is P2WSH but witnessScript missing"
  else if isP2SH
  then run* checkRedeemScript index script redeemScript in Return redeemScript
  else Return script.

Section WithLib.
Variable L : Lib.

Definition Psbt_setLocktime (p : Psbt) (locktime : Z) : Psbt :=
  mkPsbt locktime (psbt_inputs p) (psbt_outputs p).

(** The check [setLocktime] makes of its argument. *)
Definition check32Bit (num : Z) : js unit :=
  if (0 <=? num) && (num <=? 4294967295) then Return tt
  else Throw "Invalid 32 bit integer".

Definition Psbt_addInput (p : Psbt) (i : PsbtInput) : js Psbt :=
  run* Psbt_addInput_check L p i in
  Return (mkPsbt (psbt_locktime p) (psbt_inputs p ++ [i]) (psbt_outputs p)).

Definition Psbt_addOutput (p : Psbt) (address : string) (v : Z) : js Psbt :=
  let* script := address_toOutputScript L address in
  run* Psbt_addOutput_check L p (mkTxOutput script v) in
  Return (mkPsbt (psbt_locktime p) (psbt_inputs p)
                 (psbt_outputs p ++ [mkTxOutput script v])).

(** [getHashForSig] on an input that carries a [witnessUtxo] and no
    [nonWitnessUtxo], as every input of this program does: the script to
    sign must be a pay-to-witness-pubkey-hash script (the branch of the
    two pay-to-witness-script-hash types needs a witness script and is
    never reached). *)
Definition getHashForSig_check (inputIndex : nat) (input : PsbtInput) : js unit :=
  let prevout_script := from_hex (fst (pi_witnessUtxo input)) in
  let* meaningfulScript :=
    getMeaningfulScript prevout_script inputIndex (pi_redeemScript input) in
  if isP2WPKH meaningfulScript then Return tt
  else Throw ("Input #" ++ decimal inputIndex
              ++ " has witnessUtxo but non-segwit script: "
              ++ to_hex meaningfulScript)%string.

(** [signInput]. The partial signature it stores is dropped when the
    input is finalized and never reaches the transaction; only whether
    the call throws matters here. *)
Definition Psbt_signInput (p : Psbt) (index : nat) (keyPair : bytes) : js Psbt :=
  match psbt_inputs p !! index with
  | None => Throw ("No input #" ++ decimal index)%string
  | Some input =>
      run* getHashForSig_check index input in
      run* Psbt_signInput_check L p index keyPair in
      Return p
  end.

Definition set_finalScriptSig (sig : bytes) (i : PsbtInput) : PsbtInput :=
  mkPsbtInput (pi_hash i) (pi_index i) (pi_sequence i) (pi_witnessUtxo i)
              (pi_redeemScript i) (Some sig).

(** [finalizeInput(index, finalScriptsFunc)]: the callback's
    [finalScriptSig] is stored in the input. *)
Definition Psbt_finalizeInput (p : Psbt) (index : nat) (finalScriptsFunc : js bytes)
  : js Psbt :=
  run* Psbt_finalizeInput_check L p index in
  let* finalScriptSig := finalScriptsFunc in
  Return (mkPsbt (psbt_locktime p)
                 (alter (set_finalScriptSig finalScriptSig) index (psbt_inputs p))
                 (psbt_outputs p)).

Definition extract_input (i : PsbtInput) : js TxInput :=
  match pi_finalScriptSig i with
  | Some sig =>
      Return (mkTxInput (hash_of_txid (pi_hash i)) (pi_index i) sig
                        (default 4294967295 (pi_sequence i)) [])
  | None => Throw "Not finalized"
  end.

Fixpoint extract_inputs (l : list PsbtInput) : js (list TxInput) :=
  match l with
  | [] => Return []
  | i :: rest =>
      let* x := extract_input i in
      let* xs := extract_inputs rest in
      Return (x :: xs)
  end.

Definition Psbt_extractTransaction (p : Psbt) : js Transaction :=
  let* ins := extract_inputs (psbt_inputs p) in
  run* Psbt_extractTransaction_check L p in
  Return (mkTransaction 2 ins (psbt_outputs p) (psbt_locktime p)).

(** [bitcoin.payments.p2sh({ redeem: { output, input } }).input]: the
    redeem input's chunks followed by a push of the redeem script,
    after the payment's validation of both. *)
Definition payments_p2sh_input (redeem_output redeem_input : bytes) : js bytes :=
  match decompile redeem_output with
  | None | Some [] => Throw "Redeem.output too short"
  | Some _ =>
      match redeem_input with
      | [] => Throw "Empty input"
      | _ =>
          match decompile redeem_input with
          | None => Throw "Non push-only scriptSig"
          | Some richunks =>
              if forallb isPushOnlyChunk richunks
              then compile (richunks ++ [Data redeem_output])
              else Throw "Non push-only scriptSig"
          end
      end
  end.
End WithLib.
End Bitcoin.

(** ** [bitcoin/htlc.js]: class [BitcoinHTLC] *)

Module BitcoinHTLC.
Local Open Scope js_scope.
Import Script Bitcoin.

(** The object [createHTLCOutput] returns. *)
Record HTLCOutput : Type := mkHTLCOutput {
  script : bytes;
  address : string;
  amount : Z;
  lockTime : Z;
  hash : string
}.

Section WithLib.
Variable L : Lib.

(** [generateSecret], given the 32 bytes [crypto.randomBytes] drew. *)
Definition generateSecret (randomBytes : bytes) : bytes * bytes :=
  let secret := randomBytes in
  let hash := SHA256.sha256 secret in
  (secret, hash).

Definition createHTLCScript (hash recipientPubKey refundPubKey : bytes) (lockTime : Z)
  : js bytes :=
  compile
    [ Op OP_IF;
        Op OP_SHA256;
        Data hash;
        Op OP_EQUALVERIFY;
        Data recipientPubKey;
        Op OP_CHECKSIG;
      Op OP_ELSE;
        Data (number_encode lockTime);
        Op OP_CHECKLOCKTIMEVERIFY;
        Op OP_DROP;
        Data refundPubKey;
        Op OP_CHECKSIG;
      Op OP_ENDIF ].

Definition createP2SHAddress (script : bytes) : js string :=
  payments_p2sh_address L script.

(** "Placeholder 33-byte public key": [Buffer.alloc(33)]. *)
Definition addressToPubKey (address : string) : bytes := repeat x00 33.

Definition createHTLCOutput (hash : bytes) (recipientAddress refundAddress : string)
    (lockTime amount : Z) : js HTLCOutput :=
  let recipientPubKey := addressToPubKey recipientAddress in
  let refundPubKey := addressToPubKey refundAddress in
  let* script := createHTLCScript hash recipientPubKey refundPubKey lockTime in
  let* address := createP2SHAddress script in
  Return (mkHTLCOutput script address amount lockTime (to_hex hash)).

Definition claim_input (htlcOutput : HTLCOutput) (utxo : Utxo) : PsbtInput :=
  mkPsbtInput (txid utxo) (vout utxo) None (scriptPubKey utxo, value utxo)
              (script htlcOutput) None.

(** The body of the signing loop of [createClaimTransaction] for one
    index. *)
Definition claim_sign (htlcOutput : HTLCOutput) (secret keyPair : bytes)
    (psbt : Psbt) (index : nat) : js Psbt :=
  let* witnessScript := compile [Data secret; Op OP_TRUE] in
  let* psbt := Psbt_signInput L psbt index keyPair in
  Psbt_finalizeInput L psbt index
    (payments_p2sh_input (script htlcOutput) witnessScript).

Definition createClaimTransaction (htlcOutput : HTLCOutput) (secret : bytes)
    (recipientPrivateKey destinationAddress : string) (utxos : list Utxo)
  : js Transaction :=
  let* keyPair := ECPair_fromWIF L recipientPrivateKey in
  let psbt := new_Psbt in
  let* psbt :=
    js_fold (fun psbt utxo => Psbt_addInput L psbt (claim_input htlcOutput utxo))
            utxos psbt in
  let fee := 1000 in
  let outputAmount := amount htlcOutput - fee in
  let* psbt := Psbt_addOutput L psbt destinationAddress outputAmount in
  let* psbt :=
    js_fold (claim_sign htlcOutput secret keyPair)
            (seq 0 (length utxos)) psbt in
  Psbt_extractTransaction L psbt.

Definition refund_input (htlcOutput : HTLCOutput) (utxo : Utxo) : PsbtInput :=
  mkPsbtInput (txid utxo) (vout utxo) (Some 4294967294) (scriptPubKey utxo, value utxo)
              (script htlcOutput) None.

(** The body of the signing loop of [createRefundTransaction] for one
    index. *)
Definition refund_sign (htlcOutput : HTLCOutput) (keyPair : bytes)
    (psbt : Psbt) (index : nat) : js Psbt :=
  let* witnessScript := compile [Op OP_FALSE] in
  let* psbt := Psbt_signInput L psbt index keyPair in
  Psbt_finalizeInput L psbt index
    (payments_p2sh_input (script htlcOutput) witnessScript).

Definition createRefundTransaction (htlcOutput : HTLCOutput)
    (refundPrivateKey refundAddress : string) (utxos : list Utxo)
  : js Transaction :=
  let* keyPair := ECPair_fromWIF L refundPrivateKey in
  let psbt := new_Psbt in
  run* check32Bit (lockTime htlcOutput) in
  let psbt := Psbt_setLocktime psbt (lockTime htlcOutput) in
  let* psbt :=
    js_fold (fun psbt utxo => Psbt_addInput L psbt (refund_input htlcOutput utxo))
            utxos psbt in
  let fee := 1000 in
  let outputAmount := amount htlcOutput - fee in
  let* psbt := Psbt_addOutput L psbt refundAddress outputAmount in
  let* psbt :=
    js_fold (refund_sign htlcOutput keyPair)
            (seq 0 (length utxos)) psbt in
  Psbt_extractTransaction L psbt.

(** The scan of [extractSecretFromTransaction] over [tx.ins]. *)
Fixpoint scan_inputs (inputs : list TxInput) (expectedHash : bytes) : option bytes :=
  match inputs with
  | [] => None
  | input :: rest =>
      match decompile (in_script input) with
      | Some (Data potentialSecret :: _) =>
          if (length potentialSecret =? 32)%nat
             && bool_decide (SHA256.sha256 potentialSecret = expectedHash)
          then Some potentialSecret
          else scan_inputs rest expectedHash
      | _ => scan_inputs rest expectedHash
      end
  end.

(** Returns the secret, or [None] for [null]. *)
Definition extractSecretFromTransaction (txHex : string) (expectedHash : bytes)
  : js (option bytes) :=
  let* tx := Transaction_fromHex L txHex in
  Return (scan_inputs (tx_ins tx) expectedHash).
End WithLib.
End BitcoinHTLC.

(** ** The wire format of a transaction (no witness data) *)

Module TxCodec.
Import Bitcoin.
Local Open Scope js_scope.

(** CompactSize integers. *)
Definition varint (n : Z) : list Z :=
  if n <? 253 then [n]
  else if n <=? 65535 then 253 :: le_bytes 2 n
  else if n <=? 4294967295 then 254 :: le_bytes 4 n
  else 255 :: le_bytes 8 n.

Definition var_slice (b : bytes) : bytes :=
  map Z_to_byte (varint (Z.of_nat (length b))) ++ b.

Definition write_input (i : TxInput) : bytes :=
  in_hash i ++ map Z_to_byte (le_bytes 4 (in_index i))
            ++ var_slice (in_script i)
            ++ map Z_to_byte (le_bytes 4 (in_sequence i)).

Definition write_output (o : TxOutput) : bytes :=
  map Z_to_byte (le_bytes 8 (out_value o)) ++ var_slice (out_script o).

Definition write_vector (v : list bytes) : bytes :=
  map Z_to_byte (varint (Z.of_nat (length v))) ++ concat (map var_slice v).

(** [hasWitnesses]: some input has a witness stack that is not empty. *)
Definition hasWitnesses (ins : list TxInput) : bool :=
  existsb (fun i => negb (length (in_witness i) =? 0)%nat) ins.

(** [toBuffer]: a transaction with witnesses is written with the marker
    [00] and the flag [01] after the version, and its witness stacks
    after the outputs. *)
Definition toBuffer (tx : Transaction) : bytes :=
  map Z_to_byte (le_bytes 4 (tx_version tx))
  ++ (if hasWitnesses (tx_ins tx) then [x00; x01] else [])
  ++ map Z_to_byte (varint (Z.of_nat (length (tx_ins tx))))
  ++ concat (map write_input (tx_ins tx))
  ++ map Z_to_byte (varint (Z.of_nat (length (tx_outs tx))))
  ++ concat (map write_output (tx_outs tx))
  ++ (if hasWitnesses (tx_ins tx)
      then concat (map (fun i => write_vector (in_witness i)) (tx_ins tx))
      else [])
  ++ map Z_to_byte (le_bytes 4 (tx_locktime tx)).

Definition toHex (tx : Transaction) : string := to_hex (toBuffer tx).

(** Reading: a parser consumes a prefix of the buffer, or throws. A read
    past the end of the buffer throws; the message is that of
    [readSlice] throughout. *)
Definition parser (A : Type) : Type := bytes -> js (A * bytes).

Definition pret {A : Type} (a : A) : parser A := fun buf => Return (a, buf).

Definition pthrow {A : Type} (message : string) : parser A := fun _ => Throw message.

Definition pbind {A B : Type} (p : parser A) (k : A -> parser B) : parser B :=
  fun buf =>
    match p buf with
    | Return (a, rest) => k a rest
    | Throw message => Throw message
    end.

Definition read_slice (n : nat) : parser bytes :=
  fun buf =>
    if (n <=? length buf)%nat then Return (firstn n buf, skipn n buf)
    else Throw "Cannot read slice out of bounds".

Definition read_uint (n : nat) : parser Z :=
  pbind (read_slice n) (fun b => pret (le_value (map byte_to_Z b))).

(** A number read from eight bytes must be a safe integer. *)
Definition read_uint53 : parser Z :=
  pbind (read_uint 8) (fun v =>
    if v <=? 9007199254740991 then pret v else pthrow "RangeError: value out of range").

Definition read_int32 : parser Z :=
  pbind (read_uint 4) (fun v => pret (if v <? 2147483648 then v else v - 4294967296)).

Definition read_varint : parser Z :=
  pbind (read_uint 1) (fun first =>
    if first <? 253 then pret first
    else if first =? 253 then read_uint 2
    else if first =? 254 then read_uint 4
    else read_uint53).

Definition read_var_slice : parser bytes :=
  pbind read_varint (fun n => read_slice (Z.to_nat n)).

Definition read_input : parser TxInput :=
  pbind (read_slice 32) (fun h =>
  pbind (read_uint 4) (fun index =>
  pbind read_var_slice (fun script =>
  pbind (read_uint 4) (fun sequence =>
  pret (mkTxInput h index script sequence []))))).

Definition read_output : parser TxOutput :=
  pbind read_uint53 (fun v =>
  pbind read_var_slice (fun script =>
  pret (mkTxOutput script v))).

Fixpoint read_many {A : Type} (p : parser A) (n : nat) : parser (list A) :=
  match n with
  | O => pret []
  | S n' => pbind p (fun x => pbind (read_many p n') (fun xs => pret (x :: xs)))
  end.

Definition read_vector : parser (list bytes) :=
  pbind read_varint (fun count => read_many read_var_slice (Z.to_nat count)).

Definition with_witness (i : TxInput) (witness : list bytes) : TxInput :=
  mkTxInput (in_hash i) (in_index i) (in_script i) (in_sequence i) witness.

(** The witness stacks of a segwit transaction, one per input; if all of
    them are empty the data is refused. *)
Fixpoint read_witnesses (ins : list TxInput) : parser (list TxInput) :=
  match ins with
  | [] => pret []
  | i :: rest =>
      pbind read_vector (fun witness =>
      pbind (read_witnesses rest) (fun rest' => pret (with_witness i witness :: rest')))
  end.

(** What follows the version and, in a segwit transaction, the marker and
    the flag. *)
Definition read_body (segwit : bool) (version : Z) : parser Transaction :=
  pbind read_varint (fun vinLen =>
  pbind (read_many read_input (Z.to_nat vinLen)) (fun ins =>
  pbind read_varint (fun voutLen =>
  pbind (read_many read_output (Z.to_nat voutLen)) (fun outs =>
  pbind (if segwit
         then pbind (read_witnesses ins) (fun ins' =>
                if hasWitnesses ins' then pret ins'
                else pthrow "Transaction has superfluous witness data")
         else pret ins) (fun ins =>
  pbind (read_uint 4) (fun locktime =>
  pret (mkTransaction version ins outs locktime))))))).

(** [fromBuffer]: the two bytes after the version are read as marker and
    flag; unless they are [00 01] the reader steps back over them. *)
Definition read_transaction : parser Transaction :=
  pbind read_int32 (fun version =>
    fun buf =>
      match buf with
      | marker :: flag :: rest =>
          if (byte_to_Z marker =? 0) && (byte_to_Z flag =? 1)
          then read_body true version rest
          else read_body false version buf
      | _ => Throw "Cannot read slice out of bounds"
      end).

Definition fromBuffer (buf : bytes) : js Transaction :=
  match read_transaction buf with
  | Return (tx, []) => Return tx
  | Return (_, _ :: _) => Throw "Transaction has unexpected data"
  | Throw message => Throw message
  end.

Definition fromHex (hex : string) : js Transaction := fromBuffer (from_hex hex).

(** The transactions without witnesses that the wire format carries and
    gives back: every field fits its width, and there is an input (with
    no input the count [00] of the inputs is read as the marker). *)
Definition wf_input (i : TxInput) : Prop :=
  length (in_hash i) = 32%nat /\ 0 <= in_index i < 2 ^ 32 /\
  0 <= in_sequence i < 2 ^ 32 /\ Z.of_nat (length (in_script i)) < 2 ^ 53 /\
  in_witness i = [].

Definition wf_output (o : TxOutput) : Prop :=
  0 <= out_value o < 2 ^ 53 /\ Z.of_nat (length (out_script o)) < 2 ^ 53.

Definition wf_transaction (tx : Transaction) : Prop :=
  0 <= tx_version tx < 2 ^ 31 /\ 0 <= tx_locktime tx < 2 ^ 32 /\
  tx_ins tx <> [] /\
  Z.of_nat (length (tx_ins tx)) < 2 ^ 53 /\ Z.of_nat (length (tx_outs tx)) < 2 ^ 53 /\
  Forall wf_input (tx_ins tx) /\ Forall wf_output (tx_outs tx).

End TxCodec.

(** ** [bitcoin/wallet.js]: class [BitcoinWallet] *)

Module BitcoinWallet.
Local Open Scope js_scope.
Import Bitcoin.

(** The wallet as the coordinator makes it, [new BitcoinWallet(network)]
    on testnet: it talks to the public API. Amounts and fee rates are
    whole numbers here, as satoshi values and the default rate of 10
    sat/vB are; on whole numbers [Math.round] changes nothing. *)

(** An input and an output as [createTransaction] hands them to the
    [Psbt], and the [Psbt] it builds. *)
Record WalletInput : Type := mkWalletInput {
  wi_hash : string;
  wi_index : Z;
  wi_nonWitnessUtxo : bytes
}.

Record Payment : Type := mkPayment {
  pay_address : string;
  pay_value : Z
}.

Record WalletPsbt : Type := mkWalletPsbt {
  wp_inputs : list WalletInput;
  wp_outputs : list Payment
}.

(** What the network and the library answer during one call: the raw
    transaction of a txid, the entry ['6'] of the fee estimates (absent,
    or the request fails), and the validation [addInput] and [addOutput]
    perform before they act. *)
Record Net : Type := mkNet {
  getTransactionHex_response : string -> js string;
  fee_estimates_response : js (option Z);
  addInput_check : WalletPsbt -> WalletInput -> js unit;
  addOutput_check : WalletPsbt -> Payment -> js unit
}.

Section WithNet.
Variable N : Net.

Definition addInput (p : WalletPsbt) (i : WalletInput) : js WalletPsbt :=
  run* addInput_check N p i in
  Return (mkWalletPsbt (wp_inputs p ++ [i]) (wp_outputs p)).

Definition addOutput (p : WalletPsbt) (o : Payment) : js WalletPsbt :=
  run* addOutput_check N p o in
  Return (mkWalletPsbt (wp_inputs p) (wp_outputs p ++ [o])).

(** [estimateFee]: a missing or zero rate is fetched, with 10 for a
    missing or zero answer; any failure yields the fallback fee. *)
Definition estimateFee (numInputs numOutputs : Z) (feeRate : option Z) : Z :=
  let fetch : js Z :=
    let* data6 := fee_estimates_response N in
    Return (match data6 with
            | Some r => if r =? 0 then 10 else r
            | None => 10
            end) in
  let fetched : js Z :=
    match feeRate with
    | Some rate => if negb (rate =? 0) then Return rate else fetch
    | None => fetch
    end in
  match fetched with
  | Return feeRate =>
      let inputSize := 148 in
      let outputSize := 34 in
      let overhead := 10 in
      let estimatedSize := numInputs * inputSize + numOutputs * outputSize + overhead in
      estimatedSize * feeRate
  | Throw _ => 10000
  end.

(** [createTransaction]; [feeRate] is [None] when the argument is left
    out, and then defaults to 10. *)
Definition createTransaction (utxos : list Utxo) (outputs : list Payment)
    (changeAddress : string) (feeRate : option Z) : js WalletPsbt :=
  let feeRate := default 10 feeRate in
  let psbt := mkWalletPsbt [] [] in
  let* after_inputs :=
    js_fold (fun acc utxo =>
               let* txHex := getTransactionHex_response N (txid utxo) in
               let* psbt := addInput (fst acc)
                              (mkWalletInput (txid utxo) (vout utxo) (from_hex txHex)) in
               Return (psbt, snd acc + value utxo))
            utxos (psbt, 0) in
  let psbt := fst after_inputs in
  let totalInput := snd after_inputs in
  let* after_outputs :=
    js_fold (fun acc output =>
               let* psbt := addOutput (fst acc)
                              (mkPayment (pay_address output) (pay_value output)) in
               Return (psbt, snd acc + pay_value output))
            outputs (psbt, 0) in
  let psbt := fst after_outputs in
  let totalOutput := snd after_outputs in
  let estimatedFee :=
    estimateFee (Z.of_nat (length utxos)) (Z.of_nat (length outputs) + 1) (Some feeRate) in
  let changeAmount := totalInput - totalOutput - estimatedFee in
  if changeAmount >? 546
  then addOutput psbt (mkPayment changeAddress changeAmount)
  else Return psbt.

End WithNet.

(** [newTxs.forEach(tx => callback(tx))]: the calls made, and whether the
    loop ran to its end; it stops at the first call that throws. *)
Fixpoint forEach_calls {A : Type} (throws : A -> bool) (l : list A) : list A * bool :=
  match l with
  | [] => ([], true)
  | x :: rest =>
      if throws x then ([x], false)
      else (x :: fst (forEach_calls throws rest), snd (forEach_calls throws rest))
  end.

(** One run of [checkForNewTx] of [monitorAddress], from the answer of
    the request on: the transactions handed to the callback and the new
    [lastTxCount]. A failed request or a throwing callback is logged, and
    the count stays. *)
Definition checkForNewTx {A : Type} (callback_throws : A -> bool) (lastTxCount : nat)
    (response : js (list A)) : list A * nat :=
  match response with
  | Throw _ => ([], lastTxCount)
  | Return data =>
      let currentTxCount := length data in
      if (lastTxCount <? currentTxCount)%nat then
        let newTxs := firstn (currentTxCount - lastTxCount) data in
        let calls := forEach_calls callback_throws newTxs in
        (fst calls, if snd calls then currentTxCount else lastTxCount)
      else ([], lastTxCount)
  end.

(** The runs of [checkForNewTx], the initial one and then one every 30
    seconds, over the answers their requests receive in the order they
    arrive: the batches handed to the callback and the last count. *)
Fixpoint checks {A : Type} (callback_throws : A -> bool) (lastTxCount : nat)
    (responses : list (js (list A))) : list (list A) * nat :=
  match responses with
  | [] => ([], lastTxCount)
  | r :: rest =>
      let step := checkForNewTx callback_throws lastTxCount r in
      let later := checks callback_throws (snd step) rest in
      (fst step :: fst later, snd later)
  end.

(** [monitorAddress], until it is stopped: the count starts at 0. *)
Definition monitorAddress {A : Type} (callback_throws : A -> bool)
    (responses : list (js (list A))) : list (list A) * nat :=
  let lastTxCount := 0%nat in
  checks callback_throws lastTxCount responses.

(** The answers list the transactions of the address newest first; the
    list [grows] when every answer that arrives extends the one before at
    the front. [last_answer] is the last list received. *)
Fixpoint grows {A : Type} (known : list A) (responses : list (js (list A))) : Prop :=
  match responses with
  | [] => True
  | Throw _ :: rest => grows known rest
  | Return data :: rest => (exists new, data = new ++ known) /\ grows data rest
  end.

Fixpoint last_answer {A : Type} (known : list A) (responses : list (js (list A)))
  : list A :=
  match responses with
  | [] => known
  | Throw _ :: rest => last_answer known rest
  | Return data :: rest => last_answer data rest
  end.

(** The sum of a field over a list. *)
Definition total {A : Type} (f : A -> Z) (l : list A) : Z :=
  fold_right Z.add 0 (map f l).

End BitcoinWallet.

(** ** [coordinator/StateManager.js]: the persisted swap state *)

Module StateManager.
Local Open Scope string_scope.

(** The swap-state object, as [initiateBTCToETHSwap] builds it and as the
    later transitions extend it. JavaScript numbers are integers here; a
    field the code adds later is an [option]. *)
Record BtcSide : Type := mkBtcSide {
  btc_amount : Z;
  btc_userAddress : string;
  htlcAddress : string;
  htlcScript : string;
  secret : string;
  secretHash : string;
  btc_lockTime : Z
}.

Record EthSide : Type := mkEthSide {
  tokenAddress : string;
  eth_amount : Z;
  eth_userAddress : string;
  quote : string
}.

Record SwapState : Type := mkSwapState {
  swapId : string;
  status : string;
  btcSide : BtcSide;
  ethSide : EthSide;
  createdAt : Z;
  expiresAt : Z;
  btcTxId : option string;
  ethTxHash : option string;
  completedAt : option Z;
  refundedAt : option Z;
  ethRefundTxHash : option string;
  lastUpdated : option Z
}.

(** [{ ...swapState, lastUpdated: now }] *)
Definition with_lastUpdated (s : SwapState) (now : Z) : SwapState :=
  mkSwapState (swapId s) (status s) (btcSide s) (ethSide s) (createdAt s)
              (expiresAt s) (btcTxId s) (ethTxHash s) (completedAt s)
              (refundedAt s) (ethRefundTxHash s) (Some now).

(** A JavaScript [Map] with string keys: entries in insertion order;
    [set] on a present key replaces the value where it stands. *)
Fixpoint Map_get {V : Type} (k : string) (m : list (string * V)) : option V :=
  match m with
  | [] => None
  | (k', v) :: rest => if String.eqb k k' then Some v else Map_get k rest
  end.

Fixpoint Map_set {V : Type} (k : string) (v : V) (m : list (string * V))
  : list (string * V) :=
  match m with
  | [] => [(k, v)]
  | (k', v') :: rest =>
      if String.eqb k k' then (k, v) :: rest else (k', v') :: Map_set k v rest
  end.

Fixpoint Map_delete {V : Type} (k : string) (m : list (string * V))
  : list (string * V) :=
  match m with
  | [] => []
  | (k', v') :: rest =>
      if String.eqb k k' then rest else (k', v') :: Map_delete k rest
  end.

(** The manager: the in-memory [Map], the data directory (the content of
    [swap_<id>.json], by swap id) and the [initialized] flag. Backups go
    to a directory of their own, and a failed backup is logged and
    forgotten; they touch none of the three. *)
Record Store : Type := mkStore {
  swapStates : list (string * SwapState);
  files : gmap string SwapState;
  initialized : bool
}.

(** The calls into [fs], and the error each throws in this run, if any
    (its [code]). A call that throws has had no effect. For [WriteFile]
    that is a write refused when the file is opened ([EACCES], [EROFS],
    [EMFILE], ...): [fs.writeFile] opens with flag ['w'], so a write that
    fails after the open leaves the file truncated, and such a failure is
    outside this model. *)
Inductive FsCall : Type :=
| Mkdir (dir : string)
| Readdir (dir : string)
| ReadFile (id : string)
| WriteFile (id : string)
| Unlink (id : string).

(** A method of the manager: an outcome and the store it leaves, also
    when it throws. *)
Definition SM (A : Type) : Type := Store -> js A * Store.

Definition sm_ret {A : Type} (a : A) : SM A := fun st => (Return a, st).
Definition sm_throw {A : Type} (m : string) : SM A := fun st => (Throw m, st).

Definition sm_bind {A B : Type} (r : SM A) (k : A -> SM B) : SM B :=
  fun st =>
    match r st with
    | (Return a, st') => k a st'
    | (Throw m, st') => (Throw m, st')
    end.

Definition sm_lift {A : Type} (r : js A) : SM A := fun st => (r, st).

Declare Scope sm_scope.
Delimit Scope sm_scope with sm.
Notation "'let*' x := r 'in' k" := (sm_bind r (fun x => k))
  (at level 10, x name, r at level 100, k at level 200) : sm_scope.
Notation "'run*' r 'in' k" := (sm_bind r (fun _ => k))
  (at level 10, r at level 100, k at level 200) : sm_scope.

Fixpoint sm_for {B : Type} (body : B -> SM unit) (xs : list B) : SM unit :=
  match xs with
  | [] => sm_ret tt
  | x :: rest => sm_bind (body x) (fun _ => sm_for body rest)
  end.

(** [Array.prototype.sort(compareFn)]: a stable sort; an element stays
    before another one when [compareFn] of the two is not positive. *)
Fixpoint sort_insert {A : Type} (compareFn : A -> A -> Z) (x : A) (l : list A) : list A :=
  match l with
  | [] => [x]
  | y :: rest =>
      if (compareFn x y <=? 0)%Z then x :: y :: rest
      else y :: sort_insert compareFn x rest
  end.

Definition Array_sort {A : Type} (compareFn : A -> A -> Z) (l : list A) : list A :=
  fold_right (sort_insert compareFn) [] l.

(** [String.prototype.replace] with a string pattern: the first
    occurrence only. *)
Fixpoint String_replace (pattern replacement s : string) : string :=
  if String.prefix pattern s
  then replacement
       ++ String.substring (String.length pattern)
                           (String.length s - String.length pattern) s
  else match s with
       | EmptyString => EmptyString
       | String c rest => String c (String_replace pattern replacement rest)
       end.

Section WithFs.
Variable fs_error : FsCall -> option string.
Local Open Scope sm_scope.

Definition fs_call (c : FsCall) : SM unit :=
  match fs_error c with
  | Some code => sm_throw code
  | None => sm_ret tt
  end.

Definition dataDir : string := "./data".
Definition backupDir : string := "./data/backups".

(** One file of the directory listing, [swap_<id>.json]: a file that
    cannot be read is logged and skipped. The key is what the two
    [replace] calls leave of the file name; it is the id unless the id
    itself contains ".json". *)
Definition load_file (entry : string * SwapState) : SM unit :=
  fun st =>
    let file := "swap_" ++ fst entry ++ ".json" in
    match fs_error (ReadFile (fst entry)) with
    | Some _ => (Return tt, st)
    | None =>
        let swapId := String_replace ".json" "" (String_replace "swap_" "" file) in
        (Return tt,
         mkStore (Map_set swapId (snd entry) (swapStates st))
                 (files st) (initialized st))
    end.

(** The listing is taken in the order of the keys; [fs.readdir] promises
    no order, and no statement below depends on it. *)
Definition loadSwapStates : SM unit :=
  fun st =>
    match fs_error (Readdir dataDir) with
    | Some code =>
        if String.eqb code "ENOENT" then (Return tt, st) else (Throw code, st)
    | None => sm_for load_file (map_to_list (files st)) st
    end.

Definition initialize : SM unit :=
  run* fs_call (Mkdir dataDir) in
  run* fs_call (Mkdir backupDir) in
  run* loadSwapStates in
  fun st => (Return tt, mkStore (swapStates st) (files st) true).

Definition ensure_initialized : SM unit :=
  fun st => if initialized st then (Return tt, st) else initialize st.

(** [saveSwapState]: the manager is initialized if it was not, the entry
    of the [Map] is set to the object with [lastUpdated], and then the
    file is written, with the object as it was passed. The
    [createBackup] that follows writes to the backup directory only and
    catches whatever it throws, so that it changes neither the outcome
    of the call nor the store. *)
Definition saveSwapState (now : Z) (id : string) (swapState : SwapState) : SM unit :=
  run* ensure_initialized in
  run* (fun st =>
          (Return tt,
           mkStore (Map_set id (with_lastUpdated swapState now) (swapStates st))
                   (files st) (initialized st))) in
  run* fs_call (WriteFile id) in
  fun st =>
    (Return tt, mkStore (swapStates st) (<[id := swapState]> (files st)) (initialized st)).

Definition getSwapState (id : string) : SM (option SwapState) :=
  run* ensure_initialized in
  fun st =>
    match Map_get id (swapStates st) with
    | Some s => (Return (Some s), st)
    | None =>
        match files st !! id with
        | None => (Return None, st)
        | Some s =>
            match fs_error (ReadFile id) with
            | Some code =>
                if String.eqb code "ENOENT" then (Return None, st) else (Throw code, st)
            | None =>
                (Return (Some s),
                 mkStore (Map_set id s (swapStates st)) (files st) (initialized st))
            end
        end
    end.

Definition getActiveSwaps : SM (list SwapState) :=
  run* ensure_initialized in
  fun st =>
    (Return (map snd (List.filter (fun e => String.eqb (status (snd e)) "initiated"
                                       || String.eqb (status (snd e)) "pending")
                             (swapStates st))), st).

Definition deleteSwapState (id : string) : SM unit :=
  run* ensure_initialized in
  run* (fun st =>
          (Return tt,
           mkStore (Map_delete id (swapStates st)) (files st) (initialized st))) in
  fun st =>
    match fs_error (Unlink id) with
    | Some code =>
        if String.eqb code "ENOENT" then (Return tt, st) else (Throw code, st)
    | None =>
        (Return tt, mkStore (swapStates st) (delete id (files st)) (initialized st))
    end.

(** The swaps of one user, by either address, newest first. *)
Definition getUserSwapHistory (userAddress : string) : SM (list SwapState) :=
  run* ensure_initialized in
  fun st =>
    let userSwaps :=
      map snd (List.filter
                 (fun e => String.eqb (eth_userAddress (ethSide (snd e))) userAddress
                           || String.eqb (btc_userAddress (btcSide (snd e))) userAddress)
                 (swapStates st)) in
    (Return (Array_sort (fun a b => createdAt b - createdAt a)%Z userSwaps), st).

(** The test of the purge: old enough, and completed or refunded. *)
Definition purgeable (cutoffTime : Z) (entry : string * SwapState) : bool :=
  (createdAt (snd entry) <? cutoffTime)%Z
  && (String.eqb (status (snd entry)) "completed"
      || String.eqb (status (snd entry)) "refunded").

Definition cleanupExpiredSwaps (now : Z) (maxAge : option Z) : SM Z :=
  fun st =>
    let maxAge := default (30 * 24 * 60 * 60 * 1000)%Z maxAge in
    let cutoffTime := (now - maxAge)%Z in
    let swapsToDelete := map fst (List.filter (purgeable cutoffTime) (swapStates st)) in
    (run* sm_for deleteSwapState swapsToDelete in
     sm_ret (Z.of_nat (length swapsToDelete))) st.

End WithFs.

(** *** Backups *)







(** [new StateManager()], before its [initialize] has run. *)
Definition new_StateManager (disk : gmap string SwapState) : Store :=
  mkStore [] disk false.

(** The statuses the specification calls terminal. *)
Definition is_terminal (st : string) : bool :=
  String.eqb st "completed" || String.eqb st "refunded" || String.eqb st "expired".

(** A well-formed store: the [Map]'s keys are distinct, and it is filled
    only once the manager is initialized. *)
Definition store_ok (st : Store) : Prop :=
  List.NoDup (map fst (swapStates st)) /\
  (swapStates st <> [] -> initialized st = true).

End StateManager.

(** ** The calls into ethers (6.8) *)

Module Ethers.
Local Open Scope js_scope.
Local Open Scope string_scope.

(** A [BytesLike] argument: a string, or a [Uint8Array] (a [Buffer] is
    one). *)
Inductive BytesLike : Type :=
| HexString (value : string)
| Uint8Array (value : bytes).

Section WithMessages.

(** The message of the error ethers raises when an assertion fails: the
    text of the assertion, followed by the argument, the error code and
    the version of the library. *)
Variable error_message : string -> string.

Definition isHexDigit (c : Ascii.ascii) : bool :=
  match hex_value c with
  | Some _ => true
  | None => false
  end.

Fixpoint hex_pairs (s : string) : bool :=
  match s with
  | EmptyString => true
  | String hi (String lo rest) => isHexDigit hi && isHexDigit lo && hex_pairs rest
  | String _ EmptyString => false
  end.

(** The test [getBytes] makes of a string:
    [/^0x(?:[0-9a-f][0-9a-f])*$/i]. *)
Definition isBytesHex (value : string) : bool :=
  match value with
  | String zero (String x rest) =>
      Ascii.eqb zero (Ascii.ascii_of_nat 48)
      && (Ascii.eqb x (Ascii.ascii_of_nat 120) || Ascii.eqb x (Ascii.ascii_of_nat 88))
      && hex_pairs rest
  | _ => false
  end.

Definition getBytes (value : BytesLike) : js bytes :=
  match value with
  | Uint8Array b => Return b
  | HexString s =>
      if isBytesHex s
      then Return (from_hex (String.substring 2 (String.length s - 2) s))
      else Throw (error_message "invalid BytesLike value")
  end.

Definition hexlify (data : BytesLike) : js string :=
  let* bytes := getBytes data in
  Return ("0x" ++ to_hex bytes).

Definition zeroPadValue (data : BytesLike) (length : nat) : js string :=
  let* bytes := getBytes data in
  if (length <? List.length bytes)%nat
  then Throw (error_message "padding exceeds data length")
  else Return ("0x" ++ to_hex (repeat x00 (length - List.length bytes) ++ bytes)).

Definition keccak256 (data : BytesLike) : js string :=
  let* bytes := getBytes data in
  Return ("0x" ++ to_hex (Keccak.keccak256 bytes)).

(** [parseEther(amount.toString())] for a whole amount: a number prints
    in plain digits below 10^21 and with an exponent from there on, which
    [parseEther] refuses. *)
Definition parseEther_toString (amount : Z) : js Z :=
  if (Z.abs amount <? 10 ^ 21)%Z then Return (amount * 10 ^ 18)%Z
  else Throw (error_message "invalid FixedNumber string value").

End WithMessages.
End Ethers.

(** ** [coordinator/SwapCoordinator.js]: initiating a swap *)

Module SwapCoordinator.
Import StateManager.
Local Open Scope string_scope.

Record SwapParams : Type := mkSwapParams {
  btcAmount : Z;
  ethTokenAddress : string;
  ethAmount : Z;
  userBtcAddress : string;
  userEthAddress : string;
  lockTime : Z
}.

(** What the outside world supplies during one call: the id drawn by
    [generateSwapId], the bytes drawn by [crypto.randomBytes], the 1inch
    quote or the error of the request, the successive readings of
    [Date.now()], what the registry call [initiateSwap] and the wait for
    its receipt come to if they are reached, the file-system errors, and
    the messages of ethers' errors. *)
Record World : Type := mkWorld {
  generated_swapId : string;
  random_bytes : bytes;
  quote_response : js string;
  now_createdAt : Z;
  now_expiresAt : Z;
  now_saved : Z;
  ethereum_response : js string;
  fs_error : StateManager.FsCall -> option string;
  ethers_error : string -> string
}.

(** The object [initiateBTCToETHSwap] returns. *)
Record Initiated : Type := mkInitiated {
  res_swapId : string;
  res_btcHtlcAddress : string;
  res_secretHash : string;
  res_lockTime : Z;
  res_ethQuote : string
}.

Section WithLib.
Variable L : Bitcoin.Lib.
Variable serviceBtcAddress : string.
Local Open Scope sm_scope.

(** The swap state built from the parameters, the secret and the lock. *)
Definition initial_state (w : World) (p : SwapParams) (secret hash : bytes)
    (htlcOutput : BitcoinHTLC.HTLCOutput) (ethQuote : string)
  : StateManager.SwapState :=
  StateManager.mkSwapState
    (generated_swapId w)
    "initiated"
    (StateManager.mkBtcSide
       (btcAmount p) (userBtcAddress p)
       (BitcoinHTLC.address htlcOutput)
       (to_hex (BitcoinHTLC.script htlcOutput))
       (to_hex secret)
       (to_hex hash)
       (lockTime p))
    (StateManager.mkEthSide (ethTokenAddress p) (ethAmount p) (userEthAddress p) ethQuote)
    (now_createdAt w)
    (now_expiresAt w + 24 * 60 * 60 * 1000)
    None None None None None None.

(** [initiateEthereumSwap]: the arguments of the registry call are
    evaluated first, among them [ethers.parseEther] of the amount and
    [ethers.zeroPadValue] of the stored secret hash. *)
Definition initiateEthereumSwap (w : World) (swapState : StateManager.SwapState)
  : js string :=
  (let* amountOut :=
     Ethers.parseEther_toString (ethers_error w) (eth_amount (ethSide swapState)) in
   let* secretHash :=
     Ethers.zeroPadValue (ethers_error w)
       (Ethers.HexString (secretHash (btcSide swapState))) 32 in
   ethereum_response w)%js.

Definition initiateBTCToETHSwap (w : World) (swapParams : SwapParams)
  : StateManager.SM Initiated :=
  let swapId := generated_swapId w in
  let secret := fst (BitcoinHTLC.generateSecret (random_bytes w)) in
  let hash := snd (BitcoinHTLC.generateSecret (random_bytes w)) in
  let* htlcOutput :=
    StateManager.sm_lift
      (BitcoinHTLC.createHTLCOutput L hash (userBtcAddress swapParams)
         serviceBtcAddress (lockTime swapParams) (btcAmount swapParams)) in
  let* ethQuote := StateManager.sm_lift (quote_response w) in
  let swapState := initial_state w swapParams secret hash htlcOutput ethQuote in
  run* StateManager.saveSwapState (fs_error w) (now_saved w) swapId swapState in
  run* StateManager.sm_lift (initiateEthereumSwap w swapState) in
  StateManager.sm_ret
    (mkInitiated swapId (BitcoinHTLC.address htlcOutput) (to_hex hash)
                 (lockTime swapParams) ethQuote).

End WithLib.

(** A call is modelled run to its end, with no other call of the
    coordinator in between. *)

(** [swapState.x = ...] on the object [getSwapState] returned: that
    object is the entry of the [Map] under the swap id, so the entry
    changes where it stands. *)
Definition assign (id : string) (swapState : StateManager.SwapState)
  : StateManager.SM unit :=
  fun st =>
    (Return tt,
     StateManager.mkStore (Map_set id swapState (swapStates st)) (files st)
                          (initialized st)).

(** *** [handleSwapTimeout] *)

(** What the world supplies during one call: the file-system errors, the
    readings of [Date.now()], and what the registry call
    [refundSwap(swapId, reason)] and the wait for its receipt come to
    (the transaction hash, or the error thrown). *)
Record TimeoutWorld : Type := mkTimeoutWorld {
  tw_fs_error : StateManager.FsCall -> option string;
  tw_now_check : Z;
  tw_refundSwap : string -> string -> js string;
  tw_now_refundedAt : Z;
  tw_now_saved : Z
}.

Record Refunded : Type := mkRefunded {
  ref_swapId : string;
  ref_status : string;
  ref_ethRefundTxHash : string
}.

Definition mark_refunded (s : StateManager.SwapState) (now : Z) (ethRefundTxHash : string)
  : StateManager.SwapState :=
  StateManager.mkSwapState
    (swapId s) "refunded" (btcSide s) (ethSide s) (createdAt s) (expiresAt s)
    (btcTxId s) (ethTxHash s) (completedAt s) (Some now) (Some ethRefundTxHash)
    (lastUpdated s).

Definition handleSwapTimeout (w : TimeoutWorld) (swapId : string)
  : StateManager.SM Refunded :=
  (let* found := StateManager.getSwapState (tw_fs_error w) swapId in
   match found with
   | None => StateManager.sm_throw "Swap not found"
   | Some swapState =>
       if (tw_now_check w >? expiresAt swapState)%Z then
         let* ethTxHash := StateManager.sm_lift (tw_refundSwap w swapId "Swap timeout") in
         let swapState := mark_refunded swapState (tw_now_refundedAt w) ethTxHash in
         run* assign swapId swapState in
         run* StateManager.saveSwapState (tw_fs_error w) (tw_now_saved w) swapId swapState in
         StateManager.sm_ret (mkRefunded swapId "refunded" ethTxHash)
       else StateManager.sm_throw "Swap not expired yet"
   end)%sm.

(** *** [monitorSwaps] *)

(** Whether a call of [handleSwapTimeout] reaches its three assignments
    to the record: the clock is past the deadline and the registry call
    has returned. *)
Definition reaches_assignments (w : TimeoutWorld) (swapId : string)
    (st : StateManager.Store) : bool :=
  match StateManager.getSwapState (tw_fs_error w) swapId st with
  | (Return (Some swapState), _) =>
      (tw_now_check w >? expiresAt swapState)%Z
      && match tw_refundSwap w swapId "Swap timeout" with
         | Return _ => true
         | Throw _ => false
         end
  | _ => false
  end.

(** What the world supplies during one call of [monitorSwaps]: the
    file-system errors met by [getActiveSwaps], the reading of
    [Date.now()] in each turn of the loop, and what the
    [handleSwapTimeout] of that turn meets. *)
Record MonitorWorld : Type := mkMonitorWorld {
  mw_fs_error : StateManager.FsCall -> option string;
  mw_now : nat -> Z;
  mw_timeout : nat -> TimeoutWorld
}.

(** The loop over [activeSwaps], from turn [turn] on. The elements of the
    array are the very objects [getActiveSwaps] found in the [Map], each
    taken here with its key; [assigned] lists the keys whose object an
    earlier turn's [handleSwapTimeout] has assigned to, so that its
    [status] now reads "refunded" and the test fails. An error thrown by
    [handleSwapTimeout] is logged and the loop goes on. *)
Fixpoint monitor_loop (w : MonitorWorld) (turn : nat)
    (entries : list (string * StateManager.SwapState)) (assigned : list string)
    (st : StateManager.Store) : StateManager.Store :=
  match entries with
  | [] => st
  | (key, swap) :: rest =>
      if existsb (String.eqb key) assigned then monitor_loop w (S turn) rest assigned st
      else if (mw_now w turn >? expiresAt swap)%Z && String.eqb (status swap) "initiated"
      then
        monitor_loop w (S turn) rest
          (if reaches_assignments (mw_timeout w turn) (swapId swap) st
           then swapId swap :: assigned else assigned)
          (snd (handleSwapTimeout (mw_timeout w turn) (swapId swap) st))
      else monitor_loop w (S turn) rest assigned st
  end.

Definition monitorSwaps (w : MonitorWorld) : StateManager.SM unit :=
  fun st =>
    match StateManager.getActiveSwaps (mw_fs_error w) st with
    | (Throw message, st1) => (Throw message, st1)
    | (Return activeSwaps, st1) =>
        (Return tt,
         monitor_loop w 0
           (List.filter (fun e => String.eqb (status (snd e)) "initiated"
                                  || String.eqb (status (snd e)) "pending")
                        (swapStates st1))
           [] st1)
    end.

(** A store as the coordinator fills it: the keys of the [Map] are
    distinct and each record is stored under its own [swapId]. *)
Definition coherent (st : StateManager.Store) : Prop :=
  List.NoDup (map fst (swapStates st)) /\
  forall key swap, In (key, swap) (swapStates st) -> swapId swap = key.

(** *** [waitForBitcoinConfirmations] and [completeBTCToETHSwap] *)

(** What [bitcoinWallet.getTransaction] resolves to, as far as the
    coordinator reads it; a field the answer lacks is [None]. *)
Record BtcTx : Type := mkBtcTx {
  btc_hex : option string;
  btc_confirmations : option Z
}.

(** The polling loop over the answers of its requests, one every 30
    seconds: [Some] when the promise settles at one of them, [None] when
    it is still waiting after the last. *)
Fixpoint waitForBitcoinConfirmations (confirmations : Z)
    (polls : list (js (option BtcTx))) : option (js unit) :=
  match polls with
  | [] => None
  | Throw message :: _ => Some (Throw message)
  | Return tx :: rest =>
      match tx with
      | Some (mkBtcTx _ (Some n)) =>
          if (n >=? confirmations)%Z then Some (Return tt)
          else waitForBitcoinConfirmations confirmations rest
      | _ => waitForBitcoinConfirmations confirmations rest
      end
  end.

(** What the world supplies during one call of [completeBTCToETHSwap]:
    the file-system errors, the answer to the first [getTransaction], the
    answers the waiting loop receives, the message of the [TypeError] that
    [Transaction.fromHex] throws when the answer has no [hex], the answers
    to the [getTransaction] and the [getTransactionHex] of
    [createBitcoinTxProof], what the registry call [completeSwap(swapId,
    secret, txData, merkleProof)] and the wait for its receipt come to,
    two readings of [Date.now()], and the messages of ethers' errors. *)
Record CompletionWorld : Type := mkCompletionWorld {
  cw_fs_error : StateManager.FsCall -> option string;
  cw_getTransaction : js (option BtcTx);
  cw_polls : list (js (option BtcTx));
  cw_fromHex_undefined : string;
  cw_proof_getTransaction : js (option BtcTx);
  cw_getTransactionHex : js string;
  cw_completeSwap : string -> string -> string -> list string -> js string;
  cw_now_completedAt : Z;
  cw_now_saved : Z;
  cw_ethers_error : string -> string
}.

Record BitcoinTxProof : Type := mkBitcoinTxProof {
  txData : string;
  merkleProof : list string;
  blockHeader : string
}.

(** [createBitcoinTxProof]: the transaction is fetched (and not used),
    then its hex form, which must be a [BytesLike] for [ethers.hexlify]
    and [ethers.keccak256]. The block header is 80 zero bytes. *)
Definition createBitcoinTxProof (w : CompletionWorld) : js BitcoinTxProof :=
  (let* tx := cw_proof_getTransaction w in
   let* txHex := cw_getTransactionHex w in
   let* txData := Ethers.hexlify (cw_ethers_error w) (Ethers.HexString txHex) in
   let* leaf := Ethers.keccak256 (cw_ethers_error w) (Ethers.HexString txHex) in
   Return (mkBitcoinTxProof txData [leaf] ("0x" ++ to_hex (repeat x00 80))))%js.

Definition completeEthereumSwap (w : CompletionWorld) (swapId : string) (secret : bytes)
  : js string :=
  (let* bitcoinTxProof := createBitcoinTxProof w in
   let* secret32 := Ethers.zeroPadValue (cw_ethers_error w) (Ethers.Uint8Array secret) 32 in
   cw_completeSwap w swapId secret32 (txData bitcoinTxProof) (merkleProof bitcoinTxProof))%js.

Record Completed : Type := mkCompleted {
  done_swapId : string;
  done_status : string;
  done_btcTxId : string;
  done_ethTxHash : string;
  done_secret : string
}.

Definition mark_completed (s : StateManager.SwapState) (bitcoinTxId ethTxHash : string)
    (now : Z) : StateManager.SwapState :=
  StateManager.mkSwapState
    (swapId s) "completed" (btcSide s) (ethSide s) (createdAt s) (expiresAt s)
    (Some bitcoinTxId) (Some ethTxHash) (Some now) (refundedAt s) (ethRefundTxHash s)
    (lastUpdated s).

(** The call from the end of the wait on. *)
Definition complete_after_wait (L : Bitcoin.Lib) (w : CompletionWorld)
    (swapId bitcoinTxId : string) (swapState : StateManager.SwapState) (btcTx : BtcTx)
  : StateManager.SM Completed :=
  (let* secret :=
     StateManager.sm_lift
       match btc_hex btcTx with
       | Some hex =>
           BitcoinHTLC.extractSecretFromTransaction L hex
             (from_hex (secretHash (btcSide swapState)))
       | None => Throw (cw_fromHex_undefined w)
       end in
   match secret with
   | None => StateManager.sm_throw "Secret not found in Bitcoin transaction"
   | Some secret =>
       let* ethTxHash :=
         StateManager.sm_lift (completeEthereumSwap w swapId secret) in
       let swapState :=
         mark_completed swapState bitcoinTxId ethTxHash (cw_now_completedAt w) in
       run* assign swapId swapState in
       run* StateManager.saveSwapState (cw_fs_error w) (cw_now_saved w) swapId swapState in
       StateManager.sm_ret
         (mkCompleted swapId "completed" bitcoinTxId ethTxHash (to_hex secret))
   end)%sm.

(** [completeBTCToETHSwap]: [None] when the call is still waiting for the
    confirmations after the last of the polls. *)
Definition completeBTCToETHSwap (L : Bitcoin.Lib) (w : CompletionWorld)
    (swapId bitcoinTxId : string)
  : StateManager.Store -> option (js Completed) * StateManager.Store :=
  fun st =>
    match StateManager.getSwapState (cw_fs_error w) swapId st with
    | (Throw message, st1) => (Some (Throw message), st1)
    | (Return None, st1) => (Some (Throw "Swap not found"), st1)
    | (Return (Some swapState), st1) =>
        match cw_getTransaction w with
        | Throw message => (Some (Throw message), st1)
        | Return None => (Some (Throw "Bitcoin transaction not found"), st1)
        | Return (Some btcTx) =>
            match waitForBitcoinConfirmations 3 (cw_polls w) with
            | None => (None, st1)
            | Some (Throw message) => (Some (Throw message), st1)
            | Some (Return _) =>
                (Some (fst (complete_after_wait L w swapId bitcoinTxId swapState btcTx st1)),
                 snd (complete_after_wait L w swapId bitcoinTxId swapState btcTx st1))
            end
        end
    end.

End SwapCoordinator.

(** ** Concrete values for the runs shown below *)

Module Examples.
Import Script Bitcoin BitcoinHTLC.
Local Open Scope string_scope.

(** The secret 01 02 .. 20 and the funding transaction's id. *)
Definition secret : bytes := map (fun n => Z_to_byte (Z.of_nat n)) (seq 1 32).
Definition funding_txid : string :=
  "50d858e0985ecc7f60418aaf0cc5ab587f42c2570a884095a9e8ccacd0f6545c".
Definition recipient_wif : string :=
  "cMahea7zqjxrtgAbB7LSGbcQUr1uX1ojuat9jZodMN87JcbXMTcA".
Definition destination : string := "mh5CE8Nbj38iND267s4XnvhSmhDW7yWc6Q".
Definition htlc_address : string := "2Mz7sdTX36z7Ah3p6GHNmKmcykockz7QWmy".
Definition htlc_scriptPubKey : string :=
  "a9144b64f94ee37eee37548885b87b61b278e2c38e4b87".

(** The public key of the private key 1 (the generator, compressed). *)
Definition recipient_pubkey : bytes :=
  from_hex "0279be667ef9dcbbac55a06295ce870b07029bfcdb2dce28d959f2815b16f81798".

Definition total_in (p : Psbt) : Z :=
  fold_right Z.add 0 (map (fun i => snd (pi_witnessUtxo i)) (psbt_inputs p)).
Definition total_out (p : Psbt) : Z :=
  fold_right Z.add 0 (map out_value (psbt_outputs p)).

(** Base58Check, which gives a script hash its address. *)
Definition base58_alphabet : string :=
  "123456789ABCDEFGHJKLMNPQRSTUVWXYZabcdefghijkmnopqrstuvwxyz".

Fixpoint base58_digits (fuel : nat) (n : Z) (acc : string) : string :=
  match fuel with
  | O => acc
  | S fuel' =>
      if (n =? 0)%Z then acc
      else base58_digits fuel' (n / 58)%Z
             (String (default Ascii.zero
                        (String.get (Z.to_nat (n mod 58)%Z) base58_alphabet))
                     acc)
  end.

Fixpoint leading_zeros (b : bytes) : string :=
  match b with
  | x00 :: rest => "1" ++ leading_zeros rest
  | _ => EmptyString
  end.

Definition base58_encode (b : bytes) : string :=
  leading_zeros b ++ base58_digits (2 * length b)%nat (be_value (map byte_to_Z b)) "".

Definition base58check_encode (payload : bytes) : string :=
  base58_encode (payload ++ firstn 4 (SHA256.sha256 (SHA256.sha256 payload))).

(** bitcoinjs-lib on testnet, as far as the runs below go. Of the keys
    it imports the one of the runs (the private key 1, whose WIF is
    [recipient_wif]) and of the addresses it decodes their one
    destination (the pay-to-pubkey-hash address of the hash 11 .. 11);
    every other string is refused. It derives the address of a script
    as the library does (Base58Check of the version byte [c4] and the
    script's hash; the library's ceiling on the size of the script is
    left out, the lock being far below it). An input must name a
    32-byte transaction id and not repeat an earlier one, an output
    value must be in the satoshi range. Past the search for the script
    to sign, a key signs only a script that names its public key hash.
    The outputs of an extracted transaction must not exceed its inputs
    (the ceiling on the fee rate is left out: no run below pays a fee).
    Transactions are read and written in the wire format. The messages
    are the library's, those of its type checks without their quotes. *)
Definition bitcoinjs_testnet : Lib :=
  mkLib
    (fun wif =>
       if String.eqb wif recipient_wif then Return (repeat x00 31 ++ [x01])%list
       else Throw "Invalid checksum")
    (fun addr =>
       if String.eqb addr destination
       then Return (from_hex "76a914111111111111111111111111111111111111111188ac")
       else Throw (addr ++ " has no matching Script"))
    (fun script =>
       match decompile script with
       | None | Some [] => Throw "Redeem.output too short"
       | Some _ => Return (base58check_encode (Z_to_byte 196 :: hash160 script))
       end)
    (fun p i =>
       if negb (length (from_hex (pi_hash i)) =? 32)%nat
       then Throw "Expected property 0 of type Buffer(Length: 32)"
       else if existsb (fun j => String.eqb (pi_hash j) (pi_hash i)
                                 && (pi_index j =? pi_index i)%Z) (psbt_inputs p)
       then Throw "Duplicate input detected."
       else Return tt)
    (fun _ o =>
       if ((0 <=? out_value o) && (out_value o <=? 2100000000000000))%Z
       then Return tt
       else Throw "Expected property 1 of type Satoshi")
    (fun p index _ =>
       match psbt_inputs p !! index with
       | None => Throw ("No input #" ++ decimal index)
       | Some input =>
           match getMeaningfulScript (from_hex (fst (pi_witnessUtxo input))) index
                   (pi_redeemScript input) with
           | Throw message => Throw message
           | Return meaningfulScript =>
               if bool_decide (meaningfulScript = x00 :: x14 :: hash160 recipient_pubkey)
               then Return tt
               else Throw ("Can not sign for this input with the key "
                           ++ to_hex recipient_pubkey)
           end
       end)
    (fun _ _ => Return tt)
    (fun p =>
       if (total_in p <? total_out p)%Z
       then Throw "Outputs are spending more than Inputs"
       else Return tt)
    TxCodec.toHex
    TxCodec.fromHex.

(** The lock built for [secret] with lock time 800144 and amount [amt]. *)
Definition htlc (amt : Z) : js HTLCOutput :=
  createHTLCOutput bitcoinjs_testnet (SHA256.sha256 secret) destination destination
                   800144 amt.

(** A UTXO of the lock: an output of the funding transaction that pays
    to the lock's address. *)
Definition utxo (v : Z) : Utxo := mkUtxo funding_txid 0 v htlc_scriptPubKey.

(** One call of [initiateBTCToETHSwap]: the random bytes are [secret], no
    file-system call fails, the quote arrives. The registry would accept
    the call if it were reached; of ethers' messages the text of the
    assertion is kept. *)
Definition world : SwapCoordinator.World :=
  SwapCoordinator.mkWorld
    "0x5e1f" secret (Return "{}") 1700000000000 1700000000000 1700000000001
    (Return "0xabc") (fun _ => None) (fun assertion => assertion).

Definition params : SwapCoordinator.SwapParams :=
  SwapCoordinator.mkSwapParams 100000 "0xToken" 1 "tb1user" "0xUser" 800144.

Definition initialized_store : StateManager.Store := StateManager.mkStore [] ∅ true.

(** A transaction that spends the lock of 100000 satoshis with [secret]:
    its one input carries the scriptSig that [createClaimTransaction]
    assembles, the secret first. *)
Definition claim_transaction : js Transaction :=
  (let* h := htlc 100000 in
   let* witnessScript := compile [Data secret; Op OP_TRUE] in
   let* finalScriptSig := payments_p2sh_input (script h) witnessScript in
   Return (mkTransaction 2
             [mkTxInput (hash_of_txid funding_txid) 0 finalScriptSig 4294967295 []]
             [mkTxOutput (from_hex "76a914111111111111111111111111111111111111111188ac")
                         99000]
             0))%js.

Definition claim_hex : string :=
  match claim_transaction with
  | Return tx => TxCodec.toHex tx
  | Throw _ => ""
  end.

End Examples.
(** * Theorems *)

(** ** The hash primitives agree with their published test vectors *)

(** Test vectors: the empty string, "abc", and 32 zero bytes. *)
Example sha256_vectors :
  to_hex (SHA256.sha256 []) =
    "e3b0c44298fc1c149afbf4c8996fb92427ae41e4649b934ca495991b7852b855"%string /\
  to_hex (SHA256.sha256 ["a"%byte; "b"%byte; "c"%byte]) =
    "ba7816bf8f01cfea414140de5dae2223b00361a396177a9cb410ff61f20015ad"%string /\
  to_hex (SHA256.sha256 (repeat x00 32)) =
    "66687aadf862bd776c8fc18b8e9f8e20089714856ee233b3902a591d0d5f2925"%string.
Proof. vm_compute. repeat split. Qed.

Example keccak256_vectors :
  to_hex (Keccak.keccak256 []) =
    "c5d2460186f7233c927e7db2dcc703c0e500b653ca82273b7bfad8045d85a470"%string /\
  to_hex (Keccak.keccak256 ["a"%byte; "b"%byte; "c"%byte]) =
    "4e03657aea45a94fc7d47ba826c8d667c0d1e6e33a64a036ec44f58fa12d6c45"%string /\
  to_hex (Keccak.keccak256 (repeat x00 32)) =
    "290decd9548b62a8d60345a988386fc84ba6bc95484008f6362f93160ef3e563"%string.
Proof. vm_compute. repeat split. Qed.

(** ** The order registry *)

Module RegistryProofs.
Import FusionResolver.

Lemma order_at_set_order s id o id' :
  order_at (set_order s id o) id' =
  if decide (id = id') then o else order_at s id'.
Proof.
  unfold order_at, set_order; simpl.
  rewrite lookup_insert. destruct (decide (id = id')); reflexivity.
Qed.

(** Inverting a [require] that passed, and running one that is decided. *)
Lemma bind_require_Ok {A} c m (k : result A) v :
  (do_ require c m ; k) = Ok v -> c = true /\ k = Ok v.
Proof. destruct c; simpl; [auto | discriminate]. Qed.

Lemma bind_require_true {A} c m (k : result A) :
  c = true -> (do_ require c m ; k) = k.
Proof. intros ->. reflexivity. Qed.

Lemma bind_require_false {A} c m (k : result A) :
  c = false -> (do_ require c m ; k) = Revert m.
Proof. intros ->. reflexivity. Qed.

Ltac inv_requires H :=
  repeat (apply bind_require_Ok in H;
          let Hc := fresh "Hreq" in destruct H as [Hc H]).

Lemma SwapStatus_eqb_eq a b : SwapStatus_eqb a b = true <-> a = b.
Proof. destruct a, b; simpl; split; congruence. Qed.

(** Every call that returns acts as the transition relation says. *)
Lemma execute_effect s e c s' evs :
  execute s e c = Ok (s', evs) -> effect s e c s'.
Proof.
  destruct c; simpl; intros Hx.
  - unfold initiateSwap in Hx. inv_requires Hx. injection Hx as <- _.
    apply effect_initiate; lia.
  - unfold completeSwap in Hx. inv_requires Hx.
    unfold _executeFusionSwap in Hx. inv_requires Hx. injection Hx as <- _.
    apply effect_complete; simpl; try reflexivity.
    + apply negb_true_iff in Hreq. lia.
    + apply SwapStatus_eqb_eq, Hreq0.
  - unfold refundSwap in Hx. inv_requires Hx.
    destruct (expired e (order_at s swapId)) as [ok| |]; simpl in Hx; try discriminate.
    inv_requires Hx. injection Hx as <- _.
    apply effect_refund.
    + apply negb_true_iff in Hreq. lia.
    + apply SwapStatus_eqb_eq, Hreq0.
  - unfold submitBitcoinProof, onlyAuthorizedOracle in Hx. inv_requires Hx.
    injection Hx as <- _. apply effect_other; destruct isValid; reflexivity.
  - unfold addAuthorizedOracle, onlyOwner in Hx. inv_requires Hx.
    injection Hx as <- _. apply effect_other; reflexivity.
  - unfold removeAuthorizedOracle, onlyOwner in Hx. inv_requires Hx.
    injection Hx as <- _. apply effect_other; reflexivity.
  - unfold pause, onlyOwner in Hx. inv_requires Hx.
    injection Hx as <- _. apply effect_other; reflexivity.
  - unfold recoverTokens, onlyOwner in Hx. inv_requires Hx.
    injection Hx as <- _. apply effect_other; reflexivity.
  - unfold transferOwnership, onlyOwner in Hx. inv_requires Hx.
    injection Hx as <- _. apply effect_other; reflexivity.
  - unfold renounceOwnership, onlyOwner in Hx. inv_requires Hx.
    injection Hx as <- _. apply effect_other; reflexivity.
Qed.

(** A transaction either changes nothing or has the effect of its call. *)
Lemma step_cases s tx :
  step s tx = s \/ effect s (fst tx) (snd tx) (step s tx).
Proof.
  unfold step. destruct (execute s (fst tx) (snd tx)) as [[s' evs]| |] eqn:Hx; auto.
  right. eapply execute_effect, Hx.
Qed.

Lemma step_order s tx id : order_step (order_at s id) (order_at (step s tx) id).
Proof.
  destruct (step_cases s tx) as [-> | Heff]; [apply os_same; reflexivity|].
  destruct Heff as [id' tok amt h sh l Hfree Hamt
                   | id' secret proof mp s' Hreg Hpend Horders _
                   | id' reason Hreg Hpend
                   | c s' Horders _].
  - rewrite order_at_set_order. destruct (decide (id' = id)) as [->|Hne].
    + apply os_create; simpl; [exact Hfree | reflexivity | exact Hamt].
    + apply os_same; reflexivity.
  - unfold order_at at 2. rewrite Horders, lookup_insert.
    destruct (decide (id' = id)) as [->|Hne]; simpl.
    + apply os_close; auto.
    + apply os_same; reflexivity.
  - rewrite order_at_set_order. destruct (decide (id' = id)) as [->|Hne].
    + apply os_close; auto.
    + apply os_same; reflexivity.
  - apply os_same. unfold order_at. rewrite Horders. reflexivity.
Qed.

Lemma order_step_inv o o' : order_step o o' -> order_inv o -> order_inv o'.
Proof.
  intros [-> | Hu Hs Ha | Hu Hs [-> | ->]] [H1 H2]; try (split; assumption).
  - split; [congruence | intros _; exact Ha].
  - split; simpl; auto.
  - split; simpl; auto.
Qed.

Lemma run_snoc s txs tx : run s (txs ++ [tx]) = step (run s txs) tx.
Proof. unfold run. rewrite fold_left_app. reflexivity. Qed.

Lemma reachable_inv s id : reachable s -> order_inv (order_at s id).
Proof.
  intros (d & txs & ->). induction txs as [|tx txs IH] using rev_ind.
  - unfold order_at; simpl. rewrite lookup_empty. simpl.
    split; simpl; [congruence | lia].
  - rewrite run_snoc. eapply order_step_inv; [apply step_order | exact IH].
Qed.

(** A registered order that left [Pending] is frozen. *)
Lemma order_step_closed o o' :
  order_step o o' -> user o <> 0 -> terminal (status o) = true -> o' = o.
Proof.
  intros [-> | Hu _ _ | _ Hs _] Hreg Hterm; auto.
  - contradiction.
  - rewrite Hs in Hterm. discriminate.
Qed.

Lemma run_closed s txs id :
  user (order_at s id) <> 0 -> terminal (status (order_at s id)) = true ->
  order_at (run s txs) id = order_at s id.
Proof.
  revert s; induction txs as [|tx txs IH]; intros s Hreg Hterm; simpl; auto.
  assert (Hs : order_at (step s tx) id = order_at s id)
    by (apply order_step_closed; auto using step_order).
  rewrite IH; rewrite Hs; auto.
Qed.

(** Registration is for good: every field but [status] is immutable. *)
Lemma order_step_terms o o' :
  order_step o o' -> user o <> 0 -> same_terms o o'.
Proof.
  intros [-> | Hu _ _ | _ _ [-> | ->]] Hreg; unfold same_terms; simpl; auto 10.
  contradiction.
Qed.

Lemma run_terms s txs id :
  user (order_at s id) <> 0 -> same_terms (order_at s id) (order_at (run s txs) id).
Proof.
  revert s; induction txs as [|tx txs IH]; intros s Hreg; simpl.
  - unfold same_terms; auto 10.
  - pose proof (order_step_terms _ _ (step_order s tx id) Hreg) as Hst.
    assert (Hreg' : user (order_at (step s tx) id) <> 0)
      by (destruct Hst as [-> _]; exact Hreg).
    specialize (IH _ Hreg'). unfold same_terms in *. intuition congruence.
Qed.

(** A consumed secret stays consumed. *)
Lemma step_usedSecrets s tx k :
  flag (usedSecrets s) k = true -> flag (usedSecrets (step s tx)) k = true.
Proof.
  intros Hk. destruct (step_cases s tx) as [-> | Heff]; [exact Hk|].
  destruct Heff as [| id' secret proof mp s' _ _ _ Hused | | c s' _ Hused];
    try exact Hk; unfold flag; rewrite Hused; [|exact Hk].
  rewrite lookup_insert. destruct (decide (secret = k)); [reflexivity | exact Hk].
Qed.

Lemma run_usedSecrets s txs k :
  flag (usedSecrets s) k = true -> flag (usedSecrets (run s txs)) k = true.
Proof.
  revert s; induction txs as [|tx txs IH]; intros s Hk; simpl; auto.
  apply IH, step_usedSecrets, Hk.
Qed.

(** A slot is written for the first time by [initiateSwap] only. *)
Lemma step_unwritten s tx id :
  swapOrders s !! id = None -> registers id tx = false ->
  swapOrders (step s tx) !! id = None.
Proof.
  intros Hnone Hreg.
  assert (Hzero : user (order_at s id) = 0)
    by (unfold order_at; rewrite Hnone; reflexivity).
  destruct (step_cases s tx) as [-> | Heff]; [exact Hnone|].
  unfold registers in Hreg.
  destruct Heff as [id' tok amt h sh l _ _
                   | id' secret proof mp s' Hu _ Horders _
                   | id' reason Hu _
                   | c s' Horders _]; simpl.
  - rewrite lookup_insert_ne; [exact Hnone | lia].
  - rewrite Horders.
    rewrite lookup_insert_ne; [exact Hnone | intros ->; contradiction].
  - rewrite lookup_insert_ne; [exact Hnone | intros ->; contradiction].
  - rewrite Horders. exact Hnone.
Qed.

Lemma run_unwritten s txs id :
  swapOrders s !! id = None -> forallb (fun tx => negb (registers id tx)) txs = true ->
  swapOrders (run s txs) !! id = None.
Proof.
  revert s; induction txs as [|tx txs IH]; intros s Hnone Hall; simpl in *; auto.
  apply andb_true_iff in Hall as [Htx Hall].
  apply IH; [apply step_unwritten; [exact Hnone | now apply negb_true_iff] | exact Hall].
Qed.

(** *** What [completeSwap] checks, in order *)

(** On a registered pending order before its lock time, the call is
    rejected as "Invalid secret" exactly when the Keccak-256 hash of the
    secret differs from the recorded hash. *)
Lemma completeSwap_invalid_secret_iff s e id secret proof mp :
  user (order_at s id) <> 0 -> status (order_at s id) = Pending ->
  block_timestamp e <= lockTime (order_at s id) ->
  (completeSwap s e id secret proof mp = Revert "Invalid secret" <->
   keccak256_packed secret <> secretHash (order_at s id)).
Proof.
  intros Hreg Hpend Htime. unfold completeSwap.
  rewrite bind_require_true by (apply negb_true_iff; lia).
  rewrite bind_require_true by (rewrite Hpend; reflexivity).
  rewrite bind_require_true by lia.
  destruct (keccak256_packed secret =? secretHash (order_at s id)) eqn:Hh.
  - rewrite bind_require_true by reflexivity.
    split; [| lia]. intros Hrev. exfalso.
    unfold _executeFusionSwap in Hrev.
    destruct (negb (flag (usedSecrets s) secret));
      [| rewrite bind_require_false in Hrev by reflexivity; discriminate].
    rewrite bind_require_true in Hrev by reflexivity.
    destruct (verifyBitcoinTransaction _ proof mp);
      [| rewrite bind_require_false in Hrev by reflexivity; discriminate].
    rewrite bind_require_true in Hrev by reflexivity.
    destruct (amountOut _ >? 0);
      [| rewrite bind_require_false in Hrev by reflexivity; discriminate].
    rewrite bind_require_true in Hrev by reflexivity. discriminate.
  - rewrite bind_require_false by reflexivity. split; [lia | reflexivity].
Qed.

(** C1 (code at the failing input). A depositor registers the order with
    the SHA-256 hash of the secret, as [generateSecret] produces it and as
    the Bitcoin script checks it; the registry compares the Keccak-256
    hash instead, so the genuine secret is turned away as "Invalid secret"
    although its SHA-256 hash is the recorded [secretHash]. *)
Theorem C1_sha256_preimage_rejected :
  let secret := 0 in
  let h := bytes32_of_bytes (SHA256.sha256 (bytes32_to_bytes secret)) in
  let s := step (constructor (mkEnv 13 1))
                (mkEnv 7 10, CallInitiateSwap 1 9 5 77 h 100) in
  user (order_at s 1) = 7 /\ status (order_at s 1) = Pending /\
  lockTime (order_at s 1) = 100 /\
  bytes32_of_bytes (SHA256.sha256 (bytes32_to_bytes secret)) = secretHash (order_at s 1) /\
  completeSwap s (mkEnv 7 20) 1 secret [x01] [1] = Revert "Invalid secret".
Proof. vm_compute. repeat split. Qed.

(** *** C3: the anti-replay set *)

(** C3 (as amended). After [completeSwap] has succeeded with a secret,
    and whatever transactions follow, a [completeSwap] with the same
    secret on a registered pending order carrying the same secret hash
    never succeeds: it is rejected as "Secret already used" while that
    order's lock time has not passed, and as "Swap expired" once it has. *)
Theorem C3_secret_replay_rejected s e1 id1 secret p1 m1 s1 evs :
  completeSwap s e1 id1 secret p1 m1 = Ok (s1, evs) ->
  forall txs e2 id2 p2 m2,
    user (order_at (run s1 txs) id2) <> 0 ->
    status (order_at (run s1 txs) id2) = Pending ->
    secretHash (order_at (run s1 txs) id2) = secretHash (order_at s id1) ->
    completeSwap (run s1 txs) e2 id2 secret p2 m2 =
    if block_timestamp e2 <=? lockTime (order_at (run s1 txs) id2)
    then Revert "Secret already used"
    else Revert "Swap expired".
Proof.
  intros Hok txs e2 id2 p2 m2 Hreg Hpend Hhash.
  unfold completeSwap in Hok. inv_requires Hok.
  unfold _executeFusionSwap in Hok. inv_requires Hok. inversion Hok; subst; clear Hok.
  match goal with
  | |- completeSwap (run ?s1 txs) _ _ _ _ _ = _ =>
      assert (Hused : flag (usedSecrets (run s1 txs)) secret = true)
  end.
  { apply run_usedSecrets. unfold flag; simpl. rewrite lookup_insert_eq. reflexivity. }
  unfold completeSwap.
  rewrite bind_require_true by (apply negb_true_iff; lia).
  rewrite bind_require_true by (rewrite Hpend; reflexivity).
  destruct (block_timestamp e2 <=? lockTime _) eqn:Ht.
  - rewrite bind_require_true by reflexivity.
    rewrite bind_require_true by (rewrite Hhash; exact Hreq2).
    rewrite bind_require_false by (rewrite Hused; reflexivity). reflexivity.
  - rewrite bind_require_false by reflexivity. reflexivity.
Qed.

(** C3, a run of the theorem: two orders share the hash of the secret 0;
    the first is completed at time 20, the second is then refused. *)
Lemma C3_secret_replay_rejected_witness :
  let h := keccak256_packed 0 in
  let s := run (constructor (mkEnv 13 1))
               [(mkEnv 7 10, CallInitiateSwap 1 9 5 77 h 100);
                (mkEnv 8 11, CallInitiateSwap 2 9 6 78 h 100)] in
  let s1 := step s (mkEnv 7 20, CallCompleteSwap 1 0 [x01] [1]) in
  completeSwap s (mkEnv 7 20) 1 0 [x01] [1] =
    Ok (s1, [SwapCompleted 1 7 0 77]) /\
  completeSwap (run s1 []) (mkEnv 8 30) 2 0 [x02] [2] = Revert "Secret already used".
Proof.
  cbv zeta.
  set (h := keccak256_packed 0).
  set (s := run _ _).
  set (s1 := step s _).
  assert (Hok : completeSwap s (mkEnv 7 20) 1 0 [x01] [1] =
                Ok (s1, [SwapCompleted 1 7 0 77])) by (vm_compute; reflexivity).
  split; [exact Hok |].
  rewrite (C3_secret_replay_rejected s (mkEnv 7 20) 1 0 [x01] [1] s1 _ Hok
             [] (mkEnv 8 30) 2 [x02] [2]);
    vm_compute; congruence.
Defined.

(** C3, as first stated, fails: the second order is registered and
    pending, shares the hash, but its lock time (50) has passed when the
    replay is tried at time 60, and the rejection is "Swap expired". *)
Lemma C3_replay_on_expired_order :
  let h := keccak256_packed 0 in
  let s := run (constructor (mkEnv 13 1))
               [(mkEnv 7 10, CallInitiateSwap 1 9 5 77 h 100);
                (mkEnv 8 11, CallInitiateSwap 2 9 6 78 h 50);
                (mkEnv 7 60, CallCompleteSwap 1 0 [x01] [1])] in
  status (order_at s 1) = Completed /\
  user (order_at s 2) = 8 /\ status (order_at s 2) = Pending /\
  secretHash (order_at s 2) = secretHash (order_at s 1) /\
  completeSwap s (mkEnv 8 60) 2 0 [x02] [2] = Revert "Swap expired" /\
  completeSwap s (mkEnv 8 60) 2 0 [x02] [2] <> Revert "Secret already used".
Proof. vm_compute. repeat split; congruence. Qed.

(** *** C4: terminal statuses are absorbing *)

Lemma completeSwap_not_pending s e id secret proof mp :
  user (order_at s id) <> 0 -> terminal (status (order_at s id)) = true ->
  completeSwap s e id secret proof mp = Revert "Swap not pending".
Proof.
  intros Hreg Hterm. unfold completeSwap.
  rewrite bind_require_true by (apply negb_true_iff; lia).
  rewrite bind_require_false by (apply negb_true_iff, Hterm). reflexivity.
Qed.

Lemma refundSwap_not_pending s e id reason :
  user (order_at s id) <> 0 -> terminal (status (order_at s id)) = true ->
  refundSwap s e id reason = Revert "Swap not pending".
Proof.
  intros Hreg Hterm. unfold refundSwap.
  rewrite bind_require_true by (apply negb_true_iff; lia).
  rewrite bind_require_false by (apply negb_true_iff, Hterm). reflexivity.
Qed.

Lemma terminal_registered s id :
  reachable s -> terminal (status (order_at s id)) = true ->
  user (order_at s id) <> 0.
Proof.
  intros Hs Hterm. apply (reachable_inv s id Hs).
  intros Hp. rewrite Hp in Hterm. discriminate.
Qed.

(** C4. In a deployed registry, an order whose status is [Completed],
    [Refunded] or [Expired] rejects every [completeSwap] and every
    [refundSwap] as "Swap not pending", the rejected call changes
    nothing, and no sequence of transactions of any kind changes the
    order again: its status is the same in every later state. *)
Theorem C4_terminal_absorbing s id :
  reachable s -> terminal (status (order_at s id)) = true ->
  (forall e secret proof mp,
      completeSwap s e id secret proof mp = Revert "Swap not pending" /\
      step s (e, CallCompleteSwap id secret proof mp) = s) /\
  (forall e reason,
      refundSwap s e id reason = Revert "Swap not pending" /\
      step s (e, CallRefundSwap id reason) = s) /\
  (forall txs,
      order_at (run s txs) id = order_at s id /\
      status (order_at (run s txs) id) = status (order_at s id)).
Proof.
  intros Hs Hterm. pose proof (terminal_registered s id Hs Hterm) as Hreg.
  repeat split.
  - apply completeSwap_not_pending; assumption.
  - unfold step; simpl. rewrite completeSwap_not_pending by assumption. reflexivity.
  - apply refundSwap_not_pending; assumption.
  - unfold step; simpl. rewrite refundSwap_not_pending by assumption. reflexivity.
  - apply run_closed; assumption.
  - rewrite run_closed by assumption. reflexivity.
Qed.

(** C4, a run of the theorem: order 1 is registered at time 10 with lock
    time 100 and refunded at time 101. *)
Lemma C4_terminal_absorbing_witness :
  let s := run (constructor (mkEnv 13 1))
               [(mkEnv 7 10, CallInitiateSwap 1 9 5 77 42 100);
                (mkEnv 8 101, CallRefundSwap 1 "Swap timeout")] in
  status (order_at s 1) = Refunded /\
  (forall e secret proof mp,
      completeSwap s e 1 secret proof mp = Revert "Swap not pending" /\
      step s (e, CallCompleteSwap 1 secret proof mp) = s) /\
  (forall e reason,
      refundSwap s e 1 reason = Revert "Swap not pending" /\
      step s (e, CallRefundSwap 1 reason) = s) /\
  (forall txs,
      order_at (run s txs) 1 = order_at s 1 /\
      status (order_at (run s txs) 1) = status (order_at s 1)).
Proof.
  cbv zeta. split; [vm_compute; reflexivity |].
  apply (C4_terminal_absorbing _ 1).
  - eexists _, _. reflexivity.
  - vm_compute. reflexivity.
Defined.

(** *** C5: the refund gate *)

(** C5. On a registered pending order, [refundSwap] fails while the
    current time is past neither the lock time nor creation time plus
    [SWAP_TIMEOUT] (24 hours), and changes nothing; once the time is past
    either of them the call succeeds, leaves the order [Refunded] with
    its other fields as they were, and from then on every further
    [refundSwap] on it is rejected as "Swap not pending". *)
Theorem C5_refund_gate s e id reason :
  user (order_at s id) <> 0 -> status (order_at s id) = Pending ->
  block_timestamp e <= MAX_UINT256 ->
  (block_timestamp e <= lockTime (order_at s id) ->
   block_timestamp e <= createdAt (order_at s id) + SWAP_TIMEOUT ->
   refundSwap s e id reason =
     (if createdAt (order_at s id) + SWAP_TIMEOUT <=? MAX_UINT256
      then Revert "Swap not expired" else Panic 17) /\
   step s (e, CallRefundSwap id reason) = s) /\
  (block_timestamp e > lockTime (order_at s id) \/
   block_timestamp e > createdAt (order_at s id) + SWAP_TIMEOUT ->
   exists s',
     refundSwap s e id reason =
       Ok (s', [SwapRefunded id (user (order_at s id)) reason]) /\
     order_at s' id = set_status (order_at s id) Refunded /\
     forall txs e2 reason2,
       refundSwap (run s' txs) e2 id reason2 = Revert "Swap not pending").
Proof.
  intros Hreg Hpend Hmax. split.
  - intros Hlock Hceil.
    assert (Hr : refundSwap s e id reason =
                 if createdAt (order_at s id) + SWAP_TIMEOUT <=? MAX_UINT256
                 then Revert "Swap not expired" else Panic 17).
    { unfold refundSwap.
      rewrite bind_require_true by (apply negb_true_iff; lia).
      rewrite bind_require_true by (rewrite Hpend; reflexivity).
      unfold expired, checked_add.
      replace (block_timestamp e >? lockTime (order_at s id)) with false by lia.
      destruct (createdAt (order_at s id) + SWAP_TIMEOUT <=? MAX_UINT256); simpl.
      - replace (block_timestamp e >? createdAt (order_at s id) + SWAP_TIMEOUT)
          with false by lia. reflexivity.
      - reflexivity. }
    split; [exact Hr |].
    unfold step; simpl. rewrite Hr.
    destruct (createdAt (order_at s id) + SWAP_TIMEOUT <=? MAX_UINT256); reflexivity.
  - intros Hpast.
    exists (set_order s id (set_status (order_at s id) Refunded)).
    assert (Hexp : expired e (order_at s id) = Ok true).
    { unfold expired, checked_add.
      destruct (block_timestamp e >? lockTime (order_at s id)) eqn:Hl; [reflexivity |].
      replace (createdAt (order_at s id) + SWAP_TIMEOUT <=? MAX_UINT256)
        with true by lia. simpl.
      replace (block_timestamp e >? createdAt (order_at s id) + SWAP_TIMEOUT)
        with true by lia. reflexivity. }
    split; [| split].
    + unfold refundSwap.
      rewrite bind_require_true by (apply negb_true_iff; lia).
      rewrite bind_require_true by (rewrite Hpend; reflexivity).
      rewrite Hexp. reflexivity.
    + rewrite order_at_set_order. destruct (decide (id = id)); congruence.
    + intros txs e2 reason2.
      assert (Ho : order_at (set_order s id (set_status (order_at s id) Refunded)) id
                   = set_status (order_at s id) Refunded)
        by (rewrite order_at_set_order; destruct (decide (id = id)); congruence).
      apply refundSwap_not_pending; rewrite run_closed; rewrite Ho; simpl; auto.
Qed.

(** C5, a run of the theorem: at time 50 the order of lock time 100 made
    at time 10 cannot be refunded; at time 101 it can, once. *)
Lemma C5_refund_gate_witness :
  let s := run (constructor (mkEnv 13 1))
               [(mkEnv 7 10, CallInitiateSwap 1 9 5 77 42 100)] in
  refundSwap s (mkEnv 8 50) 1 "early" = Revert "Swap not expired" /\
  exists s',
    refundSwap s (mkEnv 8 101) 1 "Swap timeout" =
      Ok (s', [SwapRefunded 1 7 "Swap timeout"]) /\
    status (order_at s' 1) = Refunded /\
    forall txs e2 reason2,
      refundSwap (run s' txs) e2 1 reason2 = Revert "Swap not pending".
Proof.
  cbv zeta. set (s := run _ _).
  assert (Hreg : user (order_at s 1) <> 0) by (vm_compute; congruence).
  assert (Hpend : status (order_at s 1) = Pending) by (vm_compute; reflexivity).
  split.
  - destruct (C5_refund_gate s (mkEnv 8 50) 1 "early" Hreg Hpend) as [Hearly _];
      [vm_compute; congruence |].
    destruct Hearly as [Hr _]; [vm_compute; congruence | vm_compute; congruence |].
    rewrite Hr. vm_compute. reflexivity.
  - destruct (C5_refund_gate s (mkEnv 8 101) 1 "Swap timeout" Hreg Hpend) as [_ Hlate];
      [vm_compute; congruence |].
    destruct Hlate as (s' & Hok & Ho & Hnext); [left; vm_compute; reflexivity |].
    exists s'. split; [exact Hok |]. split; [rewrite Ho; reflexivity | exact Hnext].
Defined.

(** *** C6: a swap id is registered once *)

(** C6. Once [initiateSwap] has succeeded for a swap id (the caller of a
    transaction is never the zero address), every later [initiateSwap]
    with that id is rejected as "Swap already exists" whatever its other
    arguments, the rejected call leaves the whole storage as it was, and
    the order still carries the first registration's user, token, amount,
    Bitcoin transaction hash, secret hash, lock time and creation time. *)
Theorem C6_duplicate_swap_rejected s e id tok amt h sh l s1 evs :
  msg_sender e <> 0 ->
  initiateSwap s e id tok amt h sh l = Ok (s1, evs) ->
  forall txs e' tok' amt' h' sh' l',
    initiateSwap (run s1 txs) e' id tok' amt' h' sh' l' = Revert "Swap already exists" /\
    step (run s1 txs) (e', CallInitiateSwap id tok' amt' h' sh' l') = run s1 txs /\
    same_terms (mkSwapOrder (msg_sender e) tok amt h sh l (block_timestamp e) Pending)
               (order_at (run s1 txs) id).
Proof.
  intros Hsender Hok txs e' tok' amt' h' sh' l'.
  unfold initiateSwap in Hok. inv_requires Hok. inversion Hok; subst; clear Hok.
  match goal with |- context [run ?x txs] => set (s1 := x) end.
  assert (Ho : order_at s1 id =
               mkSwapOrder (msg_sender e) tok amt h sh l (block_timestamp e) Pending)
    by (unfold s1; rewrite order_at_set_order; destruct (decide (id = id)); congruence).
  assert (Hreg : user (order_at s1 id) <> 0) by (rewrite Ho; exact Hsender).
  pose proof (run_terms s1 txs id Hreg) as Hterms. rewrite Ho in Hterms.
  assert (Hrev : initiateSwap (run s1 txs) e' id tok' amt' h' sh' l' =
                 Revert "Swap already exists").
  { unfold initiateSwap. rewrite bind_require_false; [reflexivity |].
    destruct Hterms as [Hu _]. simpl in Hu. lia. }
  split; [exact Hrev |]. split; [| exact Hterms].
  unfold step; simpl. rewrite Hrev. reflexivity.
Qed.

(** C6, a run of the theorem: the second registration differs in every
    argument but the id. *)
Lemma C6_duplicate_swap_rejected_witness :
  let s := constructor (mkEnv 13 1) in
  exists s1,
    initiateSwap s (mkEnv 7 10) 1 9 5 77 42 100 =
      Ok (s1, [SwapInitiated 1 7 9 5 77 100]) /\
    initiateSwap (run s1 []) (mkEnv 8 20) 1 10 6 78 43 200 =
      Revert "Swap already exists" /\
    amountOut (order_at (run s1 []) 1) = 5.
Proof.
  cbv zeta. eexists. split; [vm_compute; reflexivity |].
  match goal with
  | |- initiateSwap (run ?s1 []) _ _ _ _ _ _ _ = _ /\ _ =>
      destruct (C6_duplicate_swap_rejected (constructor (mkEnv 13 1)) (mkEnv 7 10)
                  1 9 5 77 42 100 s1 [SwapInitiated 1 7 9 5 77 100]
                  ltac:(vm_compute; congruence) ltac:(vm_compute; reflexivity)
                  [] (mkEnv 8 20) 10 6 78 43 200) as (Hrev & _ & Hterms)
  end.
  split; [exact Hrev |].
  destruct Hterms as (_ & _ & Hamt & _). exact Hamt.
Defined.

(** *** C10: [isSwapExpired] on an unknown swap id *)

(** A swap id was never registered when no [initiateSwap] on it has
    returned; a call that reverted has written nothing. The slot of such
    an id was never written. *)
Lemma never_registered_unwritten s txs id :
  swapOrders s !! id = None ->
  (forall before tx after,
     txs = before ++ tx :: after -> registers id tx = true ->
     forall s' evs, execute (run s before) (fst tx) (snd tx) <> Ok (s', evs)) ->
  swapOrders (run s txs) !! id = None.
Proof.
  revert s; induction txs as [|tx txs IH]; intros s Hnone Hrev; simpl; [exact Hnone|].
  apply IH.
  - destruct (registers id tx) eqn:Hreg.
    + unfold step. specialize (Hrev [] tx txs eq_refl Hreg). simpl in Hrev.
      destruct (execute s (fst tx) (snd tx)) as [[s' evs]| |]; auto.
      exfalso. exact (Hrev s' evs eq_refl).
    + apply step_unwritten; assumption.
  - intros before tx' after -> Hreg. apply (Hrev (tx :: before) tx' after eq_refl Hreg).
Qed.

(** C10. For a swap id that was never registered, so that its slot of
    [swapOrders] was never written, [isSwapExpired] returns [true] at
    every positive timestamp, in every state: the slot reads as the zero
    order, whose lock time is 0. *)
Theorem C10_unregistered_swap_is_expired s id e :
  swapOrders s !! id = None ->
  0 < block_timestamp e ->
  isSwapExpired s e id = Ok true.
Proof.
  intros Hnone Hpos.
  unfold isSwapExpired, expired, order_at. rewrite Hnone. simpl.
  replace (block_timestamp e >? 0) with true by lia. reflexivity.
Qed.

(** C10, a run of the theorem: swap 1 is registered and refunded; swap 2
    was named by one [initiateSwap], which reverted, and so was never
    registered. *)
Lemma C10_unregistered_swap_is_expired_witness :
  let s := run (constructor (mkEnv 13 1))
               [(mkEnv 7 10, CallInitiateSwap 1 9 5 77 42 100);
                (mkEnv 7 11, CallInitiateSwap 2 0 5 78 43 100);
                (mkEnv 8 101, CallRefundSwap 1 "Swap timeout")] in
  initiateSwap (step (constructor (mkEnv 13 1)) (mkEnv 7 10, CallInitiateSwap 1 9 5 77 42 100))
               (mkEnv 7 11) 2 0 5 78 43 100 = Revert "Invalid token address" /\
  isSwapExpired s (mkEnv 8 102) 2 = Ok true.
Proof.
  cbv zeta. split; [vm_compute; reflexivity |].
  apply C10_unregistered_swap_is_expired; vm_compute; reflexivity.
Defined.

End RegistryProofs.

(** ** Bytes and fixed-width integers *)

Module BytesProofs.

Lemma byte_to_Z_range b : 0 <= byte_to_Z b < 256.
Proof.
  unfold byte_to_Z. pose proof (Byte.to_N_bounded b). lia.
Qed.

Lemma byte_to_Z_to_byte z : 0 <= z < 256 -> byte_to_Z (Z_to_byte z) = z.
Proof.
  intros Hz. unfold byte_to_Z, Z_to_byte.
  rewrite Z.mod_small by lia.
  destruct (Byte.of_N (Z.to_N z)) as [b|] eqn:Hb.
  - apply Byte.to_of_N in Hb. rewrite Hb. lia.
  - apply Byte.of_N_None_iff in Hb. lia.
Qed.

Lemma map_byte_to_Z_to_byte l :
  Forall (fun z => 0 <= z < 256) l -> map byte_to_Z (map Z_to_byte l) = l.
Proof.
  induction 1 as [|z l Hz _ IH]; simpl; [reflexivity |].
  rewrite byte_to_Z_to_byte by exact Hz. rewrite IH. reflexivity.
Qed.

Lemma land_255_range z : 0 <= Z.land z 255 < 256.
Proof.
  change 255 with (Z.ones 8). rewrite Z.land_ones by lia.
  apply Z.mod_pos_bound. lia.
Qed.

Lemma le_bytes_range n z : Forall (fun b => 0 <= b < 256) (le_bytes n z).
Proof.
  revert z; induction n as [|n IH]; intros z; simpl; constructor;
    [apply land_255_range | apply IH].
Qed.

Lemma le_bytes_length n z : length (le_bytes n z) = n.
Proof. revert z; induction n as [|n IH]; intros z; simpl; [|rewrite IH]; reflexivity. Qed.

Lemma le_value_le_bytes n z :
  le_value (le_bytes n z) = z mod 2 ^ (8 * Z.of_nat n).
Proof.
  revert z; induction n as [|n IH]; intros z.
  - simpl. rewrite Z.mod_1_r. reflexivity.
  - cbn [le_bytes le_value]. rewrite IH.
    change 255 with (Z.ones 8). rewrite Z.land_ones by lia.
    rewrite Z.shiftr_div_pow2, Z.shiftl_mul_pow2 by lia.
    replace (8 * Z.of_nat (S n)) with (8 + 8 * Z.of_nat n) by lia.
    rewrite Z.pow_add_r by lia.
    rewrite Z.rem_mul_r by lia. lia.
Qed.

(** Writing an unsigned integer on [n] bytes and reading it back. *)
Lemma le_roundtrip n z :
  0 <= z < 2 ^ (8 * Z.of_nat n) ->
  le_value (map byte_to_Z (map Z_to_byte (le_bytes n z))) = z.
Proof.
  intros Hz. rewrite map_byte_to_Z_to_byte by apply le_bytes_range.
  rewrite le_value_le_bytes. apply Z.mod_small. exact Hz.
Qed.

Lemma Z_to_byte_to_Z b : Z_to_byte (byte_to_Z b) = b.
Proof.
  pose proof (byte_to_Z_range b) as Hr. unfold Z_to_byte.
  rewrite Z.mod_small by exact Hr. unfold byte_to_Z.
  rewrite N2Z.id, Byte.of_to_N. reflexivity.
Qed.

Lemma map_Z_to_byte_to_Z (b : bytes) : map Z_to_byte (map byte_to_Z b) = b.
Proof.
  induction b as [|x b IH]; simpl; [reflexivity|].
  rewrite Z_to_byte_to_Z, IH. reflexivity.
Qed.

Lemma hex_value_digit n : 0 <= n < 16 -> hex_value (hex_digit n) = Some n.
Proof.
  intros Hn. rewrite <- (Z2Nat.id n) by lia.
  assert (Hm : (Z.to_nat n < 16)%nat) by lia.
  revert Hm. generalize (Z.to_nat n) as m. intros m Hm.
  do 16 (destruct m as [|m]; [reflexivity|]). lia.
Qed.

(** [Buffer.from(b.toString('hex'), 'hex')] is [b]. *)
Lemma from_hex_to_hex (b : bytes) : from_hex (to_hex b) = b.
Proof.
  induction b as [|x b IH]; [reflexivity|].
  pose proof (byte_to_Z_range x) as Hr.
  cbn [to_hex from_hex].
  rewrite !hex_value_digit
    by (split; [apply Z.div_pos || apply Z.mod_pos_bound; lia
               | apply Z.div_lt_upper_bound || apply Z.mod_pos_bound; lia]).
  rewrite IH. f_equal.
  rewrite <- (Z_to_byte_to_Z x) at 3. f_equal.
  pose proof (Z.div_mod (byte_to_Z x) 16). lia.
Qed.

End BytesProofs.

(** ** Scripts: decompiling what was compiled *)

Module ScriptProofs.
Import Script BytesProofs.
Local Open Scope js_scope.

Lemma asMinimalOP_Some d op :
  asMinimalOP d = Some op -> (op = 0 \/ OP_PUSHDATA4 < op) /\ 0 <= op < 256.
Proof.
  unfold asMinimalOP. destruct d as [|x [|y d]]; try discriminate.
  - intros [= <-]. unfold OP_0, OP_PUSHDATA4. lia.
  - pose proof (byte_to_Z_range x) as Hx.
    destruct ((1 <=? byte_to_Z x) && (byte_to_Z x <=? 16)) eqn:H1.
    + intros [= <-]. unfold OP_RESERVED, OP_PUSHDATA4. lia.
    + destruct (byte_to_Z x =? 129); [|discriminate].
      intros [= <-]. unfold OP_1NEGATE, OP_PUSHDATA4. lia.
Qed.

Lemma asMinimalOP_None_length d : asMinimalOP d = None -> (1 <= length d)%nat.
Proof. destruct d; simpl; [discriminate | lia]. Qed.

Lemma decompile_from_cons turns x rest :
  decompile_from (S turns) (x :: rest) =
  if (OP_0 <? byte_to_Z x) && (byte_to_Z x <=? OP_PUSHDATA4) then
    match pushdata_decode (x :: rest) with
    | None => None
    | Some (number, size) =>
        let after := skipn size (x :: rest) in
        if Z.of_nat (length after) <? number then None
        else
          let data := firstn (Z.to_nat number) after in
          let c := match asMinimalOP data with
                   | Some op => Op op
                   | None => Data data
                   end in
          option_map (cons c) (decompile_from turns (skipn (Z.to_nat number) after))
    end
  else option_map (cons (Op (byte_to_Z x))) (decompile_from turns rest).
Proof. reflexivity. Qed.

(** The length prefix written by [pushdata.encode] is read back by
    [pushdata.decode], and starts with a push opcode. *)
Lemma pushdata_roundtrip n prefix rest :
  1 <= n -> pushdata_encode n = Return prefix ->
  exists x tl,
    prefix = x :: tl /\
    (OP_0 <? byte_to_Z x) && (byte_to_Z x <=? OP_PUSHDATA4) = true /\
    pushdata_decode (prefix ++ rest) = Some (n, length prefix).
Proof.
  intros Hn. unfold pushdata_encode, OP_PUSHDATA1, OP_PUSHDATA2, OP_PUSHDATA4, OP_0.
  destruct (n <? 76) eqn:H1; [|destruct (n <=? 255) eqn:H2;
    [|destruct (n <=? 65535) eqn:H3; [|destruct (n <=? 4294967295) eqn:H4]]];
    intros [= <-]; try discriminate.
  - exists (Z_to_byte n), []. split; [reflexivity|].
    rewrite byte_to_Z_to_byte by lia. split; [lia|].
    unfold pushdata_decode, OP_PUSHDATA1; cbn [app]; cbv zeta.
    rewrite byte_to_Z_to_byte by lia. rewrite H1. reflexivity.
  - exists (Z_to_byte 76), [Z_to_byte n]. split; [reflexivity|].
    rewrite byte_to_Z_to_byte by lia. split; [reflexivity|].
    unfold pushdata_decode, OP_PUSHDATA1; cbn [app]; cbv zeta.
    rewrite !byte_to_Z_to_byte by lia. reflexivity.
  - exists (Z_to_byte 77), (map Z_to_byte (le_bytes 2 n)). split; [reflexivity|].
    rewrite byte_to_Z_to_byte by lia. split; [reflexivity|].
    unfold pushdata_decode, OP_PUSHDATA1, OP_PUSHDATA2.
    cbn [le_bytes map app]; cbv zeta.
    rewrite (byte_to_Z_to_byte 77) by lia.
    change (77 <? 76) with false. change (77 =? 76) with false.
    change (77 =? 77) with true. cbv iota.
    pose proof (le_roundtrip 2 n) as Hr. cbn [le_bytes map] in Hr.
    rewrite Hr by (change (2 ^ (8 * Z.of_nat 2)) with 65536; lia). reflexivity.
  - exists (Z_to_byte 78), (map Z_to_byte (le_bytes 4 n)). split; [reflexivity|].
    rewrite byte_to_Z_to_byte by lia. split; [reflexivity|].
    unfold pushdata_decode, OP_PUSHDATA1, OP_PUSHDATA2.
    cbn [le_bytes map app]; cbv zeta.
    rewrite (byte_to_Z_to_byte 78) by lia.
    change (78 <? 76) with false. change (78 =? 76) with false.
    change (78 =? 77) with false. cbv iota.
    pose proof (le_roundtrip 4 n) as Hr. cbn [le_bytes map] in Hr.
    rewrite Hr by (change (2 ^ (8 * Z.of_nat 4)) with 4294967296; lia). reflexivity.
Qed.

(** One compiled chunk, read back. *)
Lemma decompile_from_chunk turns c head rest :
  plain c -> compile_chunk c = Return head ->
  exists x tl,
    head = x :: tl /\
    decompile_from (S turns) (head ++ rest) =
    option_map (cons (normalize c)) (decompile_from turns rest).
Proof.
  intros Hplain Hc. destruct c as [code | d]; simpl in Hc, Hplain.
  - destruct ((0 <=? code) && (code <=? 255)) eqn:Hrange; [|discriminate].
    injection Hc as <-. exists (Z_to_byte code), []. split; [reflexivity|].
    cbn [app]. rewrite decompile_from_cons.
    rewrite byte_to_Z_to_byte by lia.
    replace ((OP_0 <? code) && (code <=? OP_PUSHDATA4)) with false
      by (unfold OP_0, OP_PUSHDATA4 in *; lia).
    reflexivity.
  - destruct (asMinimalOP d) as [op|] eqn:Hmin.
    + injection Hc as <-. pose proof (asMinimalOP_Some _ _ Hmin) as [Hop Hr].
      exists (Z_to_byte op), []. split; [reflexivity|].
      cbn [app normalize]. rewrite Hmin. rewrite decompile_from_cons.
      rewrite byte_to_Z_to_byte by lia.
      replace ((OP_0 <? op) && (op <=? OP_PUSHDATA4)) with false
        by (unfold OP_0, OP_PUSHDATA4 in *; lia).
      reflexivity.
    + destruct (pushdata_encode (Z.of_nat (length d))) as [prefix|] eqn:Hp;
        [|discriminate].
      simpl in Hc. injection Hc as <-.
      pose proof (asMinimalOP_None_length d Hmin) as Hlen.
      destruct (pushdata_roundtrip (Z.of_nat (length d)) prefix (d ++ rest) ltac:(lia) Hp)
        as (x & tl & -> & Hop & Hdec).
      exists x, (tl ++ d). split; [reflexivity|].
      rewrite <- app_assoc. rewrite <- app_comm_cons in *.
      rewrite decompile_from_cons. rewrite Hop, Hdec. cbv zeta.
      rewrite app_comm_cons.
      rewrite drop_app_length.
      rewrite length_app.
      destruct (Z.ltb_spec (Z.of_nat (length d + length rest)) (Z.of_nat (length d)));
        [lia|].
      rewrite Nat2Z.id. rewrite take_app_length, drop_app_length.
      cbn [normalize]. rewrite Hmin. reflexivity.
Qed.

(** [decompile] inverts [compile], up to minimal pushes. *)
Lemma decompile_from_compile chunks buf turns :
  Forall plain chunks -> compile chunks = Return buf ->
  (length buf <= turns)%nat ->
  decompile_from turns buf = Some (map normalize chunks).
Proof.
  intros Hplain. revert buf turns.
  induction Hplain as [|c chunks Hc _ IH]; intros buf turns Hcomp Hturns.
  - injection Hcomp as <-. destruct turns; reflexivity.
  - cbn [compile] in Hcomp.
    destruct (compile_chunk c) as [head|] eqn:Hhead; [|discriminate].
    destruct (compile chunks) as [tail|] eqn:Htail; [|discriminate].
    simpl in Hcomp. injection Hcomp as <-.
    destruct turns as [|turns].
    + destruct (decompile_from_chunk 0 c head tail Hc Hhead) as (x & tl & -> & _).
      simpl in Hturns. lia.
    + destruct (decompile_from_chunk turns c head tail Hc Hhead) as (x & tl & Hx & ->).
      rewrite (IH tail turns eq_refl); [reflexivity|].
      subst head. simpl in Hturns. rewrite length_app in Hturns. lia.
Qed.

Lemma decompile_compile chunks buf :
  Forall plain chunks -> compile chunks = Return buf ->
  decompile buf = Some (map normalize chunks).
Proof.
  intros Hplain Hcomp. unfold decompile.
  apply decompile_from_compile; [exact Hplain | exact Hcomp | lia].
Qed.

End ScriptProofs.

(** ** The wire format: reading what was written *)

Module CodecProofs.
Import Bitcoin TxCodec BytesProofs.

Lemma read_slice_app (b rest : bytes) :
  read_slice (length b) (b ++ rest) = Return (b, rest).
Proof.
  unfold read_slice. rewrite length_app.
  replace (length b <=? length b + length rest)%nat with true
    by (symmetry; apply Nat.leb_le; lia).
  rewrite take_app_length, drop_app_length. reflexivity.
Qed.

Lemma read_uint_app n z rest :
  0 <= z < 2 ^ (8 * Z.of_nat n) ->
  read_uint n (map Z_to_byte (le_bytes n z) ++ rest) = Return (z, rest).
Proof.
  intros Hz. unfold read_uint, pbind.
  pose proof (read_slice_app (map Z_to_byte (le_bytes n z)) rest) as Hs.
  rewrite length_map, le_bytes_length in Hs. rewrite Hs.
  unfold pret. rewrite le_roundtrip by exact Hz. reflexivity.
Qed.

Lemma read_uint53_app z rest :
  0 <= z < 2 ^ 53 ->
  read_uint53 (map Z_to_byte (le_bytes 8 z) ++ rest) = Return (z, rest).
Proof.
  intros Hz. unfold read_uint53, pbind.
  rewrite read_uint_app by (change (8 * Z.of_nat 8) with 64; lia).
  replace (z <=? 9007199254740991) with true by (symmetry; apply Z.leb_le; lia).
  reflexivity.
Qed.

Lemma read_varint_app n rest :
  0 <= n < 2 ^ 53 ->
  read_varint (map Z_to_byte (varint n) ++ rest) = Return (n, rest).
Proof.
  intros Hn. unfold read_varint, varint.
  destruct (n <? 253) eqn:H1; [|destruct (n <=? 65535) eqn:H2;
    [|destruct (n <=? 4294967295) eqn:H3]]; cbn [map app]; unfold pbind at 1.
  - pose proof (read_uint_app 1 n rest) as Hr. cbn [le_bytes map app] in Hr.
    assert (Hb : Z.land n 255 = n).
    { change 255 with (Z.ones 8). rewrite Z.land_ones by lia.
      apply Z.mod_small. lia. }
    rewrite <- Hb at 1. rewrite Hr by (change (2 ^ (8 * Z.of_nat 1)) with 256; lia).
    rewrite H1. reflexivity.
  - pose proof (read_uint_app 1 253 (map Z_to_byte (le_bytes 2 n) ++ rest)) as Hr.
    cbn [le_bytes map app] in Hr. change (Z.land 253 255) with 253 in Hr.
    cbn [le_bytes map app].
    rewrite Hr by (change (2 ^ (8 * Z.of_nat 1)) with 256; lia).
    change (253 <? 253) with false. change (253 =? 253) with true. cbv iota.
    pose proof (read_uint_app 2 n rest) as Hr2. cbn [le_bytes map app] in Hr2.
    apply Hr2. change (2 ^ (8 * Z.of_nat 2)) with 65536. lia.
  - pose proof (read_uint_app 1 254 (map Z_to_byte (le_bytes 4 n) ++ rest)) as Hr.
    cbn [le_bytes map app] in Hr. change (Z.land 254 255) with 254 in Hr.
    cbn [le_bytes map app].
    rewrite Hr by (change (2 ^ (8 * Z.of_nat 1)) with 256; lia).
    change (254 <? 253) with false. change (254 =? 253) with false.
    change (254 =? 254) with true. cbv iota.
    pose proof (read_uint_app 4 n rest) as Hr2. cbn [le_bytes map app] in Hr2.
    apply Hr2. change (2 ^ (8 * Z.of_nat 4)) with 4294967296. lia.
  - pose proof (read_uint_app 1 255 (map Z_to_byte (le_bytes 8 n) ++ rest)) as Hr.
    cbn [le_bytes map app] in Hr. change (Z.land 255 255) with 255 in Hr.
    cbn [le_bytes map app].
    rewrite Hr by (change (2 ^ (8 * Z.of_nat 1)) with 256; lia).
    change (255 <? 253) with false. change (255 =? 253) with false.
    change (255 =? 254) with false. cbv iota.
    pose proof (read_uint53_app n rest) as Hr2. cbn [le_bytes map app] in Hr2.
    apply Hr2. lia.
Qed.

Lemma read_var_slice_app (b rest : bytes) :
  Z.of_nat (length b) < 2 ^ 53 ->
  read_var_slice (var_slice b ++ rest) = Return (b, rest).
Proof.
  intros Hb. unfold read_var_slice, var_slice, pbind.
  rewrite <- app_assoc. rewrite read_varint_app by lia.
  rewrite Nat2Z.id. apply read_slice_app.
Qed.

Lemma read_input_app i rest :
  wf_input i -> read_input (write_input i ++ rest) = Return (i, rest).
Proof.
  intros (Hh & Hi & Hs & Hl & Hw). unfold read_input, write_input.
  rewrite <- !app_assoc. unfold pbind at 1.
  rewrite <- Hh at 1. rewrite read_slice_app.
  unfold pbind at 1. rewrite read_uint_app by exact Hi.
  unfold pbind at 1. rewrite read_var_slice_app by exact Hl.
  unfold pbind at 1. rewrite read_uint_app by exact Hs.
  destruct i; simpl in *; subst; reflexivity.
Qed.

Lemma read_output_app o rest :
  wf_output o -> read_output (write_output o ++ rest) = Return (o, rest).
Proof.
  intros (Hv & Hl). unfold read_output, write_output.
  rewrite <- !app_assoc. unfold pbind at 1.
  rewrite read_uint53_app by exact Hv.
  unfold pbind at 1. rewrite read_var_slice_app by exact Hl.
  destruct o; reflexivity.
Qed.

Lemma read_many_app {A} (p : parser A) (w : A -> bytes) (P : A -> Prop) xs rest :
  (forall x r, P x -> p (w x ++ r) = Return (x, r)) ->
  Forall P xs ->
  read_many p (length xs) (concat (map w xs) ++ rest) = Return (xs, rest).
Proof.
  intros Hp Hxs. induction Hxs as [|x xs Hx _ IH]; [reflexivity|].
  cbn [length map concat read_many]. rewrite <- app_assoc.
  unfold pbind at 1. rewrite Hp by exact Hx.
  unfold pbind at 1. rewrite IH. reflexivity.
Qed.

Lemma wf_no_witnesses ins : Forall wf_input ins -> hasWitnesses ins = false.
Proof.
  induction 1 as [|i ins (_ & _ & _ & _ & Hw) _ IH]; [reflexivity|].
  simpl. rewrite Hw, IH. reflexivity.
Qed.

(** The count of the inputs of a transaction that has one does not start
    with the marker, and two bytes at least follow the version. *)
Lemma count_is_no_marker i ins rest :
  wf_input i -> Z.of_nat (length (i :: ins)) < 2 ^ 53 ->
  exists marker flag tail,
    map Z_to_byte (varint (Z.of_nat (length (i :: ins))))
      ++ concat (map write_input (i :: ins)) ++ rest = marker :: flag :: tail /\
    byte_to_Z marker <> 0.
Proof.
  intros (Hh & _) Hn.
  assert (Hhash : exists h0 hs, in_hash i = h0 :: hs).
  { destruct (in_hash i) as [|h0 hs]; [discriminate | eauto]. }
  destruct Hhash as (h0 & hs & Hhash).
  set (n := Z.of_nat (length (i :: ins))) in *.
  assert (Hpos : 1 <= n) by (subst n; simpl length; lia).
  cbn [map concat]. unfold write_input at 1. rewrite Hhash.
  unfold varint.
  destruct (n <? 253) eqn:H1; [|destruct (n <=? 65535) eqn:H2;
    [|destruct (n <=? 4294967295) eqn:H3]]; cbn [map app le_bytes].
  - eexists _, _, _. split; [reflexivity |].
    rewrite byte_to_Z_to_byte by lia. lia.
  - eexists _, _, _. split; [reflexivity |].
    rewrite byte_to_Z_to_byte by lia. lia.
  - eexists _, _, _. split; [reflexivity |].
    rewrite byte_to_Z_to_byte by lia. lia.
  - eexists _, _, _. split; [reflexivity |].
    rewrite byte_to_Z_to_byte by lia. lia.
Qed.

(** A well-formed transaction is read back from its bytes, and from its
    hex form. *)
Lemma fromBuffer_toBuffer tx : wf_transaction tx -> fromBuffer (toBuffer tx) = Return tx.
Proof.
  intros (Hv & Hl & Hsome & Hni & Hno & Hins & Houts).
  unfold fromBuffer, read_transaction, toBuffer.
  rewrite (wf_no_witnesses _ Hins). cbn [app].
  unfold pbind at 1. unfold read_int32, pbind at 1.
  rewrite read_uint_app by (change (8 * Z.of_nat 4) with 32; lia).
  unfold pret at 1.
  replace (tx_version tx <? 2147483648) with true by (symmetry; apply Z.ltb_lt; lia).
  destruct (tx_ins tx) as [|i ins] eqn:Hlist; [congruence |].
  inversion Hins as [|? ? Hi Hins']; subst.
  destruct (count_is_no_marker i ins
              (map Z_to_byte (varint (Z.of_nat (length (tx_outs tx))))
               ++ concat (map write_output (tx_outs tx))
               ++ map Z_to_byte (le_bytes 4 (tx_locktime tx))) Hi Hni)
    as (marker & flag & tail & Hbuf & Hmarker).
  rewrite Hbuf.
  replace (byte_to_Z marker =? 0) with false by (symmetry; apply Z.eqb_neq; exact Hmarker).
  cbn [andb]. rewrite <- Hbuf. clear Hbuf Hmarker marker flag tail.
  unfold read_body.
  unfold pbind at 1. rewrite read_varint_app by lia.
  unfold pbind at 1. rewrite Nat2Z.id.
  rewrite (read_many_app read_input write_input wf_input)
    by (auto using read_input_app).
  unfold pbind at 1. rewrite read_varint_app by lia.
  unfold pbind at 1. rewrite Nat2Z.id.
  rewrite (read_many_app read_output write_output wf_output)
    by (auto using read_output_app).
  unfold pbind at 1. unfold pret at 1.
  unfold pbind at 1.
  rewrite <- (app_nil_r (map Z_to_byte (le_bytes 4 (tx_locktime tx)))).
  rewrite read_uint_app by exact Hl.
  unfold pret. destruct tx; simpl in *. subst. reflexivity.
Qed.

Lemma fromHex_toHex tx : wf_transaction tx -> fromHex (toHex tx) = Return tx.
Proof.
  intros Hwf. unfold fromHex, toHex. rewrite from_hex_to_hex.
  apply fromBuffer_toBuffer, Hwf.
Qed.

End CodecProofs.

(** ** The claim path of [BitcoinHTLC] *)

Module HTLCProofs.
Import Script Bitcoin BitcoinHTLC ScriptProofs.
Local Open Scope js_scope.

Lemma js_bind_Return {A B} (r : js A) (k : A -> js B) b :
  js_bind r k = Return b -> exists a, r = Return a /\ k a = Return b.
Proof. destruct r as [a|m]; simpl; [eauto | discriminate]. Qed.

Ltac inv_bind H :=
  let a := fresh "x" in
  let Ha := fresh "Hx" in
  apply js_bind_Return in H as (a & Ha & H).

Section WithLib.
Variable L : Lib.

Lemma addInput_loop h utxos p p' :
  js_fold (fun psbt utxo => Psbt_addInput L psbt (claim_input h utxo)) utxos p = Return p' ->
  psbt_inputs p' = psbt_inputs p ++ map (claim_input h) utxos /\
  psbt_outputs p' = psbt_outputs p /\ psbt_locktime p' = psbt_locktime p.
Proof.
  revert p; induction utxos as [|u utxos IH]; intros p H; simpl in H.
  - injection H as <-. rewrite app_nil_r. auto.
  - inv_bind H. unfold Psbt_addInput in Hx. inv_bind Hx. injection Hx as <-.
    apply IH in H as (Hi & Ho & Hl). simpl in *.
    rewrite Hi, <- app_assoc. auto.
Qed.

Lemma addOutput_inv p addr v p' :
  Psbt_addOutput L p addr v = Return p' ->
  exists spk, address_toOutputScript L addr = Return spk /\
    psbt_outputs p' = psbt_outputs p ++ [mkTxOutput spk v] /\
    psbt_inputs p' = psbt_inputs p /\ psbt_locktime p' = psbt_locktime p.
Proof.
  unfold Psbt_addOutput. intros H. inv_bind H. inv_bind H. injection H as <-.
  exists x. auto.
Qed.

(** A call of [signInput] that returns has found, for the input, a
    script it can sign, and leaves the [Psbt] as it was. *)
Lemma signInput_inv p i kp p' :
  Psbt_signInput L p i kp = Return p' ->
  p' = p /\
  exists input, psbt_inputs p !! i = Some input /\ getHashForSig_check i input = Return tt.
Proof.
  unfold Psbt_signInput. destruct (psbt_inputs p !! i) as [input|]; [| discriminate].
  intros H. inv_bind H. destruct x. inv_bind H. injection H as <-. eauto.
Qed.

Lemma claim_sign_inv h s kp p i p' :
  claim_sign L h s kp p i = Return p' ->
  exists ws sig,
    compile [Data s; Op OP_TRUE] = Return ws /\
    payments_p2sh_input (script h) ws = Return sig /\
    psbt_inputs p' = alter (set_finalScriptSig sig) i (psbt_inputs p) /\
    psbt_outputs p' = psbt_outputs p /\ psbt_locktime p' = psbt_locktime p.
Proof.
  unfold claim_sign. intros H. inv_bind H. rename x into ws.
  inv_bind H. apply signInput_inv in Hx0 as [-> _].
  unfold Psbt_finalizeInput in H.
  apply js_bind_Return in H as (checked & _ & H).
  apply js_bind_Return in H as (sig & Hsig & H).
  injection H as <-. exists ws, sig. auto.
Qed.

(** After the signing loop over the indices [a .. a + k - 1], exactly
    those inputs carry the scriptSig. *)
Lemma claim_sign_loop h s kp ws sig k a p p' :
  compile [Data s; Op OP_TRUE] = Return ws ->
  payments_p2sh_input (script h) ws = Return sig ->
  js_fold (claim_sign L h s kp) (seq a k) p = Return p' ->
  (forall j, psbt_inputs p' !! j =
             if bool_decide (a <= j < a + k)%nat
             then set_finalScriptSig sig <$> psbt_inputs p !! j
             else psbt_inputs p !! j) /\
  psbt_outputs p' = psbt_outputs p /\ psbt_locktime p' = psbt_locktime p.
Proof.
  intros Hws Hsig. revert a p.
  induction k as [|k IH]; intros a p H; simpl in H.
  - injection H as <-. split; [|auto]. intros j.
    rewrite bool_decide_eq_false_2 by lia. reflexivity.
  - inv_bind H. apply claim_sign_inv in Hx as (ws' & sig' & Hws' & Hsig' & Hi & Ho & Hl).
    rewrite Hws in Hws'. injection Hws' as <-.
    rewrite Hsig in Hsig'. injection Hsig' as <-.
    apply IH in H as (Hj & Ho' & Hl'). split; [|split; congruence].
    intros j. rewrite Hj, Hi.
    destruct (decide (j = a)) as [->|Hne].
    + rewrite bool_decide_eq_false_2 by lia.
      rewrite bool_decide_eq_true_2 by lia.
      rewrite list_lookup_alter_eq. reflexivity.
    + rewrite list_lookup_alter_ne by congruence.
      destruct (decide (S a <= j < S a + k)%nat).
      * rewrite !bool_decide_eq_true_2 by lia. reflexivity.
      * rewrite !bool_decide_eq_false_2 by lia. reflexivity.
Qed.

Lemma extract_inputs_final sig l :
  extract_inputs (map (set_finalScriptSig sig) l) =
  Return (map (fun i => mkTxInput (hash_of_txid (pi_hash i)) (pi_index i) sig
                                  (default 4294967295 (pi_sequence i)) []) l).
Proof.
  induction l as [|i l IH]; simpl; [reflexivity|].
  rewrite IH. reflexivity.
Qed.

(** The transaction [createClaimTransaction] returns: one output, of the
    lock's amount less 1000 satoshis, and one input per UTXO, each with
    the same scriptSig. *)
Lemma createClaimTransaction_shape h s wif dest utxos tx :
  createClaimTransaction L h s wif dest utxos = Return tx ->
  exists spk,
    address_toOutputScript L dest = Return spk /\
    tx_outs tx = [mkTxOutput spk (amount h - 1000)] /\
    (utxos <> [] ->
     exists ws sig,
       compile [Data s; Op OP_TRUE] = Return ws /\
       payments_p2sh_input (script h) ws = Return sig /\
       tx_ins tx = map (fun u => mkTxInput (hash_of_txid (txid u)) (vout u) sig
                                           4294967295 []) utxos).
Proof.
  unfold createClaimTransaction. intros H.
  inv_bind H. rename x into kp. inv_bind H. rename x into p1.
  apply addInput_loop in Hx0 as (Hi1 & Ho1 & Hl1). simpl in Hi1, Ho1, Hl1.
  inv_bind H. rename x into p2.
  apply addOutput_inv in Hx0 as (spk & Hspk & Ho2 & Hi2 & Hl2).
  rewrite Ho1 in Ho2. simpl in Ho2. rewrite Hi1 in Hi2.
  inv_bind H. rename x into p3.
  unfold Psbt_extractTransaction in H. inv_bind H. rename x into ins.
  inv_bind H. injection H as <-. simpl.
  exists spk. split; [exact Hspk|].
  assert (Ho3 : psbt_outputs p3 = psbt_outputs p2).
  { clear -Hx0. revert Hx0. generalize 0%nat. generalize p2.
    induction (length utxos) as [|k IH]; intros p a H; simpl in H.
    - injection H as <-. reflexivity.
    - inv_bind H. apply claim_sign_inv in Hx as (_ & _ & _ & _ & _ & Ho & _).
      rewrite (IH _ _ H). exact Ho. }
  split; [congruence|].
  intros Hne. destruct utxos as [|u utxos]; [contradiction|].
  assert (Hfirst : exists ws sig, compile [Data s; Op OP_TRUE] = Return ws /\
                     payments_p2sh_input (script h) ws = Return sig).
  { simpl in Hx0. apply js_bind_Return in Hx0 as (q & Hq & _).
    apply claim_sign_inv in Hq as (ws & sig & Hws & Hsig & _). eauto. }
  destruct Hfirst as (ws & sig & Hws & Hsig). exists ws, sig.
  split; [exact Hws|]. split; [exact Hsig|].
  destruct (claim_sign_loop h s kp ws sig _ _ _ _ Hws Hsig Hx0) as (Hj & _ & _).
  assert (Hi3 : psbt_inputs p3 =
                map (set_finalScriptSig sig) (map (claim_input h) (u :: utxos))).
  { apply list_eq. intros j. rewrite Hj, Hi2. rewrite !list_lookup_fmap.
    destruct (decide (j < length (u :: utxos))%nat).
    - rewrite bool_decide_eq_true_2 by lia. reflexivity.
    - rewrite bool_decide_eq_false_2 by lia.
      rewrite (lookup_ge_None_2 (u :: utxos) j) by lia. reflexivity. }
  rewrite Hi3, extract_inputs_final in Hx1. injection Hx1 as <-.
  rewrite map_map. reflexivity.
Qed.

Lemma asMinimalOP_32 (s : bytes) : length s = 32%nat -> asMinimalOP s = None.
Proof. destruct s as [|a [|b s]]; simpl; intros H; try discriminate; reflexivity. Qed.

(** The scriptSig of a claim starts with the push of the secret. *)
Lemma claim_scriptSig_head redeem (s ws sig : bytes) :
  length s = 32%nat ->
  compile [Data s; Op OP_TRUE] = Return ws ->
  payments_p2sh_input redeem ws = Return sig ->
  exists rest, decompile sig = Some (Data s :: rest).
Proof.
  intros Hlen Hws Hsig.
  assert (Hplain : Forall plain [Data s; Op OP_TRUE]).
  { constructor; [exact I|]. constructor; [|constructor].
    right. unfold OP_PUSHDATA4, OP_TRUE. lia. }
  pose proof (decompile_compile _ _ Hplain Hws) as Hd.
  cbn [map normalize] in Hd. rewrite (asMinimalOP_32 s Hlen) in Hd.
  unfold payments_p2sh_input in Hsig.
  destruct (decompile redeem) as [[|c cs]|]; try discriminate.
  destruct ws as [|w ws]; [discriminate|].
  rewrite Hd in Hsig.
  destruct (forallb isPushOnlyChunk [Data s; Op OP_TRUE]); [|discriminate].
  assert (Hplain' : Forall plain ([Data s; Op OP_TRUE] ++ [Data redeem])).
  { constructor; [exact I|]. constructor; [|constructor; [exact I | constructor]].
    right. unfold OP_PUSHDATA4, OP_TRUE. lia. }
  pose proof (decompile_compile _ _ Hplain' Hsig) as Hd'.
  cbn [map normalize app] in Hd'. rewrite (asMinimalOP_32 s Hlen) in Hd'.
  eauto.
Qed.

(** *** What [signInput] makes of an input of the lock *)

(** The lock's script starts with [OP_IF]: it is no witness program. *)
Lemma lock_script_head hash recipientPubKey refundPubKey lockT script :
  createHTLCScript hash recipientPubKey refundPubKey lockT = Return script ->
  exists tail, script = Z_to_byte OP_IF :: tail.
Proof.
  unfold createHTLCScript. cbn [compile compile_chunk].
  change ((0 <=? OP_IF) && (OP_IF <=? 255)) with true. cbv iota.
  intros H. inv_bind H. injection Hx as <-. inv_bind H. injection H as <-.
  eexists. reflexivity.
Qed.

Lemma not_a_witness_program script tail :
  script = Z_to_byte OP_IF :: tail ->
  isP2WPKH script = false /\ isP2WSHScript script = false.
Proof.
  intros ->. unfold isP2WPKH, isP2WSHScript, byte_at. cbn [nth].
  change (byte_to_Z (Z_to_byte OP_IF) =? OP_0) with false.
  rewrite !andb_false_r. auto.
Qed.

(** An input whose redeem script is no witness program, and whose
    previous output is not a pay-to-witness-pubkey-hash output, has no
    script that [signInput] would sign. *)
Lemma getHashForSig_rejects i input :
  isP2WPKH (pi_redeemScript input) = false ->
  isP2WSHScript (pi_redeemScript input) = false ->
  isP2WPKH (from_hex (fst (pi_witnessUtxo input))) = false ->
  exists message, getHashForSig_check i input = Throw message.
Proof.
  intros Hr1 Hr2 Hprev. unfold getHashForSig_check, getMeaningfulScript. cbv zeta.
  rewrite Hr2, andb_false_r, orb_false_r.
  set (prevout := from_hex (fst (pi_witnessUtxo input))) in *.
  destruct (isP2WSHScript prevout); [cbn [js_bind]; eauto |].
  destruct (isP2SHScript prevout).
  - destruct (checkRedeemScript i prevout (pi_redeemScript input)) as [[]|m];
      cbn [js_bind]; [| eauto].
    rewrite Hr1. eauto.
  - cbn [js_bind]. rewrite Hprev. eauto.
Qed.

Lemma signInput_rejects p i kp input :
  psbt_inputs p !! i = Some input ->
  isP2WPKH (pi_redeemScript input) = false ->
  isP2WSHScript (pi_redeemScript input) = false ->
  isP2WPKH (from_hex (fst (pi_witnessUtxo input))) = false ->
  exists message, Psbt_signInput L p i kp = Throw message.
Proof.
  intros Hin Hr1 Hr2 Hprev. unfold Psbt_signInput. rewrite Hin.
  destruct (getHashForSig_rejects i input Hr1 Hr2 Hprev) as [m ->]. simpl. eauto.
Qed.

(** [createClaimTransaction] never builds a transaction that spends an
    output of the lock: with a lock made by [createHTLCScript] and a
    first UTXO that is not a pay-to-witness-pubkey-hash output (the
    lock's own is pay-to-script-hash), the call throws, at the latest
    at the first [signInput]. *)
Lemma claim_transaction_never_built hash k1 k2 lockT h s wif dest u utxos :
  createHTLCScript hash k1 k2 lockT = Return (script h) ->
  isP2WPKH (from_hex (scriptPubKey u)) = false ->
  exists message, createClaimTransaction L h s wif dest (u :: utxos) = Throw message.
Proof.
  intros Hscript Hprev.
  destruct (lock_script_head _ _ _ _ _ Hscript) as [tail Htail].
  destruct (not_a_witness_program _ _ Htail) as [Hr1 Hr2].
  unfold createClaimTransaction.
  destruct (ECPair_fromWIF L wif) as [kp|m]; [| simpl; eauto]. cbn [js_bind].
  destruct (js_fold _ (u :: utxos) new_Psbt) as [p1|m] eqn:Hadd; [| simpl; eauto].
  apply addInput_loop in Hadd as (Hi1 & _). cbn [js_bind].
  destruct (Psbt_addOutput L p1 dest (amount h - 1000)) as [p2|m] eqn:Hout; [| simpl; eauto].
  apply addOutput_inv in Hout as (spk & _ & _ & Hi2 & _). cbn [js_bind].
  cbn [length seq js_fold]. unfold claim_sign at 1.
  destruct (compile [Data s; Op OP_TRUE]) as [ws|m]; [| simpl; eauto]. cbn [js_bind].
  destruct (signInput_rejects p2 0 kp (claim_input h u)) as [m Hm];
    [rewrite Hi2, Hi1; reflexivity | exact Hr1 | exact Hr2 | exact Hprev |].
  rewrite Hm. simpl. eauto.
Qed.

(** The scan finds the secret in a transaction whose first input carries
    the scriptSig of a claim. *)
Lemma secret_read_from_claim_scriptSig redeem (s ws sig : bytes) input ins :
  length s = 32%nat ->
  compile [Data s; Op OP_TRUE] = Return ws ->
  payments_p2sh_input redeem ws = Return sig ->
  in_script input = sig ->
  scan_inputs (input :: ins) (SHA256.sha256 s) = Some s.
Proof.
  intros Hlen Hws Hsig Hin.
  destruct (claim_scriptSig_head redeem s ws sig Hlen Hws Hsig) as (rest & Hd).
  cbn [scan_inputs]. rewrite Hin, Hd, Hlen.
  rewrite bool_decide_eq_true_2 by reflexivity. reflexivity.
Qed.

End WithLib.

(** *** C7: no claim transaction is built *)

(** C7. The lock of the examples holds 100000 satoshis under the SHA-256
    hash of the secret 01 02 .. 20; its UTXO pays to the lock's
    pay-to-script-hash address. [createClaimTransaction], given the
    secret, a key and a destination, adds the input with a [witnessUtxo]
    and the lock's script as redeem script, and [signInput] refuses it:
    the call throws, and there is no claim transaction to read the secret
    back from. *)
Theorem C7_claim_rejected_at_signing :
  exists h,
    Examples.htlc 100000 = Return h /\
    hash h = to_hex (SHA256.sha256 Examples.secret) /\
    Examples.htlc_scriptPubKey =
      to_hex (Z_to_byte OP_HASH160 :: Z_to_byte 20 :: hash160 (script h)
              ++ [Z_to_byte OP_EQUAL]) /\
    createClaimTransaction Examples.bitcoinjs_testnet h Examples.secret
      Examples.recipient_wif Examples.destination [Examples.utxo 100000] =
    Throw ("Input #0 has witnessUtxo but non-segwit script: " ++ to_hex (script h)).
Proof.
  destruct (Examples.htlc 100000) as [h|] eqn:Hh; [| vm_compute in Hh; discriminate].
  exists h. split; [reflexivity |].
  vm_compute in Hh. injection Hh as <-.
  split; [vm_compute; reflexivity |]. split; vm_compute; reflexivity.
Qed.

(** *** C8: the output amount and the fee *)

(** C8 (as amended). Every transaction [createClaimTransaction] returns
    has a single output, to the destination, of the lock's recorded
    amount less the fixed fee of 1000 satoshis, whatever the inputs and
    their values: the fee is taken from the recorded amount, and the sum
    of the inputs does not enter the output. *)
Theorem C8_claim_output_amount (L : Lib) h s wif dest utxos tx :
  createClaimTransaction L h s wif dest utxos = Return tx ->
  exists spk,
    address_toOutputScript L dest = Return spk /\
    tx_outs tx = [mkTxOutput spk (amount h - 1000)].
Proof.
  intros H.
  destruct (createClaimTransaction_shape L h s wif dest utxos tx H)
    as (spk & Hspk & Houts & _).
  eauto.
Qed.

(** C8, a run of the theorem: a lock recorded at 1000 satoshis, claimed
    with no input at all, pays out 1000 - 1000 = 0. *)
Lemma C8_claim_output_amount_witness :
  exists h tx,
    Examples.htlc 1000 = Return h /\
    createClaimTransaction Examples.bitcoinjs_testnet h Examples.secret
      Examples.recipient_wif Examples.destination [] = Return tx /\
    map out_value (tx_outs tx) = [0].
Proof.
  destruct (Examples.htlc 1000) as [h|] eqn:Hh; [|vm_compute in Hh; discriminate].
  destruct (createClaimTransaction Examples.bitcoinjs_testnet h Examples.secret
              Examples.recipient_wif Examples.destination [])
    as [tx|] eqn:Htx;
    [|vm_compute in Hh; injection Hh as <-; vm_compute in Htx; discriminate].
  exists h, tx. split; [reflexivity|]. split; [exact Htx|].
  destruct (C8_claim_output_amount Examples.bitcoinjs_testnet h Examples.secret
              Examples.recipient_wif Examples.destination [] tx Htx)
    as (spk & _ & ->).
  vm_compute in Hh. injection Hh as <-. reflexivity.
Defined.

(** C8, as first stated, fails. With no input the sum of the inputs less
    the fee is -1000, and for a lock recorded at 1000 satoshis the call
    returns a transaction all the same. With an input of 500 satoshis,
    less than the fee, the call does fail, but at [signInput] and for
    the script of the input, not for want of funds. *)
Lemma C8_no_insufficient_funds_check :
  fold_right Z.add 0 (map value []) - 1000 <= 0 /\
  fold_right Z.add 0 (map value [Examples.utxo 500]) - 1000 <= 0 /\
  exists h tx,
    Examples.htlc 1000 = Return h /\
    createClaimTransaction Examples.bitcoinjs_testnet h Examples.secret
      Examples.recipient_wif Examples.destination [] = Return tx /\
    tx_ins tx = [] /\ map out_value (tx_outs tx) = [0] /\
    createClaimTransaction Examples.bitcoinjs_testnet h Examples.secret
      Examples.recipient_wif Examples.destination [Examples.utxo 500] =
    Throw ("Input #0 has witnessUtxo but non-segwit script: " ++ to_hex (script h)).
Proof.
  split; [vm_compute; discriminate|]. split; [vm_compute; discriminate|].
  destruct (Examples.htlc 1000) as [h|] eqn:Hh; [|vm_compute in Hh; discriminate].
  destruct (createClaimTransaction Examples.bitcoinjs_testnet h Examples.secret
              Examples.recipient_wif Examples.destination [])
    as [tx|] eqn:Htx;
    [|vm_compute in Hh; injection Hh as <-; vm_compute in Htx; discriminate].
  exists h, tx. split; [reflexivity|]. split; [exact Htx|].
  vm_compute in Hh. injection Hh as <-. vm_compute in Htx. injection Htx as <-.
  split; [reflexivity |]. split; [reflexivity |]. vm_compute. reflexivity.
Qed.

End HTLCProofs.

(** ** The state manager *)

Module StoreProofs.
Import StateManager.

Lemma Map_get_delete_ne {V} (k k' : string) (m : list (string * V)) :
  k <> k' -> Map_get k (Map_delete k' m) = Map_get k m.
Proof.
  intros Hne. induction m as [|[k0 v0] m IH]; simpl; [reflexivity|].
  destruct (String.eqb_spec k' k0) as [->|Hk'].
  - destruct (String.eqb_spec k k0); [contradiction | reflexivity].
  - simpl. rewrite IH. reflexivity.
Qed.

Lemma Map_get_set_eq {V} (k : string) (v : V) (m : list (string * V)) :
  Map_get k (Map_set k v m) = Some v.
Proof.
  induction m as [|[k0 v0] m IH]; simpl.
  - rewrite String.eqb_refl. reflexivity.
  - destruct (String.eqb_spec k k0) as [->|Hne]; simpl.
    + rewrite String.eqb_refl. reflexivity.
    + destruct (String.eqb_spec k k0); [contradiction | exact IH].
Qed.

Lemma Map_get_set_ne {V} (k k' : string) (v : V) (m : list (string * V)) :
  k <> k' -> Map_get k (Map_set k' v m) = Map_get k m.
Proof.
  intros Hne. induction m as [|[k0 v0] m IH]; simpl.
  - destruct (String.eqb_spec k k'); [contradiction | reflexivity].
  - destruct (String.eqb_spec k' k0) as [->|Hk']; simpl.
    + destruct (String.eqb_spec k k0); [contradiction | reflexivity].
    + rewrite IH. reflexivity.
Qed.

Lemma Map_set_keys {V} (k : string) (v : V) (m : list (string * V)) k0 :
  In k0 (map fst (Map_set k v m)) <-> k0 = k \/ In k0 (map fst m).
Proof.
  induction m as [|[k1 v1] m IH]; simpl.
  - intuition.
  - destruct (String.eqb_spec k k1) as [->|Hne]; simpl.
    + intuition.
    + rewrite IH. intuition.
Qed.

Lemma Map_set_NoDup {V} (k : string) (v : V) (m : list (string * V)) :
  List.NoDup (map fst m) -> List.NoDup (map fst (Map_set k v m)).
Proof.
  induction m as [|[k1 v1] m IH]; simpl; intros Hnd.
  - constructor; [simpl; tauto | constructor].
  - inversion Hnd as [|? ? Hnotin Hnd']; subst.
    destruct (String.eqb_spec k k1) as [->|Hne]; simpl.
    + constructor; assumption.
    + constructor; [|apply IH, Hnd'].
      rewrite Map_set_keys. intros [Heq | Hin]; [congruence | contradiction].
Qed.

Lemma Map_delete_keys {V} (k : string) (m : list (string * V)) k0 :
  In k0 (map fst (Map_delete k m)) -> In k0 (map fst m).
Proof.
  induction m as [|[k1 v1] m IH]; simpl; [tauto|].
  destruct (String.eqb_spec k k1) as [->|Hne]; simpl; intuition.
Qed.

Lemma Map_delete_NoDup {V} (k : string) (m : list (string * V)) :
  List.NoDup (map fst m) -> List.NoDup (map fst (Map_delete k m)).
Proof.
  induction m as [|[k1 v1] m IH]; simpl; intros Hnd; [constructor|].
  inversion Hnd as [|? ? Hnotin Hnd']; subst.
  destruct (String.eqb_spec k k1) as [->|Hne]; simpl; [exact Hnd'|].
  constructor; [|apply IH, Hnd'].
  intros Hin. apply Hnotin. eapply Map_delete_keys, Hin.
Qed.

(** With distinct keys, an entry of the list is what [get] returns. *)
Lemma Map_get_In {V} (k : string) (v : V) (m : list (string * V)) :
  List.NoDup (map fst m) -> In (k, v) m -> Map_get k m = Some v.
Proof.
  induction m as [|[k1 v1] m IH]; simpl; intros Hnd Hin; [contradiction|].
  inversion Hnd as [|? ? Hnotin Hnd']; subst.
  destruct Hin as [[= -> ->] | Hin].
  - rewrite String.eqb_refl. reflexivity.
  - destruct (String.eqb_spec k k1) as [->|Hne]; [|apply IH; assumption].
    exfalso. apply Hnotin. apply (in_map fst) in Hin. exact Hin.
Qed.

Lemma Map_get_delete_eq {V} (k : string) (m : list (string * V)) :
  List.NoDup (map fst m) -> Map_get k (Map_delete k m) = None.
Proof.
  induction m as [|[k0 v0] m IH]; simpl; intros Hnd; [reflexivity |].
  inversion Hnd as [|? ? Hnotin Hnd']; subst.
  destruct (String.eqb_spec k k0) as [->|Hne]; simpl.
  - destruct (Map_get k0 m) as [v|] eqn:Hg; [| reflexivity].
    exfalso. apply Hnotin. clear -Hg.
    induction m as [|[k1 v1] m IH]; simpl in *; [discriminate |].
    destruct (String.eqb_spec k0 k1); [left; congruence | right; auto].
  - destruct (String.eqb_spec k k0); [contradiction | apply IH, Hnd'].
Qed.

Lemma Map_get_Some_In {V} (k : string) (v : V) (m : list (string * V)) :
  Map_get k m = Some v -> In (k, v) m.
Proof.
  induction m as [|[k0 v0] m IH]; simpl; [discriminate |].
  destruct (String.eqb_spec k k0) as [->|Hne]; [intros [= ->]; left; reflexivity |].
  intros H. right. auto.
Qed.

Lemma store_ok_new disk : store_ok (new_StateManager disk).
Proof. split; simpl; [constructor | congruence]. Qed.

Section WithFs.
Variable fs_error : FsCall -> option string.

(** Deleting one swap leaves every other swap as it is, in the [Map] and
    on disk. *)
Lemma deleteSwapState_frame id id' st :
  initialized st = true -> id <> id' ->
  let st' := snd (deleteSwapState fs_error id' st) in
  Map_get id (swapStates st') = Map_get id (swapStates st) /\
  files st' !! id = files st !! id /\
  initialized st' = true.
Proof.
  intros Hinit Hne. unfold deleteSwapState, sm_bind, ensure_initialized.
  rewrite Hinit. simpl.
  destruct (fs_error (Unlink id')) as [code|]; [destruct (String.eqb code "ENOENT")|];
    simpl; rewrite Map_get_delete_ne by exact Hne;
    try rewrite lookup_delete_ne by congruence; auto.
Qed.

Lemma delete_loop_frame ids id st :
  initialized st = true -> ~ In id ids ->
  let st' := snd (sm_for (deleteSwapState fs_error) ids st) in
  Map_get id (swapStates st') = Map_get id (swapStates st) /\
  files st' !! id = files st !! id /\
  initialized st' = true.
Proof.
  revert st. induction ids as [|id' ids IH]; intros st Hinit Hnotin; simpl.
  - auto.
  - assert (Hne : id <> id') by (intros ->; apply Hnotin; left; reflexivity).
    assert (Hnotin' : ~ In id ids) by (intros Hin; apply Hnotin; right; exact Hin).
    pose proof (deleteSwapState_frame id id' st Hinit Hne) as (Hg & Hf & Hi).
    unfold sm_bind.
    destruct (deleteSwapState fs_error id' st) as [[[]|m] st1]; simpl in *.
    + destruct (IH st1 Hi Hnotin') as (Hg' & Hf' & Hi').
      split; [congruence | split; [congruence | exact Hi']].
    + auto.
Qed.

(** The purge never selects the id of a record that is not terminal. *)
Lemma not_selected cutoffTime st id rec :
  List.NoDup (map fst (swapStates st)) ->
  Map_get id (swapStates st) = Some rec ->
  is_terminal (status rec) = false ->
  ~ In id (map fst (List.filter (purgeable cutoffTime) (swapStates st))).
Proof.
  intros Hnd Hget Hterm Hin.
  apply in_map_iff in Hin as ([id0 rec0] & Hid & Hin). simpl in Hid. subst id0.
  apply filter_In in Hin as [Hin Hp].
  rewrite (Map_get_In id rec0 _ Hnd Hin) in Hget. injection Hget as ->.
  unfold purgeable in Hp. simpl in Hp. unfold is_terminal in Hterm.
  destruct (String.eqb (status rec) "completed");
    destruct (String.eqb (status rec) "refunded");
    simpl in *; try discriminate.
  rewrite andb_false_r in Hp. discriminate.
Qed.

(** Every method keeps the store well formed. *)
Lemma load_loop_ok entries st :
  List.NoDup (map fst (swapStates st)) ->
  exists st',
    sm_for (load_file fs_error) entries st = (Return tt, st') /\
    List.NoDup (map fst (swapStates st')) /\
    initialized st' = initialized st.
Proof.
  revert st. induction entries as [|e entries IH]; intros st Hnd; simpl.
  - exists st. auto.
  - unfold sm_bind. unfold load_file at 1. cbv zeta.
    destruct (fs_error (ReadFile (fst e))).
    + apply IH, Hnd.
    + match goal with
      | |- context [Map_set ?k _ _] =>
          destruct (IH (mkStore (Map_set k (snd e) (swapStates st))
                                (files st) (initialized st)))
            as (st' & Hrun & Hnd' & Hi'); [simpl; apply Map_set_NoDup, Hnd|]
      end.
      exists st'. auto.
Qed.

Lemma initialize_ok st :
  store_ok st ->
  store_ok (snd (initialize fs_error st)) /\
  (forall u, fst (initialize fs_error st) = Return u ->
             initialized (snd (initialize fs_error st)) = true).
Proof.
  intros [Hnd Hinit]. unfold initialize, sm_bind, fs_call, sm_throw, sm_ret.
  destruct (fs_error (Mkdir dataDir)); simpl; [split; [split; assumption | discriminate]|].
  destruct (fs_error (Mkdir backupDir)); simpl; [split; [split; assumption | discriminate]|].
  unfold loadSwapStates.
  destruct (fs_error (Readdir dataDir)) as [code|].
  - destruct (String.eqb code "ENOENT"); simpl.
    + split; [split; simpl; auto | reflexivity].
    + split; [split; assumption | discriminate].
  - destruct (load_loop_ok (map_to_list (files st)) st Hnd) as (st1 & -> & Hnd' & _).
    simpl. split; [split; simpl; auto | reflexivity].
Qed.

Lemma ensure_initialized_ok st :
  store_ok st ->
  store_ok (snd (ensure_initialized fs_error st)) /\
  (forall u, fst (ensure_initialized fs_error st) = Return u ->
             initialized (snd (ensure_initialized fs_error st)) = true).
Proof.
  intros Hok. unfold ensure_initialized.
  destruct (initialized st) eqn:Hi; [|apply initialize_ok, Hok].
  simpl. split; [exact Hok | intros _ _; exact Hi].
Qed.

Lemma saveSwapState_ok now id s st :
  store_ok st -> store_ok (snd (saveSwapState fs_error now id s st)).
Proof.
  intros Hok. unfold saveSwapState, sm_bind.
  pose proof (ensure_initialized_ok st Hok) as [[Hnd Hinit] Hi].
  destruct (ensure_initialized fs_error st) as [[u|m] st1]; simpl in *;
    [|split; assumption].
  specialize (Hi u eq_refl).
  unfold fs_call, sm_throw, sm_ret.
  destruct (fs_error (WriteFile id)); simpl;
    (split; simpl; [apply Map_set_NoDup, Hnd | intros _; exact Hi]).
Qed.

Lemma getSwapState_ok id st :
  store_ok st -> store_ok (snd (getSwapState fs_error id st)).
Proof.
  intros Hok. unfold getSwapState, sm_bind.
  pose proof (ensure_initialized_ok st Hok) as [[Hnd Hinit] Hi].
  destruct (ensure_initialized fs_error st) as [[u|m] st1]; simpl in *;
    [|split; assumption].
  specialize (Hi u eq_refl).
  destruct (Map_get id (swapStates st1)); simpl; [split; assumption|].
  destruct (files st1 !! id); simpl; [|split; assumption].
  destruct (fs_error (ReadFile id)) as [code|]; simpl.
  - destruct (String.eqb code "ENOENT"); simpl; split; assumption.
  - split; simpl; [apply Map_set_NoDup, Hnd | intros _; exact Hi].
Qed.

Lemma getActiveSwaps_ok st :
  store_ok st -> store_ok (snd (getActiveSwaps fs_error st)).
Proof.
  intros Hok. unfold getActiveSwaps, sm_bind.
  pose proof (ensure_initialized_ok st Hok) as [Hok1 _].
  destruct (ensure_initialized fs_error st) as [[u|m] st1]; simpl in *; exact Hok1.
Qed.

Lemma deleteSwapState_ok id st :
  store_ok st -> store_ok (snd (deleteSwapState fs_error id st)).
Proof.
  intros Hok. unfold deleteSwapState, sm_bind.
  pose proof (ensure_initialized_ok st Hok) as [[Hnd Hinit] Hi].
  destruct (ensure_initialized fs_error st) as [[u|m] st1]; simpl in *;
    [|split; assumption].
  specialize (Hi u eq_refl).
  destruct (fs_error (Unlink id)) as [code|]; [destruct (String.eqb code "ENOENT")|];
    simpl; (split; simpl; [apply Map_delete_NoDup, Hnd | intros _; exact Hi]).
Qed.

Lemma delete_loop_ok ids st :
  store_ok st -> store_ok (snd (sm_for (deleteSwapState fs_error) ids st)).
Proof.
  revert st. induction ids as [|id ids IH]; intros st Hok; simpl; [exact Hok|].
  unfold sm_bind. pose proof (deleteSwapState_ok id st Hok) as Hok1.
  destruct (deleteSwapState fs_error id st) as [[u|m] st1]; simpl in *;
    [apply IH, Hok1 | exact Hok1].
Qed.

Lemma cleanupExpiredSwaps_ok now maxAge st :
  store_ok st -> store_ok (snd (cleanupExpiredSwaps fs_error now maxAge st)).
Proof.
  intros Hok. unfold cleanupExpiredSwaps, sm_bind. cbv zeta.
  set (ids := map fst (List.filter _ (swapStates st))).
  pose proof (delete_loop_ok ids st Hok) as Hok1.
  destruct (sm_for (deleteSwapState fs_error) ids st) as [[u|m] st1]; exact Hok1.
Qed.

End WithFs.

(** *** C9: the purge decides by the record in memory *)

(** The second loop of the purge, run to its end, leaves no file of a
    selected swap whose [unlink] went through. *)
Lemma delete_loop_unlinked fs_error ids id st st' :
  initialized st = true -> In id ids -> fs_error (Unlink id) = None ->
  sm_for (deleteSwapState fs_error) ids st = (Return tt, st') ->
  files st' !! id = None.
Proof.
  revert st. induction ids as [|id' ids IH]; intros st Hi Hin Hun Hrun; [destruct Hin |].
  simpl in Hrun. unfold sm_bind in Hrun.
  destruct (deleteSwapState fs_error id' st) as [[[]|m] st1] eqn:Hdel; [| discriminate].
  assert (Hi1 : initialized st1 = true).
  { revert Hdel. unfold deleteSwapState, sm_bind, ensure_initialized. rewrite Hi. simpl.
    destruct (fs_error (Unlink id')) as [code|]; [destruct (String.eqb code "ENOENT") |];
      intros [= <-]; exact Hi. }
  destruct (in_dec String.string_dec id ids) as [Hlater | Hnot].
  - apply (IH st1 Hi1 Hlater Hun Hrun).
  - destruct Hin as [-> | Hin]; [| contradiction].
    pose proof (delete_loop_frame fs_error ids id st1 Hi1 Hnot) as (_ & Hf & _).
    rewrite Hrun in Hf. simpl in Hf. rewrite Hf.
    revert Hdel. unfold deleteSwapState, sm_bind, ensure_initialized. rewrite Hi. simpl.
    rewrite Hun. intros [= <-]. simpl. apply lookup_delete_eq.
Qed.

(** Run to its end, it leaves no selected swap in the [Map]. *)
Lemma delete_loop_removed fs_error ids id st st' :
  initialized st = true -> List.NoDup (map fst (swapStates st)) -> In id ids ->
  sm_for (deleteSwapState fs_error) ids st = (Return tt, st') ->
  Map_get id (swapStates st') = None.
Proof.
  revert st. induction ids as [|id' ids IH]; intros st Hi Hnd Hin Hrun; [destruct Hin |].
  simpl in Hrun. unfold sm_bind in Hrun.
  destruct (deleteSwapState fs_error id' st) as [[[]|m] st2] eqn:Hdel; [| discriminate].
  assert (Hst2 : swapStates st2 = Map_delete id' (swapStates st) /\ initialized st2 = true).
  { revert Hdel. unfold deleteSwapState, sm_bind, ensure_initialized. rewrite Hi. simpl.
    destruct (fs_error (Unlink id')) as [code|]; [destruct (String.eqb code "ENOENT") |];
      intros [= <-]; auto. }
  destruct Hst2 as [Hm2 Hi2].
  assert (Hnd2 : List.NoDup (map fst (swapStates st2)))
    by (rewrite Hm2; apply Map_delete_NoDup, Hnd).
  destruct (in_dec String.string_dec id ids) as [Hlater | Hnot].
  - apply (IH st2 Hi2 Hnd2 Hlater Hrun).
  - destruct Hin as [-> | Hin]; [| contradiction].
    pose proof (delete_loop_frame fs_error ids id st2 Hi2 Hnot) as (Hg & _ & _).
    rewrite Hrun in Hg. simpl in Hg. rewrite Hg, Hm2.
    apply Map_get_delete_eq, Hnd.
Qed.

(** C9 (as amended). The purge reads the status from the [Map] alone. In a
    well-formed store, for every age threshold and every reading of the
    clock, whether or not the purge runs to its end: a swap whose record
    in the [Map] has none of the statuses "completed", "refunded" and
    "expired", and a swap the [Map] does not hold (one stored on disk
    only), keeps its entry of the [Map] and its file as they were. A swap
    the [Map] holds as completed or refunded and older than the threshold
    is removed from the [Map], and its file is removed with it, whatever
    the file records, once the purge has returned and the [unlink] of the
    file has not failed. *)
Theorem C9_purge_decides_by_memory fs_error now maxAge st id :
  store_ok st ->
  let cutoffTime := now - default (30 * 24 * 60 * 60 * 1000) maxAge in
  let r := cleanupExpiredSwaps fs_error now maxAge st in
  ((forall rec, Map_get id (swapStates st) = Some rec -> is_terminal (status rec) = false) ->
   Map_get id (swapStates (snd r)) = Map_get id (swapStates st) /\
   files (snd r) !! id = files st !! id) /\
  (forall rec n,
     Map_get id (swapStates st) = Some rec -> purgeable cutoffTime (id, rec) = true ->
     fst r = Return n -> fs_error (Unlink id) = None ->
     Map_get id (swapStates (snd r)) = None /\ files (snd r) !! id = None).
Proof.
  intros [Hnd Hinit]. cbv zeta. unfold cleanupExpiredSwaps. cbv zeta.
  set (cutoffTime := now - default (30 * 24 * 60 * 60 * 1000) maxAge).
  set (ids := map fst (List.filter (purgeable cutoffTime) (swapStates st))).
  unfold sm_bind, sm_ret. split.
  - intros Hterm.
    assert (Hnotin : ~ In id ids).
    { destruct (Map_get id (swapStates st)) as [rec|] eqn:Hget.
      - eapply not_selected; eauto.
      - intros Hin. apply in_map_iff in Hin as ([id0 rec0] & Hid & Hin).
        simpl in Hid. subst id0. apply filter_In in Hin as [Hin _].
        rewrite (Map_get_In id rec0 _ Hnd Hin) in Hget. discriminate. }
    destruct (swapStates st) as [|entry rest] eqn:Hmap.
    + subst ids. simpl. rewrite Hmap. auto.
    + assert (Hi : initialized st = true) by (apply Hinit; congruence).
      pose proof (delete_loop_frame fs_error ids id st Hi Hnotin) as (Hg & Hf & _).
      rewrite Hmap in Hg.
      destruct (sm_for (deleteSwapState fs_error) ids st) as [[[]|m] st1]; simpl in *;
        split; congruence.
  - intros rec n Hget Hsel Hret Hun.
    assert (Hi : initialized st = true).
    { apply Hinit. intros Hnil. rewrite Hnil in Hget. discriminate. }
    assert (Hin : In id ids).
    { apply in_map_iff. exists (id, rec). split; [reflexivity |].
      apply filter_In. split; [apply Map_get_Some_In, Hget | exact Hsel]. }
    destruct (sm_for (deleteSwapState fs_error) ids st) as [[[]|m] st1] eqn:Hrun;
      simpl in *; [| discriminate].
    split; [apply (delete_loop_removed fs_error ids id st st1 Hi Hnd Hin Hrun)
           | apply (delete_loop_unlinked fs_error ids id st st1 Hi Hin Hun Hrun)].
Qed.

(** C9, a run of the theorem: both records are a year old; the pending
    one stays, in the [Map] and on disk, the completed one goes. *)
Lemma C9_purge_decides_by_memory_witness :
  let side := mkBtcSide 100000 "tb1user" "2Mz" "63" "01" "ae" 800144 in
  let eth := mkEthSide "0xToken" 1 "0xUser" "{}" in
  let pending := mkSwapState "a" "initiated" side eth 1000 2000
                             None None None None None (Some 1001) in
  let done := mkSwapState "b" "completed" side eth 1000 2000
                          (Some "tx") (Some "0x1") (Some 1500) None None (Some 1501) in
  let st := mkStore [("a", pending); ("b", done)]
                    {[ "a" := pending; "b" := done ]} true in
  let st' := snd (cleanupExpiredSwaps (fun _ => None) 40000000000 None st) in
  Map_get "a" (swapStates st') = Some pending /\
  files st' !! "a" = Some pending /\
  Map_get "b" (swapStates st') = None /\ files st' !! "b" = None.
Proof.
  cbv zeta.
  match goal with
  | |- Map_get _ (swapStates (snd (cleanupExpiredSwaps ?fs ?now ?age ?st))) = _ /\ _ =>
      assert (Hok : store_ok st);
      [| pose proof (C9_purge_decides_by_memory fs now age st "a" Hok) as Ha;
         pose proof (C9_purge_decides_by_memory fs now age st "b" Hok) as Hb ]
  end.
  - split; simpl; [| reflexivity].
    constructor; [simpl; intros [H|[]]; discriminate|].
    constructor; [simpl; tauto | constructor].
  - cbv zeta in Ha, Hb. destruct Ha as [Ha _]. destruct Hb as [_ Hb].
    destruct Ha as [Hget Hfile].
    { intros rec [= <-]. reflexivity. }
    destruct (Hb _ 1 eq_refl eq_refl eq_refl eq_refl) as [Hgone Hfgone].
    split; [exact Hget |]. split; [rewrite Hfile; reflexivity |].
    split; [exact Hgone | exact Hfgone].
Defined.

(** C9, as first stated, fails. Swap "a" is saved as "initiated"; a year
    later it is saved as "completed", and that write fails at the open
    ([EACCES]), so that the [Map] says "completed" while the file still
    holds the record "initiated". The purge then removes the file: a
    stored record whose status is not terminal is gone. *)
Lemma C9_purge_removes_stale_file :
  let side := mkBtcSide 100000 "tb1user" "2Mz" "63" "01" "ae" 800144 in
  let eth := mkEthSide "0xToken" 1 "0xUser" "{}" in
  let pending := mkSwapState "a" "initiated" side eth 1000 2000
                             None None None None None None in
  let done := mkSwapState "a" "completed" side eth 1000 2000
                          (Some "tx") (Some "0x1") (Some 1500) None None None in
  let denied := fun c => match c with
                         | WriteFile _ => Some "EACCES"%string
                         | _ => None
                         end in
  let st1 := snd (saveSwapState (fun _ => None) 1001 "a" pending (new_StateManager ∅)) in
  let st2 := snd (saveSwapState denied 1501 "a" done st1) in
  let st3 := snd (cleanupExpiredSwaps (fun _ => None) 40000000000 None st2) in
  files st2 !! "a" = Some pending /\
  is_terminal (status pending) = false /\
  files st3 !! "a" = None.
Proof.
  vm_compute. repeat split.
Qed.

End StoreProofs.

(** ** The coordinator: what [initiateBTCToETHSwap] persists *)

Module CoordinatorProofs.
Import StateManager SwapCoordinator.

(** A call of [ensure_initialized] that returns leaves the manager
    initialized. *)
Lemma ensure_initialized_returned fs_error st :
  fst (ensure_initialized fs_error st) = Return tt ->
  initialized (snd (ensure_initialized fs_error st)) = true.
Proof.
  unfold ensure_initialized. destruct (initialized st) eqn:Hi; [intros _; exact Hi |].
  unfold initialize, sm_bind, fs_call, sm_throw, sm_ret.
  destruct (fs_error (Mkdir dataDir)); simpl; [discriminate |].
  destruct (fs_error (Mkdir backupDir)); simpl; [discriminate |].
  destruct (loadSwapStates fs_error st) as [[[]|m] st2]; simpl; [reflexivity | discriminate].
Qed.

(** C2 (as amended). The state saved by [initiateBTCToETHSwap] holds the
    secret itself, in hexadecimal, in [btcSide.secret], next to its
    SHA-256 hash in [btcSide.secretHash]: once the lock is built and the
    quote has arrived, and unless the initialization of the state manager
    or the write of the file fails, the record written to the swap's file
    and the record kept in the [Map] both carry it, with status
    "initiated", whatever the call does afterwards. The plaintext secret
    is in persisted state from initiation on. *)
Theorem C2_initial_state_holds_secret (L : Bitcoin.Lib) svc w p st h q :
  BitcoinHTLC.createHTLCOutput L (SHA256.sha256 (random_bytes w)) (userBtcAddress p)
    svc (lockTime p) (btcAmount p) = Return h ->
  quote_response w = Return q ->
  fst (ensure_initialized (fs_error w) st) = Return tt ->
  fs_error w (WriteFile (generated_swapId w)) = None ->
  exists saved,
    files (snd (initiateBTCToETHSwap L svc w p st)) !! generated_swapId w = Some saved /\
    Map_get (generated_swapId w) (swapStates (snd (initiateBTCToETHSwap L svc w p st)))
      = Some (with_lastUpdated saved (now_saved w)) /\
    status saved = "initiated"%string /\
    secret (btcSide saved) = to_hex (random_bytes w) /\
    secretHash (btcSide saved) = to_hex (SHA256.sha256 (random_bytes w)).
Proof.
  intros Hlock Hquote Hinit Hwrite.
  set (saved := initial_state w p (random_bytes w) (SHA256.sha256 (random_bytes w)) h q).
  pose proof (ensure_initialized_returned _ _ Hinit) as Hdone.
  destruct (ensure_initialized (fs_error w) st) as [r st1] eqn:Hens.
  simpl in Hinit, Hdone. subst r.
  assert (Hstore :
    snd (initiateBTCToETHSwap L svc w p st) =
    mkStore (Map_set (generated_swapId w) (with_lastUpdated saved (now_saved w))
                     (swapStates st1))
            (<[generated_swapId w := saved]> (files st1)) true).
  { unfold initiateBTCToETHSwap, BitcoinHTLC.generateSecret. cbn [fst snd].
    unfold sm_bind at 1. unfold sm_lift at 1. rewrite Hlock.
    unfold sm_bind at 1. unfold sm_lift at 1. rewrite Hquote.
    unfold sm_bind at 1. fold saved.
    assert (Hsave :
      saveSwapState (fs_error w) (now_saved w) (generated_swapId w) saved st
      = (Return tt,
         mkStore (Map_set (generated_swapId w) (with_lastUpdated saved (now_saved w))
                          (swapStates st1))
                 (<[generated_swapId w := saved]> (files st1)) true)).
    { unfold saveSwapState, sm_bind. rewrite Hens.
      unfold fs_call, sm_ret. rewrite Hwrite. simpl. rewrite Hdone. reflexivity. }
    rewrite Hsave. unfold sm_bind, sm_lift, sm_ret.
    destruct (initiateEthereumSwap w saved); reflexivity. }
  exists saved. rewrite Hstore. simpl.
  split; [apply lookup_insert_eq|]. split; [apply StoreProofs.Map_get_set_eq|].
  repeat split.
Qed.

(** C2, a run of the theorem, in the world of the examples, on a manager
    that initializes itself at this first save. *)
Lemma C2_initial_state_holds_secret_witness :
  exists saved,
    files (snd (initiateBTCToETHSwap Examples.bitcoinjs_testnet "tb1service"
                  Examples.world Examples.params (new_StateManager ∅)))
      !! "0x5e1f"%string = Some saved /\
    secret (btcSide saved) = to_hex Examples.secret /\
    secretHash (btcSide saved) = to_hex (SHA256.sha256 Examples.secret).
Proof.
  destruct (BitcoinHTLC.createHTLCOutput Examples.bitcoinjs_testnet
              (SHA256.sha256 (random_bytes Examples.world))
              (userBtcAddress Examples.params) "tb1service"
              (lockTime Examples.params) (btcAmount Examples.params))
    as [h|] eqn:Hh; [|vm_compute in Hh; discriminate].
  assert (Hinit : fst (ensure_initialized (fs_error Examples.world) (new_StateManager ∅))
                  = Return tt) by (vm_compute; reflexivity).
  destruct (C2_initial_state_holds_secret Examples.bitcoinjs_testnet "tb1service"
              Examples.world Examples.params (new_StateManager ∅) h "{}"
              Hh eq_refl Hinit eq_refl)
    as (saved & Hfile & _ & _ & Hsecret & Hhash).
  exists saved. split; [exact Hfile|]. split; [exact Hsecret | exact Hhash].
Defined.

(** C2, as first stated, fails: right after initiation, before any
    deposit or reveal, the file of the swap holds the secret
    01 02 .. 20 in the clear. *)
Lemma C2_secret_persisted_at_initiation :
  exists saved,
    files (snd (initiateBTCToETHSwap Examples.bitcoinjs_testnet "tb1service"
                  Examples.world Examples.params Examples.initialized_store))
      !! "0x5e1f"%string = Some saved /\
    status saved = "initiated"%string /\
    to_hex Examples.secret =
      "0102030405060708090a0b0c0d0e0f101112131415161718191a1b1c1d1e1f20"%string /\
    secret (btcSide saved) =
      "0102030405060708090a0b0c0d0e0f101112131415161718191a1b1c1d1e1f20"%string.
Proof.
  eexists. split; [vm_compute; reflexivity|]. vm_compute. repeat split.
Qed.

End CoordinatorProofs.

(** ** The order registry: bookkeeping, access control and the two exits *)

Module RegistryInvariants.
Import FusionResolver RegistryProofs.

Lemma flag_insert_true (m : gmap Z bool) k k' :
  flag m k = true -> flag (<[k' := true]> m) k = true.
Proof.
  unfold flag. intros H. rewrite lookup_insert.
  destruct (decide (k' = k)); [reflexivity | exact H].
Qed.

Lemma flag_insert_eq (m : gmap Z bool) k b : flag (<[k := b]> m) k = b.
Proof.
  unfold flag. rewrite lookup_insert.
  destruct (decide (k = k)); [reflexivity | congruence].
Qed.

Lemma nonempty_length {A} (l : list A) :
  (0 <? Z.of_nat (length l)) = true <-> l <> [].
Proof.
  destruct l; simpl; split; try congruence; try discriminate.
  intros _. apply Z.ltb_lt. lia.
Qed.

Lemma order_at_mkState so su sp sa sw id :
  order_at (mkState so su sp sa sw) id = default zeroOrder (so !! id).
Proof. reflexivity. Qed.

(** What a call that returns has checked, and the state it leaves. *)
Lemma execute_Ok_inv s e c s' evs :
  execute s e c = Ok (s', evs) ->
  match c with
  | CallInitiateSwap id tok amt h sh l =>
      s' = set_order s id
             (mkSwapOrder (msg_sender e) tok amt h sh l (block_timestamp e) Pending) /\
      evs = [SwapInitiated id (msg_sender e) tok amt h l] /\
      user (order_at s id) = 0 /\ tok <> 0 /\ amt > 0 /\ l > block_timestamp e
  | CallCompleteSwap id secret proof mp =>
      s' = mkState (<[id := set_status (order_at s id) Completed]> (swapOrders s))
                   (<[secret := true]> (usedSecrets s))
                   (<[bitcoinTxHash (order_at s id) := true]> (processedBitcoinTxs s))
                   (authorizedOracles s) (owner s) /\
      evs = [SwapCompleted id (user (order_at s id)) secret
                           (bitcoinTxHash (order_at s id))] /\
      user (order_at s id) <> 0 /\ status (order_at s id) = Pending /\
      block_timestamp e <= lockTime (order_at s id) /\
      keccak256_packed secret = secretHash (order_at s id) /\
      flag (usedSecrets s) secret = false /\ proof <> [] /\ mp <> [] /\
      amountOut (order_at s id) > 0
  | CallRefundSwap id reason =>
      s' = set_order s id (set_status (order_at s id) Refunded) /\
      evs = [SwapRefunded id (user (order_at s id)) reason] /\
      user (order_at s id) <> 0 /\ status (order_at s id) = Pending /\
      expired e (order_at s id) = Ok true
  | CallSubmitBitcoinProof id h n v =>
      s' = (if v then mkState (swapOrders s) (usedSecrets s)
                              (<[h := true]> (processedBitcoinTxs s))
                              (authorizedOracles s) (owner s)
            else s) /\
      evs = [] /\
      flag (authorizedOracles s) (msg_sender e) = true /\
      user (order_at s id) <> 0 /\ bitcoinTxHash (order_at s id) = h /\
      n >= MIN_CONFIRMATIONS
  | CallAddAuthorizedOracle o =>
      s' = set_oracle s o true /\ evs = [] /\ owner s = msg_sender e
  | CallRemoveAuthorizedOracle o =>
      s' = set_oracle s o false /\ evs = [] /\ owner s = msg_sender e
  | CallPause => s' = s /\ evs = [] /\ owner s = msg_sender e
  | CallRecoverTokens _ _ => s' = s /\ evs = [] /\ owner s = msg_sender e
  | CallTransferOwnership o =>
      s' = set_owner s o /\ evs = [OwnershipTransferred (owner s) o] /\
      owner s = msg_sender e /\ o <> 0
  | CallRenounceOwnership =>
      s' = set_owner s 0 /\ evs = [OwnershipTransferred (owner s) 0] /\
      owner s = msg_sender e
  end.
Proof.
  destruct c; simpl; intros Hx.
  - unfold initiateSwap in Hx. inv_requires Hx. injection Hx as <- <-.
    apply negb_true_iff in Hreq0. repeat split; lia.
  - unfold completeSwap in Hx. inv_requires Hx.
    unfold _executeFusionSwap in Hx. inv_requires Hx. injection Hx as <- <-.
    apply negb_true_iff in Hreq, Hreq3.
    apply andb_true_iff in Hreq4 as [Hp Hm].
    apply nonempty_length in Hp, Hm. apply SwapStatus_eqb_eq in Hreq0.
    simpl in Hreq5. repeat split; auto; lia.
  - unfold refundSwap in Hx. inv_requires Hx.
    destruct (expired e (order_at s swapId)) as [ok| |] eqn:Hexp; simpl in Hx;
      try discriminate.
    inv_requires Hx. injection Hx as <- <-. subst ok.
    apply negb_true_iff in Hreq. apply SwapStatus_eqb_eq in Hreq0.
    repeat split; auto; lia.
  - unfold submitBitcoinProof, onlyAuthorizedOracle in Hx. inv_requires Hx.
    injection Hx as <- <-. apply negb_true_iff in Hreq0.
    repeat split; auto; lia.
  - unfold addAuthorizedOracle, onlyOwner in Hx. inv_requires Hx.
    injection Hx as <- <-. repeat split; lia.
  - unfold removeAuthorizedOracle, onlyOwner in Hx. inv_requires Hx.
    injection Hx as <- <-. repeat split; lia.
  - unfold pause, onlyOwner in Hx. inv_requires Hx.
    injection Hx as <- <-. repeat split; lia.
  - unfold recoverTokens, onlyOwner in Hx. inv_requires Hx.
    injection Hx as <- <-. repeat split; lia.
  - unfold transferOwnership, onlyOwner, _transferOwnership in Hx. inv_requires Hx.
    injection Hx as <- <-. apply negb_true_iff in Hreq0. repeat split; lia.
  - unfold renounceOwnership, onlyOwner, _transferOwnership in Hx. inv_requires Hx.
    injection Hx as <- <-. repeat split; lia.
Qed.

(** *** The status [Expired] *)

Lemma order_step_not_Expired o o' :
  order_step o o' -> status o <> Expired -> status o' <> Expired.
Proof.
  intros [-> | _ Hs _ | _ _ [-> | ->]] H; simpl; congruence.
Qed.

(** X1. The enumeration has a value [Expired], which no function assigns: in
    a deployed registry every order is [Pending], [Completed] or
    [Refunded]. *)
Theorem status_Expired_never_assigned s id :
  reachable s -> status (order_at s id) <> Expired.
Proof.
  intros (d & txs & ->). induction txs as [|tx txs IH] using rev_ind.
  - unfold order_at; simpl. rewrite lookup_empty. simpl. congruence.
  - rewrite run_snoc. eapply order_step_not_Expired; [apply step_order | exact IH].
Qed.

Lemma status_Expired_never_assigned_witness :
  let s := run (constructor (mkEnv 13 1))
               [(mkEnv 7 10, CallInitiateSwap 1 9 5 77 42 100);
                (mkEnv 8 200000, CallRefundSwap 1 "Swap timeout")] in
  isSwapExpired s (mkEnv 8 200001) 1 = Ok true /\ status (order_at s 1) <> Expired.
Proof.
  cbv zeta. split; [vm_compute; reflexivity |].
  apply (status_Expired_never_assigned _ 1). eexists _, _. reflexivity.
Defined.

(** *** Completed orders are settled *)

Lemma settled_mono s s' o :
  (forall k, flag (usedSecrets s) k = true -> flag (usedSecrets s') k = true) ->
  (forall k, flag (processedBitcoinTxs s) k = true ->
             flag (processedBitcoinTxs s') k = true) ->
  settled s o -> settled s' o.
Proof.
  intros Hu Hp [Hproc (secret & Hk & Hused)]. split; [auto |].
  exists secret. auto.
Qed.

Lemma step_settled s tx :
  (forall id, status (order_at s id) = Completed -> settled s (order_at s id)) ->
  forall id, status (order_at (step s tx) id) = Completed ->
             settled (step s tx) (order_at (step s tx) id).
Proof.
  intros Hinv id. unfold step.
  destruct (execute s (fst tx) (snd tx)) as [[s' evs]| |] eqn:Hx; try apply Hinv.
  apply execute_Ok_inv in Hx. destruct (snd tx); intros Hc.
  - destruct Hx as (-> & _). revert Hc. rewrite order_at_set_order.
    destruct (decide (swapId = id)); [discriminate |]. apply Hinv.
  - destruct Hx as (-> & _ & _ & _ & _ & Hk & _). revert Hc.
    rewrite !order_at_mkState, lookup_insert.
    destruct (decide (swapId = id)) as [->|Hne]; simpl.
    + intros _. split; simpl.
      * apply flag_insert_eq.
      * exists secret. split; [exact Hk | apply flag_insert_eq].
    + intros Hc. apply (settled_mono s); simpl;
        [intros k; apply flag_insert_true | intros k; apply flag_insert_true |].
      apply Hinv, Hc.
  - destruct Hx as (-> & _). revert Hc. rewrite order_at_set_order.
    destruct (decide (swapId = id)); [discriminate |]. apply Hinv.
  - destruct Hx as (-> & _). destruct isValid; [| apply Hinv, Hc].
    apply (settled_mono s); simpl; [auto | intros k; apply flag_insert_true |].
    apply Hinv, Hc.
  - destruct Hx as (-> & _). apply Hinv, Hc.
  - destruct Hx as (-> & _). apply Hinv, Hc.
  - destruct Hx as (-> & _). apply Hinv, Hc.
  - destruct Hx as (-> & _). apply Hinv, Hc.
  - destruct Hx as (-> & _). apply Hinv, Hc.
  - destruct Hx as (-> & _). apply Hinv, Hc.
Qed.

(** X2. In a deployed registry, behind every [Completed] order there is a
    used secret whose Keccak-256 hash is the order's secret hash, and the
    order's Bitcoin transaction is marked as processed. *)
Theorem completed_order_is_settled s id :
  reachable s -> status (order_at s id) = Completed -> settled s (order_at s id).
Proof.
  intros (d & txs & ->). revert id.
  induction txs as [|tx txs IH] using rev_ind; intros id.
  - unfold order_at; simpl. rewrite lookup_empty. discriminate.
  - rewrite run_snoc. apply step_settled, IH.
Qed.

Lemma completed_order_is_settled_witness :
  let s := run (constructor (mkEnv 13 1))
               [(mkEnv 7 10, CallInitiateSwap 1 9 5 77 (keccak256_packed 0) 100);
                (mkEnv 7 20, CallCompleteSwap 1 0 [x01] [1])] in
  status (order_at s 1) = Completed /\ settled s (order_at s 1).
Proof.
  cbv zeta.
  assert (Hc : status (order_at
                 (run (constructor (mkEnv 13 1))
                    [(mkEnv 7 10, CallInitiateSwap 1 9 5 77 (keccak256_packed 0) 100);
                     (mkEnv 7 20, CallCompleteSwap 1 0 [x01] [1])]) 1) = Completed)
    by (vm_compute; reflexivity).
  split; [exact Hc |].
  apply (completed_order_is_settled _ 1); [| exact Hc].
  eexists _, _. reflexivity.
Defined.

(** *** Who can change the owner and the oracle set *)

Lemma step_admin_frame s tx :
  msg_sender (fst tx) <> owner s ->
  owner (step s tx) = owner s /\ authorizedOracles (step s tx) = authorizedOracles s.
Proof.
  intros Hne. unfold step.
  destruct (execute s (fst tx) (snd tx)) as [[s' evs]| |] eqn:Hx; auto.
  apply execute_Ok_inv in Hx.
  destruct (snd tx); try (destruct Hx as (_ & _ & Ho & _); congruence);
    try (destruct Hx as (_ & _ & Ho); congruence);
    destruct Hx as (-> & _); try (split; reflexivity).
  destruct isValid; split; reflexivity.
Qed.

(** X3. A transaction replaces the owner or touches the oracle set only when
    its sender is the current owner. *)
Theorem admin_changes_need_owner s tx :
  owner (step s tx) <> owner s \/ authorizedOracles (step s tx) <> authorizedOracles s ->
  msg_sender (fst tx) = owner s.
Proof.
  intros Hchange. destruct (decide (msg_sender (fst tx) = owner s)) as [|Hne]; [assumption |].
  destruct (step_admin_frame s tx Hne) as [Ho Ha]. destruct Hchange; contradiction.
Qed.

Lemma admin_changes_need_owner_witness :
  let s := constructor (mkEnv 13 1) in
  let tx := (mkEnv 13 5, CallTransferOwnership 21) in
  owner (step s tx) = 21 /\ msg_sender (fst tx) = owner s.
Proof.
  cbv zeta. split; [vm_compute; reflexivity |].
  apply (admin_changes_need_owner (constructor (mkEnv 13 1))
           (mkEnv 13 5, CallTransferOwnership 21)).
  left. vm_compute. congruence.
Defined.

(** X4. Once ownership is renounced, no transaction (its sender is never the
    zero address) brings an owner back or changes the oracle set. *)
Theorem renounced_ownership_is_final s txs :
  owner s = 0 -> Forall (fun tx => msg_sender (fst tx) <> 0) txs ->
  owner (run s txs) = 0 /\ authorizedOracles (run s txs) = authorizedOracles s.
Proof.
  intros Ho Hall. revert s Ho.
  induction Hall as [|tx txs Htx _ IH]; intros s Ho; simpl; [auto |].
  destruct (step_admin_frame s tx) as [Ho' Ha']; [congruence |].
  destruct (IH (step s tx)) as [Ho'' Ha'']; [congruence |].
  split; congruence.
Qed.

Lemma renounced_ownership_is_final_witness :
  let s := run (constructor (mkEnv 13 1)) [(mkEnv 13 2, CallRenounceOwnership)] in
  let txs := [(mkEnv 13 3, CallAddAuthorizedOracle 21);
              (mkEnv 13 4, CallTransferOwnership 13)] in
  owner (run s txs) = 0 /\ authorizedOracles (run s txs) = authorizedOracles s.
Proof.
  cbv zeta. apply renounced_ownership_is_final.
  - vm_compute. reflexivity.
  - repeat constructor; vm_compute; congruence.
Defined.

Lemma step_revoked s tx o :
  flag (authorizedOracles s) o = false -> authorizes o tx = false ->
  flag (authorizedOracles (step s tx)) o = false.
Proof.
  intros Hf Hna. unfold step.
  destruct (execute s (fst tx) (snd tx)) as [[s' evs]| |] eqn:Hx; auto.
  apply execute_Ok_inv in Hx. unfold authorizes in Hna.
  destruct (snd tx); destruct Hx as (-> & _); simpl; auto.
  - destruct isValid; exact Hf.
  - unfold flag. rewrite lookup_insert.
    destruct (decide (oracle = o)); [lia | exact Hf].
  - unfold flag. rewrite lookup_insert.
    destruct (decide (oracle = o)); [reflexivity | exact Hf].
Qed.

(** X5. After [removeAuthorizedOracle], and until an [addAuthorizedOracle]
    names it again, every [submitBitcoinProof] sent by the removed oracle
    is rejected as "Not authorized oracle". *)
Theorem removed_oracle_is_rejected s e oracle s1 evs :
  removeAuthorizedOracle s e oracle = Ok (s1, evs) ->
  forall txs e' id h n v,
    forallb (fun tx => negb (authorizes oracle tx)) txs = true ->
    msg_sender e' = oracle ->
    submitBitcoinProof (run s1 txs) e' id h n v = Revert "Not authorized oracle".
Proof.
  intros Hrm txs e' id h n v Hall Hsender.
  assert (Hf : flag (authorizedOracles (run s1 txs)) oracle = false).
  { assert (H1 : flag (authorizedOracles s1) oracle = false).
    { unfold removeAuthorizedOracle, onlyOwner in Hrm. inv_requires Hrm.
      injection Hrm as <- _. simpl. apply flag_insert_eq. }
    clear Hrm. revert s1 H1. induction txs as [|tx txs IH]; intros s1 H1; simpl; auto.
    simpl in Hall. apply andb_true_iff in Hall as [Htx Hall].
    apply IH; [exact Hall |]. apply step_revoked; [exact H1 |].
    now apply negb_true_iff. }
  unfold submitBitcoinProof, onlyAuthorizedOracle.
  rewrite Hsender, Hf. reflexivity.
Qed.

Lemma removed_oracle_is_rejected_witness :
  let s := run (constructor (mkEnv 13 1))
               [(mkEnv 7 10, CallInitiateSwap 1 9 5 77 42 100)] in
  let s1 := set_oracle s 13 false in
  submitBitcoinProof s (mkEnv 13 11) 1 77 3 true <> Revert "Not authorized oracle" /\
  removeAuthorizedOracle s (mkEnv 13 12) 13 = Ok (s1, []) /\
  submitBitcoinProof (run s1 [(mkEnv 13 13, CallAddAuthorizedOracle 21)])
                     (mkEnv 13 14) 1 77 3 true = Revert "Not authorized oracle".
Proof.
  cbv zeta. set (s := run _ _).
  split; [vm_compute; congruence |].
  assert (Hrm : removeAuthorizedOracle s (mkEnv 13 12) 13 = Ok (set_oracle s 13 false, []))
    by (vm_compute; reflexivity).
  split; [exact Hrm |].
  apply (removed_oracle_is_rejected s (mkEnv 13 12) 13 _ _ Hrm); reflexivity.
Defined.

(** *** The oracle's report is never read *)

Lemma outcome_frame s s' e c :
  swapOrders s' = swapOrders s -> usedSecrets s' = usedSecrets s ->
  authorizedOracles s' = authorizedOracles s -> owner s' = owner s ->
  outcome (execute s' e c) = outcome (execute s e c).
Proof.
  destruct s as [so su sp sa sw], s' as [so' su' sp' sa' sw']; simpl.
  intros -> -> -> ->.
  destruct c; simpl;
    unfold initiateSwap, completeSwap, refundSwap, submitBitcoinProof,
           addAuthorizedOracle, removeAuthorizedOracle, pause, recoverTokens,
           transferOwnership, renounceOwnership, onlyAuthorizedOracle, onlyOwner,
           _executeFusionSwap, order_at; simpl;
    repeat match goal with
           | |- context [require ?b _] => destruct b; simpl
           | |- context [expired ?e ?o] => destruct (expired e o) as [[|]| |]; simpl
           end;
    try reflexivity.
Qed.

(** X6. [submitBitcoinProof] writes [processedBitcoinTxs] at the reported
    hash, when [isValid] is set, and nothing else; none of the contract's
    own functions reads that mapping. Whatever an oracle reports, every
    later call of a state-changing function returns, or fails, exactly as
    it would have without the report, the views [getSwapOrder] and
    [isSwapExpired] answer the same, and so do the getters of
    [swapOrders], [usedSecrets], [authorizedOracles] and [owner];
    [verifyBitcoinTransaction] reads no storage. Only the getter the
    compiler makes for the public mapping [processedBitcoinTxs] shows
    the report, and only at the reported hash. *)
Theorem oracle_report_changes_no_outcome s e0 id0 h0 n0 v0 s' evs0 :
  submitBitcoinProof s e0 id0 h0 n0 v0 = Ok (s', evs0) ->
  (forall e c, outcome (execute s' e c) = outcome (execute s e c)) /\
  (forall id, getSwapOrder s' id = getSwapOrder s id) /\
  (forall e id, isSwapExpired s' e id = isSwapExpired s e id) /\
  swapOrders s' = swapOrders s /\ usedSecrets s' = usedSecrets s /\
  authorizedOracles s' = authorizedOracles s /\ owner s' = owner s /\
  (forall h, flag (processedBitcoinTxs s') h =
             if v0 && (h =? h0) then true else flag (processedBitcoinTxs s) h).
Proof.
  intros Hsub.
  apply (execute_Ok_inv s e0 (CallSubmitBitcoinProof id0 h0 n0 v0)) in Hsub.
  destruct Hsub as (-> & _).
  destruct v0; simpl.
  - split; [intros e c; apply outcome_frame; reflexivity |].
    repeat split.
    intros h. unfold flag. destruct (Z.eqb_spec h h0) as [-> | Hne].
    + rewrite lookup_insert_eq. reflexivity.
    + rewrite lookup_insert_ne by congruence. reflexivity.
  - repeat split.
Qed.

Lemma oracle_report_changes_no_outcome_witness :
  let s := run (constructor (mkEnv 13 1))
               [(mkEnv 7 10, CallInitiateSwap 1 9 5 77 (keccak256_packed 0) 100)] in
  let s' := step s (mkEnv 13 11, CallSubmitBitcoinProof 1 77 3 true) in
  submitBitcoinProof s (mkEnv 13 11) 1 77 3 true = Ok (s', []) /\
  flag (processedBitcoinTxs s) 77 = false /\ flag (processedBitcoinTxs s') 77 = true /\
  outcome (execute s' (mkEnv 7 20) (CallCompleteSwap 1 0 [x01] [1])) =
  outcome (execute s (mkEnv 7 20) (CallCompleteSwap 1 0 [x01] [1])).
Proof.
  cbv zeta. set (s := run _ _). set (s' := step s _).
  assert (Hsub : submitBitcoinProof s (mkEnv 13 11) 1 77 3 true = Ok (s', []))
    by (vm_compute; reflexivity).
  split; [exact Hsub |].
  split; [vm_compute; reflexivity |]. split; [vm_compute; reflexivity |].
  apply (proj1 (oracle_report_changes_no_outcome s _ _ _ _ _ s' [] Hsub)).
Defined.

(** *** [initiateSwap] and [getSwapOrder] *)

(** X7. A call of [initiateSwap] that returns has passed the four checks, has
    emitted [SwapInitiated], and [getSwapOrder] then reads the order as
    given, registered to the sender, created at the block's time and
    [Pending]; every other order and the four other state variables are
    as before. *)
Theorem initiateSwap_then_getSwapOrder s e id tok amt h sh l s' evs :
  initiateSwap s e id tok amt h sh l = Ok (s', evs) ->
  getSwapOrder s' id =
    mkSwapOrder (msg_sender e) tok amt h sh l (block_timestamp e) Pending /\
  (forall id', id' <> id -> getSwapOrder s' id' = getSwapOrder s id') /\
  usedSecrets s' = usedSecrets s /\
  processedBitcoinTxs s' = processedBitcoinTxs s /\
  authorizedOracles s' = authorizedOracles s /\ owner s' = owner s /\
  evs = [SwapInitiated id (msg_sender e) tok amt h l] /\
  user (getSwapOrder s id) = 0 /\ tok <> 0 /\ amt > 0 /\ l > block_timestamp e.
Proof.
  intros Hx. apply (execute_Ok_inv s e (CallInitiateSwap id tok amt h sh l)) in Hx.
  destruct Hx as (-> & -> & Hfree & Htok & Hamt & Hl). unfold getSwapOrder.
  repeat split; auto.
  - rewrite order_at_set_order. destruct (decide (id = id)); congruence.
  - intros id' Hne. rewrite order_at_set_order.
    destruct (decide (id = id')); congruence.
Qed.

Lemma initiateSwap_then_getSwapOrder_witness :
  let s := constructor (mkEnv 13 1) in
  let s' := step s (mkEnv 7 10, CallInitiateSwap 1 9 5 77 42 100) in
  initiateSwap s (mkEnv 7 10) 1 9 5 77 42 100 = Ok (s', [SwapInitiated 1 7 9 5 77 100]) /\
  getSwapOrder s' 1 = mkSwapOrder 7 9 5 77 42 100 10 Pending.
Proof.
  cbv zeta. set (s := constructor _). set (s' := step s _).
  assert (Hx : initiateSwap s (mkEnv 7 10) 1 9 5 77 42 100 =
               Ok (s', [SwapInitiated 1 7 9 5 77 100])) by (vm_compute; reflexivity).
  split; [exact Hx |].
  apply (initiateSwap_then_getSwapOrder s (mkEnv 7 10) 1 9 5 77 42 100 s' _ Hx).
Defined.

(** *** [completeSwap] in a deployed registry *)

(** X8. In a deployed registry [completeSwap] returns exactly when the order is
    registered and [Pending], the block's time is not past the lock time,
    the secret's Keccak-256 hash is the recorded one, the secret was not
    used before, and both proofs are non-empty; the amount check of
    [_executeFusionSwap] never fails there. *)
Theorem completeSwap_returns_iff s e id secret proof mp :
  reachable s ->
  ((exists s' evs, completeSwap s e id secret proof mp = Ok (s', evs)) <->
   user (order_at s id) <> 0 /\ status (order_at s id) = Pending /\
   block_timestamp e <= lockTime (order_at s id) /\
   keccak256_packed secret = secretHash (order_at s id) /\
   flag (usedSecrets s) secret = false /\ proof <> [] /\ mp <> []).
Proof.
  intros Hs. split.
  - intros (s' & evs & Hx).
    apply (execute_Ok_inv s e (CallCompleteSwap id secret proof mp)) in Hx.
    tauto.
  - intros (Hreg & Hpend & Ht & Hk & Hu & Hp & Hm).
    destruct (reachable_inv s id Hs) as [_ Hamt]. specialize (Hamt Hreg).
    unfold completeSwap.
    rewrite bind_require_true by (apply negb_true_iff; lia).
    rewrite bind_require_true by (rewrite Hpend; reflexivity).
    rewrite bind_require_true by lia.
    rewrite bind_require_true by lia.
    rewrite bind_require_true by (rewrite Hu; reflexivity).
    rewrite bind_require_true
      by (apply andb_true_iff; split; apply nonempty_length; assumption).
    unfold _executeFusionSwap.
    rewrite bind_require_true by (simpl; lia).
    eauto.
Qed.

Lemma completeSwap_returns_iff_witness :
  let s := run (constructor (mkEnv 13 1))
               [(mkEnv 7 10, CallInitiateSwap 1 9 5 77 (keccak256_packed 0) 100)] in
  exists s' evs, completeSwap s (mkEnv 8 20) 1 0 [x01] [1] = Ok (s', evs).
Proof.
  cbv zeta. set (s := run _ _).
  assert (Hs : reachable s) by (eexists _, _; reflexivity).
  apply (proj2 (completeSwap_returns_iff s (mkEnv 8 20) 1 0 [x01] [1] Hs)).
  vm_compute. repeat split; congruence.
Defined.

(** *** The two exits of a pending order *)

(** X9. On one and the same state and block, [completeSwap] and [refundSwap]
    can both return for an order only when the block's time is past
    creation time plus [SWAP_TIMEOUT] and not past the lock time: an order
    whose lock time is at most 24 hours after its creation is never open
    to both. *)
Theorem complete_and_refund_overlap s e id secret proof mp reason s1 ev1 s2 ev2 :
  completeSwap s e id secret proof mp = Ok (s1, ev1) ->
  refundSwap s e id reason = Ok (s2, ev2) ->
  createdAt (order_at s id) + SWAP_TIMEOUT < block_timestamp e /\
  block_timestamp e <= lockTime (order_at s id).
Proof.
  intros Hc Hr.
  apply (execute_Ok_inv s e (CallCompleteSwap id secret proof mp)) in Hc.
  apply (execute_Ok_inv s e (CallRefundSwap id reason)) in Hr.
  destruct Hc as (_ & _ & _ & _ & Ht & _).
  destruct Hr as (_ & _ & _ & _ & Hexp).
  split; [| exact Ht].
  unfold expired, checked_add in Hexp.
  destruct (block_timestamp e >? lockTime (order_at s id)) eqn:Hl; [lia |].
  destruct (createdAt (order_at s id) + SWAP_TIMEOUT <=? MAX_UINT256);
    simpl in Hexp; [| discriminate].
  injection Hexp as Hexp. lia.
Qed.

Lemma complete_and_refund_overlap_witness :
  let s := run (constructor (mkEnv 13 1))
               [(mkEnv 7 10, CallInitiateSwap 1 9 5 77 (keccak256_packed 0) 200000)] in
  let e := mkEnv 8 100000 in
  completeSwap s e 1 0 [x01] [1] =
    Ok (step s (e, CallCompleteSwap 1 0 [x01] [1]), [SwapCompleted 1 7 0 77]) /\
  refundSwap s e 1 "Swap timeout" =
    Ok (step s (e, CallRefundSwap 1 "Swap timeout"), [SwapRefunded 1 7 "Swap timeout"]) /\
  createdAt (order_at s 1) + SWAP_TIMEOUT < block_timestamp e /\
  block_timestamp e <= lockTime (order_at s 1).
Proof.
  cbv zeta. set (s := run _ _). set (e := mkEnv 8 100000).
  assert (Hc : completeSwap s e 1 0 [x01] [1] =
               Ok (step s (e, CallCompleteSwap 1 0 [x01] [1]), [SwapCompleted 1 7 0 77]))
    by (vm_compute; reflexivity).
  assert (Hr : refundSwap s e 1 "Swap timeout" =
               Ok (step s (e, CallRefundSwap 1 "Swap timeout"),
                   [SwapRefunded 1 7 "Swap timeout"]))
    by (vm_compute; reflexivity).
  split; [exact Hc |]. split; [exact Hr |].
  exact (complete_and_refund_overlap s e 1 0 [x01] [1] "Swap timeout" _ _ _ _ Hc Hr).
Defined.

(** X10. On a registered pending order, [refundSwap] returns exactly when
    [isSwapExpired] answers [true] in the same block. *)
Theorem refundSwap_returns_iff_isSwapExpired s e id reason :
  user (order_at s id) <> 0 -> status (order_at s id) = Pending ->
  ((exists s' evs, refundSwap s e id reason = Ok (s', evs)) <->
   isSwapExpired s e id = Ok true).
Proof.
  intros Hreg Hpend. unfold isSwapExpired. split.
  - intros (s' & evs & Hx).
    apply (execute_Ok_inv s e (CallRefundSwap id reason)) in Hx. tauto.
  - intros Hexp. unfold refundSwap.
    rewrite bind_require_true by (apply negb_true_iff; lia).
    rewrite bind_require_true by (rewrite Hpend; reflexivity).
    rewrite Hexp. simpl. eauto.
Qed.

Lemma refundSwap_returns_iff_isSwapExpired_witness :
  let s := run (constructor (mkEnv 13 1))
               [(mkEnv 7 10, CallInitiateSwap 1 9 5 77 42 100)] in
  isSwapExpired s (mkEnv 8 101) 1 = Ok true /\
  exists s' evs, refundSwap s (mkEnv 8 101) 1 "Swap timeout" = Ok (s', evs).
Proof.
  cbv zeta. set (s := run _ _).
  assert (Hexp : isSwapExpired s (mkEnv 8 101) 1 = Ok true) by (vm_compute; reflexivity).
  split; [exact Hexp |].
  apply (proj2 (refundSwap_returns_iff_isSwapExpired s (mkEnv 8 101) 1 "Swap timeout"
                  ltac:(vm_compute; congruence) ltac:(vm_compute; reflexivity))).
  exact Hexp.
Defined.

End RegistryInvariants.

(** ** The state manager: saving, reading, deleting, purging *)

Module StoreBehaviour.
Import StateManager StoreProofs.

Lemma Map_delete_In {V} (k : string) (m : list (string * V)) e :
  In e (Map_delete k m) -> In e m.
Proof.
  induction m as [|[k0 v0] m IH]; simpl; [tauto |].
  destruct (String.eqb k k0); simpl; intuition.
Qed.

(** Removing an entry that a filter rejects does not change what the
    filter keeps. *)
Lemma filter_Map_delete {V} (P : string * V -> bool) (k : string) (m : list (string * V)) :
  (forall v, In (k, v) m -> P (k, v) = false) ->
  List.filter P (Map_delete k m) = List.filter P m.
Proof.
  induction m as [|[k0 v0] m IH]; simpl; intros Hrej; [reflexivity |].
  destruct (String.eqb_spec k k0) as [->|Hne]; simpl.
  - rewrite (Hrej v0) by (left; reflexivity). reflexivity.
  - rewrite IH by (intros v Hin; apply Hrej; right; exact Hin). reflexivity.
Qed.

Section WithFs.
Variable fs_error : FsCall -> option string.

Lemma initialize_Return st u st1 :
  initialize fs_error st = (Return u, st1) -> initialized st1 = true.
Proof.
  unfold initialize, sm_bind, fs_call, sm_throw, sm_ret.
  destruct (fs_error (Mkdir dataDir)); simpl; [discriminate |].
  destruct (fs_error (Mkdir backupDir)); simpl; [discriminate |].
  destruct (loadSwapStates fs_error st) as [[[]|m] st2]; simpl; [| discriminate].
  intros [= _ <-]. reflexivity.
Qed.

Lemma ensure_initialized_Return st u st1 :
  ensure_initialized fs_error st = (Return u, st1) -> initialized st1 = true.
Proof.
  unfold ensure_initialized. destruct (initialized st) eqn:Hi.
  - intros [= _ <-]. exact Hi.
  - apply initialize_Return.
Qed.

Lemma ensure_initialized_done st :
  initialized st = true -> ensure_initialized fs_error st = (Return tt, st).
Proof. unfold ensure_initialized. intros ->. reflexivity. Qed.

(** One turn of the purge's second loop on an initialized store. *)
Lemma deleteSwapState_initialized id st :
  initialized st = true ->
  swapStates (snd (deleteSwapState fs_error id st)) = Map_delete id (swapStates st) /\
  initialized (snd (deleteSwapState fs_error id st)) = true.
Proof.
  intros Hi. unfold deleteSwapState, sm_bind. rewrite ensure_initialized_done by exact Hi.
  simpl. destruct (fs_error (Unlink id)) as [code|];
    [destruct (String.eqb code "ENOENT") |]; simpl; auto.
Qed.

Lemma delete_loop_initialized ids st :
  initialized st = true ->
  initialized (snd (sm_for (deleteSwapState fs_error) ids st)) = true.
Proof.
  revert st. induction ids as [|id ids IH]; intros st Hi; simpl; [exact Hi |].
  unfold sm_bind. destruct (deleteSwapState_initialized id st Hi) as [_ Hi1].
  destruct (deleteSwapState fs_error id st) as [[u|m] st1]; simpl in *; auto.
Qed.

Lemma delete_loop_filter (P : string * SwapState -> bool) ids st :
  initialized st = true ->
  (forall k v, In k ids -> In (k, v) (swapStates st) -> P (k, v) = false) ->
  List.filter P (swapStates (snd (sm_for (deleteSwapState fs_error) ids st))) =
  List.filter P (swapStates st).
Proof.
  revert st. induction ids as [|id ids IH]; intros st Hi Hrej; simpl; [reflexivity |].
  unfold sm_bind. destruct (deleteSwapState_initialized id st Hi) as [Hm Hi1].
  assert (Hf : List.filter P (Map_delete id (swapStates st)) = List.filter P (swapStates st))
    by (apply filter_Map_delete; intros v Hin; apply Hrej; [left; reflexivity | exact Hin]).
  destruct (deleteSwapState fs_error id st) as [[u|m] st1]; simpl in *.
  - rewrite IH; [congruence | exact Hi1 |].
    intros k v Hk Hin. apply Hrej; [right; exact Hk |].
    rewrite Hm in Hin. eapply Map_delete_In, Hin.
  - congruence.
Qed.

Lemma delete_loop_all ids st st' :
  initialized st = true -> List.NoDup (map fst (swapStates st)) ->
  sm_for (deleteSwapState fs_error) ids st = (Return tt, st') ->
  forall k, (In k ids -> Map_get k (swapStates st') = None) /\
            (~ In k ids -> Map_get k (swapStates st') = Map_get k (swapStates st)).
Proof.
  revert st. induction ids as [|id ids IH]; intros st Hi Hnd Hrun k; simpl in Hrun.
  - injection Hrun as <-. split; [intros [] | reflexivity].
  - unfold sm_bind in Hrun. destruct (deleteSwapState_initialized id st Hi) as [Hm Hi1].
    destruct (deleteSwapState fs_error id st) as [[u|m] st1]; simpl in *; [| discriminate].
    assert (Hnd1 : List.NoDup (map fst (swapStates st1)))
      by (rewrite Hm; apply Map_delete_NoDup, Hnd).
    destruct (IH st1 Hi1 Hnd1 Hrun k) as [Hin Hout].
    destruct (in_dec String.string_dec k ids) as [Hk|Hk].
    + split; [intros _; auto | intros Hno; exfalso; apply Hno; right; exact Hk].
    + rewrite (Hout Hk), Hm. split.
      * intros [<-|Hk']; [apply Map_get_delete_eq, Hnd | contradiction].
      * intros Hno. apply Map_get_delete_ne. intros ->. apply Hno. left; reflexivity.
Qed.

End WithFs.

(** *** Saving and reading back *)

(** X11. After [saveSwapState] has returned, [getSwapState] returns the saved
    object with [lastUpdated] set to the time of the save, from the
    [Map]; the file holds the object as it was passed, without the new
    time. *)
Theorem saved_state_is_read_back fs_error now id s st st' :
  saveSwapState fs_error now id s st = (Return tt, st') ->
  getSwapState fs_error id st' = (Return (Some (with_lastUpdated s now)), st') /\
  files st' !! id = Some s.
Proof.
  unfold saveSwapState, sm_bind. intros H.
  destruct (ensure_initialized fs_error st) as [[u|m] st1] eqn:He; [| discriminate].
  apply ensure_initialized_Return in He. simpl in H.
  unfold fs_call, sm_throw, sm_ret in H.
  destruct (fs_error (WriteFile id)); simpl in H; [discriminate |].
  injection H as <-. split; [| apply lookup_insert_eq].
  unfold getSwapState, sm_bind. rewrite ensure_initialized_done by exact He.
  simpl. rewrite Map_get_set_eq. reflexivity.
Qed.

Lemma saved_state_is_read_back_witness :
  let side := mkBtcSide 100000 "tb1user" "2Mz" "63" "01" "ae" 800144 in
  let eth := mkEthSide "0xToken" 1 "0xUser" "{}" in
  let s := mkSwapState "a" "initiated" side eth 1000 2000 None None None None None None in
  let st' := snd (saveSwapState (fun _ => None) 1001 "a" s (new_StateManager ∅)) in
  getSwapState (fun _ => None) "a" st' = (Return (Some (with_lastUpdated s 1001)), st') /\
  files st' !! "a" = Some s.
Proof.
  cbv zeta.
  match goal with
  | |- getSwapState ?fs ?id (snd (saveSwapState ?fs ?now ?id ?s ?st)) = _ /\ _ =>
      apply (saved_state_is_read_back fs now id s st)
  end.
  vm_compute. reflexivity.
Defined.

(** X12. The [Map] is updated before the file is written: on an
    initialized manager, when the write fails, [saveSwapState] throws the
    error and yet [getSwapState] returns the new object, which was never
    saved. *)
Theorem failed_write_leaves_memory_ahead fs_error now id s st code :
  initialized st = true -> fs_error (WriteFile id) = Some code ->
  fst (saveSwapState fs_error now id s st) = Throw code /\
  getSwapState fs_error id (snd (saveSwapState fs_error now id s st)) =
    (Return (Some (with_lastUpdated s now)), snd (saveSwapState fs_error now id s st)).
Proof.
  intros Hi Hw.
  assert (Hsave : saveSwapState fs_error now id s st =
                  (Throw code,
                   mkStore (Map_set id (with_lastUpdated s now) (swapStates st))
                           (files st) (initialized st))).
  { unfold saveSwapState, sm_bind. rewrite ensure_initialized_done by exact Hi.
    simpl. unfold fs_call. rewrite Hw. reflexivity. }
  rewrite Hsave. simpl. split; [reflexivity |].
  unfold getSwapState, sm_bind. rewrite ensure_initialized_done by exact Hi.
  simpl. rewrite Map_get_set_eq. reflexivity.
Qed.

Lemma failed_write_leaves_memory_ahead_witness :
  let side := mkBtcSide 100000 "tb1user" "2Mz" "63" "01" "ae" 800144 in
  let eth := mkEthSide "0xToken" 1 "0xUser" "{}" in
  let s := mkSwapState "a" "initiated" side eth 1000 2000 None None None None None None in
  let fs := fun c => match c with WriteFile _ => Some "EACCES"%string | _ => None end in
  let r := saveSwapState fs 1001 "a" s Examples.initialized_store in
  fst r = Throw "EACCES" /\
  getSwapState fs "a" (snd r) = (Return (Some (with_lastUpdated s 1001)), snd r).
Proof.
  cbv zeta.
  match goal with
  | |- fst (saveSwapState ?fs ?now ?id ?s ?st) = _ /\ _ =>
      apply (failed_write_leaves_memory_ahead fs now id s st "EACCES"%string)
  end; reflexivity.
Defined.

(** *** Deleting *)

(** X13. After [deleteSwapState] has returned and the file was removed,
    [getSwapState] finds the swap neither in the [Map] nor on disk and
    returns [null]. *)
Theorem deleted_state_is_not_found fs_error id st st' :
  store_ok st -> fs_error (Unlink id) = None ->
  deleteSwapState fs_error id st = (Return tt, st') ->
  getSwapState fs_error id st' = (Return None, st').
Proof.
  intros Hok Hun. unfold deleteSwapState, sm_bind. intros H.
  pose proof (ensure_initialized_ok fs_error st Hok) as [[Hnd _] _].
  destruct (ensure_initialized fs_error st) as [[u|m] st1] eqn:He; [| discriminate].
  apply ensure_initialized_Return in He. simpl in H, Hnd.
  rewrite Hun in H. injection H as <-.
  unfold getSwapState, sm_bind. rewrite ensure_initialized_done by exact He.
  simpl. rewrite Map_get_delete_eq by exact Hnd.
  rewrite lookup_delete_eq. reflexivity.
Qed.

Lemma deleted_state_is_not_found_witness :
  let side := mkBtcSide 100000 "tb1user" "2Mz" "63" "01" "ae" 800144 in
  let eth := mkEthSide "0xToken" 1 "0xUser" "{}" in
  let s := mkSwapState "a" "initiated" side eth 1000 2000 None None None None None None in
  let st := mkStore [("a", s)] {[ "a" := s ]} true in
  let st' := snd (deleteSwapState (fun _ => None) "a" st) in
  getSwapState (fun _ => None) "a" st = (Return (Some s), st) /\
  getSwapState (fun _ => None) "a" st' = (Return None, st').
Proof.
  cbv zeta. split; [reflexivity |].
  match goal with
  | |- getSwapState ?fs ?id (snd (deleteSwapState ?fs ?id ?st)) = _ =>
      apply (deleted_state_is_not_found fs id st)
  end.
  - split; simpl; [| reflexivity].
    constructor; [simpl; tauto | constructor].
  - reflexivity.
  - reflexivity.
Defined.

(** *** The purge *)

(** X14. When [cleanupExpiredSwaps] returns, it returns the number of records
    that were older than the cutoff and completed or refunded, none of
    them is in the [Map] any more, and what is left in the [Map] is what
    was there and was not selected. *)
Theorem purge_removes_every_selected fs_error now maxAge st n st' :
  store_ok st ->
  cleanupExpiredSwaps fs_error now maxAge st = (Return n, st') ->
  n = Z.of_nat (length (List.filter
                          (purgeable (now - default (30 * 24 * 60 * 60 * 1000) maxAge))
                          (swapStates st))) /\
  forall id rec,
    Map_get id (swapStates st') = Some rec <->
    Map_get id (swapStates st) = Some rec /\
    purgeable (now - default (30 * 24 * 60 * 60 * 1000) maxAge) (id, rec) = false.
Proof.
  intros [Hnd Hinit].
  assert (Hcase : swapStates st = [] \/ initialized st = true).
  { destruct (swapStates st); [left; reflexivity | right; apply Hinit; congruence]. }
  unfold cleanupExpiredSwaps. cbv zeta.
  set (cutoff := now - default (30 * 24 * 60 * 60 * 1000) maxAge).
  set (ids := map fst (List.filter (purgeable cutoff) (swapStates st))).
  unfold sm_bind, sm_ret.
  destruct (sm_for (deleteSwapState fs_error) ids st) as [[[]|m] st1] eqn:Hrun;
    [| discriminate].
  intros [= <- <-]. split; [unfold ids; rewrite length_map; reflexivity |].
  assert (Hsel : forall id rec, Map_get id (swapStates st) = Some rec ->
                   (In id ids <-> purgeable cutoff (id, rec) = true)).
  { intros id rec Hg. unfold ids. rewrite in_map_iff. split.
    - intros ([id0 rec0] & Hid & Hin). simpl in Hid. subst id0.
      apply filter_In in Hin as [Hin Hp].
      rewrite (Map_get_In id rec0 _ Hnd Hin) in Hg. congruence.
    - intros Hp. exists (id, rec). split; [reflexivity |].
      apply filter_In. split; [apply Map_get_Some_In, Hg | exact Hp]. }
  destruct Hcase as [Hnil | Hi].
  - unfold ids in Hrun. rewrite Hnil in Hrun. simpl in Hrun. injection Hrun as <-.
    rewrite Hnil. simpl.
    intros id rec. split; [discriminate | intros [H _]; discriminate].
  - intros id rec.
    destruct (delete_loop_all fs_error ids st st1 Hi Hnd Hrun id) as [Hin Hout].
    destruct (in_dec String.string_dec id ids) as [Hk|Hk].
    + rewrite (Hin Hk). split; [discriminate |].
      intros [Hg Hp]. apply (Hsel id rec Hg) in Hk. congruence.
    + rewrite (Hout Hk). split.
      * intros Hg. split; [exact Hg |].
        destruct (purgeable cutoff (id, rec)) eqn:Hp; [| reflexivity].
        exfalso. apply Hk. apply (Hsel id rec Hg). exact Hp.
      * tauto.
Qed.

Lemma purge_removes_every_selected_witness :
  let side := mkBtcSide 100000 "tb1user" "2Mz" "63" "01" "ae" 800144 in
  let eth := mkEthSide "0xToken" 1 "0xUser" "{}" in
  let pending := mkSwapState "a" "initiated" side eth 1000 2000
                             None None None None None (Some 1001) in
  let done := mkSwapState "b" "completed" side eth 1000 2000
                          (Some "tx") (Some "0x1") (Some 1500) None None (Some 1501) in
  let st := mkStore [("a", pending); ("b", done)]
                    {[ "a" := pending; "b" := done ]} true in
  let r := cleanupExpiredSwaps (fun _ => None) 40000000000 None st in
  fst r = Return 1 /\
  Map_get "b" (swapStates (snd r)) = None /\
  (Map_get "a" (swapStates (snd r)) = Some pending <->
   Map_get "a" (swapStates st) = Some pending /\
   purgeable (40000000000 - 30 * 24 * 60 * 60 * 1000) ("a"%string, pending) = false).
Proof.
  cbv zeta. split; [vm_compute; reflexivity |]. split; [vm_compute; reflexivity |].
  match goal with
  | |- Map_get _ (swapStates (snd (cleanupExpiredSwaps ?fs ?now ?age ?st))) = _ <-> _ =>
      destruct (purge_removes_every_selected fs now age st 1
                  (snd (cleanupExpiredSwaps fs now age st))) as [_ H]
  end.
  - split; simpl; [| reflexivity].
    constructor; [simpl; intros [H|[]]; discriminate |].
    constructor; [simpl; tauto | constructor].
  - vm_compute. reflexivity.
  - apply H.
Defined.

(** X15. The purge, whether it runs to its end or stops at a file it cannot
    remove, leaves the list of active swaps as it was. *)
Theorem purge_keeps_active_swaps fs_error now maxAge st :
  store_ok st ->
  fst (getActiveSwaps fs_error (snd (cleanupExpiredSwaps fs_error now maxAge st))) =
  fst (getActiveSwaps fs_error st).
Proof.
  intros [Hnd Hinit].
  assert (Hcase : swapStates st = [] \/ initialized st = true).
  { destruct (swapStates st); [left; reflexivity | right; apply Hinit; congruence]. }
  unfold cleanupExpiredSwaps. cbv zeta.
  set (cutoff := now - default (30 * 24 * 60 * 60 * 1000) maxAge).
  set (ids := map fst (List.filter (purgeable cutoff) (swapStates st))).
  destruct Hcase as [Hnil | Hi].
  - unfold ids. rewrite Hnil. reflexivity.
  - set (active := fun e : string * SwapState =>
                     String.eqb (status (snd e)) "initiated"
                     || String.eqb (status (snd e)) "pending").
    assert (Hrej : forall k v, In k ids -> In (k, v) (swapStates st) ->
                               active (k, v) = false).
    { intros k v Hk Hin. unfold ids in Hk.
      apply in_map_iff in Hk as ([k0 v0] & Hk0 & Hf). simpl in Hk0. subst k0.
      apply filter_In in Hf as [Hin0 Hp].
      pose proof (Map_get_In k v _ Hnd Hin) as Hg.
      rewrite (Map_get_In k v0 _ Hnd Hin0) in Hg. injection Hg as ->.
      unfold purgeable in Hp. apply andb_true_iff in Hp as [_ Hp].
      unfold active. simpl in *.
      apply orb_true_iff in Hp as [Hp|Hp]; apply String.eqb_eq in Hp; rewrite Hp;
        reflexivity. }
    pose proof (delete_loop_filter fs_error active ids st Hi Hrej) as Hf.
    pose proof (delete_loop_initialized fs_error ids st Hi) as Hi'.
    unfold sm_bind, sm_ret.
    destruct (sm_for (deleteSwapState fs_error) ids st) as [[[]|m] st1]; simpl in *;
      unfold getActiveSwaps, sm_bind;
      rewrite !ensure_initialized_done by assumption; simpl;
      fold active; rewrite Hf; reflexivity.
Qed.

Lemma purge_keeps_active_swaps_witness :
  let side := mkBtcSide 100000 "tb1user" "2Mz" "63" "01" "ae" 800144 in
  let eth := mkEthSide "0xToken" 1 "0xUser" "{}" in
  let pending := mkSwapState "a" "initiated" side eth 1000 2000
                             None None None None None (Some 1001) in
  let done := mkSwapState "b" "completed" side eth 1000 2000
                          (Some "tx") (Some "0x1") (Some 1500) None None (Some 1501) in
  let st := mkStore [("b", done); ("a", pending)]
                    {[ "a" := pending; "b" := done ]} true in
  fst (getActiveSwaps (fun _ => None) st) = Return [pending] /\
  fst (getActiveSwaps (fun _ => None)
         (snd (cleanupExpiredSwaps (fun _ => None) 40000000000 None st))) =
  fst (getActiveSwaps (fun _ => None) st).
Proof.
  cbv zeta. split; [reflexivity |].
  apply purge_keeps_active_swaps.
  split; simpl; [| reflexivity].
  constructor; [simpl; intros [H|[]]; discriminate |].
  constructor; [simpl; tauto | constructor].
Defined.

(** *** The history of a user *)

Lemma sort_insert_In {A} (cmp : A -> A -> Z) x l y :
  In y (sort_insert cmp x l) <-> y = x \/ In y l.
Proof.
  induction l as [|z l IH]; simpl; [intuition |].
  destruct (cmp x z <=? 0); simpl; [intuition |]. rewrite IH. intuition.
Qed.

Lemma Array_sort_In {A} (cmp : A -> A -> Z) l y : In y (Array_sort cmp l) <-> In y l.
Proof.
  induction l as [|x l IH]; simpl; [tauto |].
  rewrite sort_insert_In, IH. intuition.
Qed.

Lemma sort_insert_sorted (x : SwapState) l :
  StronglySorted (fun a b => createdAt b <= createdAt a) l ->
  StronglySorted (fun a b => createdAt b <= createdAt a)
                 (sort_insert (fun a b => createdAt b - createdAt a) x l).
Proof.
  induction l as [|y l IH]; simpl; intros Hs.
  - constructor; constructor.
  - inversion Hs as [|? ? Hs' Hall]; subst.
    destruct (createdAt y - createdAt x <=? 0) eqn:Hc.
    + constructor; [exact Hs |]. constructor; [lia |].
      rewrite List.Forall_forall in Hall. apply List.Forall_forall.
      intros a Ha. specialize (Hall a Ha). simpl in Hall. lia.
    + constructor; [apply IH, Hs' |].
      apply List.Forall_forall. intros a Ha.
      apply sort_insert_In in Ha as [->|Ha]; [lia |].
      rewrite List.Forall_forall in Hall. apply Hall, Ha.
Qed.

Lemma sort_insert_perm {A} (cmp : A -> A -> Z) x l :
  Permutation (sort_insert cmp x l) (x :: l).
Proof.
  induction l as [|y l IH]; simpl; [reflexivity |].
  destruct (cmp x y <=? 0); [reflexivity |].
  rewrite IH. apply perm_swap.
Qed.

Lemma Array_sort_perm {A} (cmp : A -> A -> Z) l : Permutation (Array_sort cmp l) l.
Proof.
  induction l as [|x l IH]; simpl; [reflexivity |].
  rewrite sort_insert_perm, IH. reflexivity.
Qed.

(** X16. [getUserSwapHistory] returns the swaps of the [Map] that carry the
    address on either side, each as often as the [Map] holds it and no
    others, ordered by creation time with the newest first. *)
Theorem user_history_newest_first fs_error user st hist st' :
  getUserSwapHistory fs_error user st = (Return hist, st') ->
  StronglySorted (fun a b => createdAt b <= createdAt a) hist /\
  Permutation hist
    (map snd (List.filter
                (fun e => String.eqb (eth_userAddress (ethSide (snd e))) user
                          || String.eqb (btc_userAddress (btcSide (snd e))) user)
                (swapStates st'))) /\
  forall s, In s hist <->
            (exists id, In (id, s) (swapStates st')) /\
            (eth_userAddress (ethSide s) = user \/ btc_userAddress (btcSide s) = user).
Proof.
  unfold getUserSwapHistory, sm_bind. intros H.
  destruct (ensure_initialized fs_error st) as [[u|m] st1]; [| discriminate].
  cbv zeta in H. injection H as <- <-. split; [| split].
  - induction (map snd _) as [|x l IH]; simpl; [constructor |].
    apply sort_insert_sorted, IH.
  - apply Array_sort_perm.
  - intros s. rewrite Array_sort_In, in_map_iff. split.
    + intros ([id s0] & Hs & Hin). simpl in Hs. subst s0.
      apply filter_In in Hin as [Hin Hp]. simpl in Hp.
      split; [eauto |].
      apply orb_true_iff in Hp as [Hp|Hp]; apply String.eqb_eq in Hp; auto.
    + intros [[id Hin] Haddr]. exists (id, s). split; [reflexivity |].
      apply filter_In. split; [exact Hin |]. simpl.
      apply orb_true_iff. destruct Haddr as [<-|<-]; [left | right];
        apply String.eqb_refl.
Qed.

Lemma user_history_newest_first_witness :
  let side := mkBtcSide 100000 "tb1user" "2Mz" "63" "01" "ae" 800144 in
  let eth := mkEthSide "0xToken" 1 "0xUser" "{}" in
  let old := mkSwapState "a" "initiated" side eth 1000 2000
                         None None None None None (Some 1001) in
  let new := mkSwapState "b" "completed" side eth 3000 4000
                         (Some "tx") (Some "0x1") (Some 3500) None None (Some 3501) in
  let st := mkStore [("a", old); ("b", new)] {[ "a" := old; "b" := new ]} true in
  getUserSwapHistory (fun _ => None) "0xUser" st = (Return [new; old], st) /\
  StronglySorted (fun a b => createdAt b <= createdAt a) [new; old].
Proof.
  cbv zeta.
  match goal with
  | |- ?call = (Return ?hist, ?st) /\ _ =>
      assert (H : call = (Return hist, st)) by reflexivity;
      split; [exact H |];
      apply (user_history_newest_first _ _ _ _ _ H)
  end.
Defined.

(** *** Pruning the backups *)











End StoreBehaviour.

(** ** [BitcoinHTLC]: the lock, the two spending transactions, the scan *)

Module HTLCBehaviour.
Import Script Bitcoin BitcoinHTLC ScriptProofs HTLCProofs.
Local Open Scope js_scope.

(** *** The lock *)

Lemma htlc_chunks_plain hash rpk fpk lockTime :
  Forall plain
    [ Op OP_IF; Op OP_SHA256; Data hash; Op OP_EQUALVERIFY; Data rpk; Op OP_CHECKSIG;
      Op OP_ELSE; Data (number_encode lockTime); Op OP_CHECKLOCKTIMEVERIFY; Op OP_DROP;
      Data fpk; Op OP_CHECKSIG; Op OP_ENDIF ].
Proof.
  repeat (constructor; [first [exact I | right; vm_compute; reflexivity] |]).
  constructor.
Qed.

Lemma createHTLCScript_decompile hash rpk fpk lockTime script :
  createHTLCScript hash rpk fpk lockTime = Return script ->
  decompile script =
  Some [ Op OP_IF; Op OP_SHA256; normalize (Data hash); Op OP_EQUALVERIFY;
         normalize (Data rpk); Op OP_CHECKSIG; Op OP_ELSE;
         normalize (Data (number_encode lockTime)); Op OP_CHECKLOCKTIMEVERIFY;
         Op OP_DROP; normalize (Data fpk); Op OP_CHECKSIG; Op OP_ENDIF ].
Proof.
  intros H. apply (decompile_compile _ _ (htlc_chunks_plain hash rpk fpk lockTime) H).
Qed.

Lemma normalize_long d : (2 <= length d)%nat -> normalize (Data d) = Data d.
Proof. destruct d as [|a [|b d]]; simpl; intros H; [lia | lia | reflexivity]. Qed.

(** X18. Whatever the two addresses, the lock [createHTLCOutput] returns is the
    hash-time-lock template over the given hash and lock time in which
    both public keys are the 33 zero bytes of [addressToPubKey]; the
    amount and the lock time are recorded as given and the hash in
    hexadecimal. *)
Theorem htlc_output_has_placeholder_keys (L : Lib) hash recipient refund lockT amt h :
  length hash = 32%nat ->
  createHTLCOutput L hash recipient refund lockT amt = Return h ->
  decompile (script h) =
    Some [ Op OP_IF; Op OP_SHA256; Data hash; Op OP_EQUALVERIFY;
           Data (repeat x00 33); Op OP_CHECKSIG; Op OP_ELSE;
           normalize (Data (number_encode lockT)); Op OP_CHECKLOCKTIMEVERIFY;
           Op OP_DROP; Data (repeat x00 33); Op OP_CHECKSIG; Op OP_ENDIF ] /\
  amount h = amt /\ lockTime h = lockT /\ BitcoinHTLC.hash h = to_hex hash /\
  forall recipient' refund',
    createHTLCOutput L hash recipient' refund' lockT amt = Return h.
Proof.
  intros Hlen H. split; [| split; [| split; [| split]]].
  - unfold createHTLCOutput in H. inv_bind H. inv_bind H. injection H as <-. simpl.
    rewrite (createHTLCScript_decompile _ _ _ _ _ Hx).
    rewrite (normalize_long hash) by lia. reflexivity.
  - unfold createHTLCOutput in H. inv_bind H. inv_bind H. injection H as <-. reflexivity.
  - unfold createHTLCOutput in H. inv_bind H. inv_bind H. injection H as <-. reflexivity.
  - unfold createHTLCOutput in H. inv_bind H. inv_bind H. injection H as <-. reflexivity.
  - intros recipient' refund'. exact H.
Qed.

Lemma htlc_output_has_placeholder_keys_witness :
  exists h,
    Examples.htlc 100000 = Return h /\
    amount h = 100000 /\ lockTime h = 800144 /\
    createHTLCOutput Examples.bitcoinjs_testnet (SHA256.sha256 Examples.secret)
      "tb1recipient" "tb1refund" 800144 100000 = Return h.
Proof.
  destruct (Examples.htlc 100000) as [h|] eqn:Hh; [| vm_compute in Hh; discriminate].
  exists h. split; [reflexivity |].
  destruct (htlc_output_has_placeholder_keys Examples.bitcoinjs_testnet
              (SHA256.sha256 Examples.secret) Examples.destination Examples.destination
              800144 100000 h ltac:(vm_compute; reflexivity) Hh)
    as (_ & Ha & Hl & _ & Hany).
  split; [exact Ha |]. split; [exact Hl |]. apply Hany.
Defined.

(** X19. The script commits to the hash: two locks with the same script, over
    32-byte hashes, are locks over the same hash, whatever their keys and
    lock times. *)
Theorem htlc_script_commits_to_hash h1 h2 r1 f1 l1 r2 f2 l2 script :
  length h1 = 32%nat -> length h2 = 32%nat ->
  createHTLCScript h1 r1 f1 l1 = Return script ->
  createHTLCScript h2 r2 f2 l2 = Return script ->
  h1 = h2.
Proof.
  intros Hl1 Hl2 H1 H2.
  apply createHTLCScript_decompile in H1, H2. rewrite H1 in H2.
  rewrite (normalize_long h1), (normalize_long h2) in H2 by lia.
  injection H2 as Hh _. exact Hh.
Qed.

Lemma htlc_script_commits_to_hash_witness :
  exists script,
    createHTLCScript (SHA256.sha256 Examples.secret) (repeat x00 33) (repeat x00 33) 800144
      = Return script /\
    forall h2 l2, length h2 = 32%nat ->
      createHTLCScript h2 (repeat x01 33) (repeat x02 33) l2 = Return script ->
      SHA256.sha256 Examples.secret = h2.
Proof.
  destruct (createHTLCScript (SHA256.sha256 Examples.secret) (repeat x00 33)
              (repeat x00 33) 800144) as [script|] eqn:Hs;
    [| vm_compute in Hs; discriminate].
  exists script. split; [reflexivity |]. intros h2 l2 Hl2 H2.
  apply (htlc_script_commits_to_hash (SHA256.sha256 Examples.secret) h2 _ _ _ _ _ l2
           script ltac:(vm_compute; reflexivity) Hl2 Hs H2).
Defined.

(** *** The scan for the secret *)

Lemma scan_inputs_Some inputs expectedHash s :
  scan_inputs inputs expectedHash = Some s ->
  length s = 32%nat /\ SHA256.sha256 s = expectedHash /\
  exists input rest,
    In input inputs /\ decompile (in_script input) = Some (Data s :: rest).
Proof.
  induction inputs as [|input inputs IH]; simpl; [discriminate |].
  intros H.
  assert (Hrest : scan_inputs inputs expectedHash = Some s ->
                  length s = 32%nat /\ SHA256.sha256 s = expectedHash /\
                  exists input0 rest,
                    (input = input0 \/ In input0 inputs) /\
                    decompile (in_script input0) = Some (Data s :: rest)).
  { intros H'. destruct (IH H') as (Hl & Hh & i0 & rest & Hin & Hd). eauto 8. }
  destruct (decompile (in_script input)) as [[|[code|d] rest]|] eqn:Hd; auto.
  destruct ((length d =? 32)%nat && bool_decide (SHA256.sha256 d = expectedHash)) eqn:Hc;
    auto.
  injection H as <-. apply andb_true_iff in Hc as [Hl Hh].
  apply Nat.eqb_eq in Hl. apply bool_decide_eq_true_1 in Hh. eauto 8.
Qed.

Lemma scan_inputs_None inputs expectedHash :
  scan_inputs inputs expectedHash = None <->
  forall input s rest,
    In input inputs -> decompile (in_script input) = Some (Data s :: rest) ->
    length s = 32%nat -> SHA256.sha256 s <> expectedHash.
Proof.
  induction inputs as [|input inputs IH]; simpl.
  - split; [intros _ ? ? ? [] | reflexivity].
  - destruct (decompile (in_script input)) as [[|[code|d] rest]|] eqn:Hd;
      try (rewrite IH; split;
           [ intros Hall i s r [<-|Hin] Hdi; [congruence | eapply Hall; eassumption]
           | intros Hall i s r Hin; apply Hall; right; exact Hin ]).
    destruct ((length d =? 32)%nat && bool_decide (SHA256.sha256 d = expectedHash)) eqn:Hc.
    + apply andb_true_iff in Hc as [Hl Hh].
      apply Nat.eqb_eq in Hl. apply bool_decide_eq_true_1 in Hh.
      split; [discriminate |]. intros Hall. exfalso.
      apply (Hall input d rest); auto.
    + rewrite IH. split.
      * intros Hall i s r [<-|Hin] Hdi Hl; [| eapply Hall; eassumption].
        rewrite Hd in Hdi. injection Hdi as <- <-.
        apply andb_false_iff in Hc as [Hc|Hc].
        -- apply Nat.eqb_neq in Hc. contradiction.
        -- apply bool_decide_eq_false_1 in Hc. exact Hc.
      * intros Hall i s r Hin. apply Hall. right. exact Hin.
Qed.

(** X20. Whatever transaction it is given, a secret that
    [extractSecretFromTransaction] returns is 32 bytes long, its SHA-256
    hash is the expected hash, and it is the first push of the scriptSig
    of an input of that transaction. *)
Theorem extracted_secret_is_preimage (L : Lib) txHex expectedHash s :
  extractSecretFromTransaction L txHex expectedHash = Return (Some s) ->
  length s = 32%nat /\ SHA256.sha256 s = expectedHash /\
  exists tx input rest,
    Transaction_fromHex L txHex = Return tx /\ In input (tx_ins tx) /\
    decompile (in_script input) = Some (Data s :: rest).
Proof.
  unfold extractSecretFromTransaction. intros H. inv_bind H. injection H as H.
  destruct (scan_inputs_Some _ _ _ H) as (Hl & Hh & input & rest & Hin & Hd).
  eauto 10.
Qed.

Lemma extracted_secret_is_preimage_witness :
  extractSecretFromTransaction Examples.bitcoinjs_testnet Examples.claim_hex
    (SHA256.sha256 Examples.secret) = Return (Some Examples.secret) /\
  length Examples.secret = 32%nat /\
  exists tx input rest,
    Transaction_fromHex Examples.bitcoinjs_testnet Examples.claim_hex = Return tx /\
    In input (tx_ins tx) /\
    decompile (in_script input) = Some (Data Examples.secret :: rest).
Proof.
  assert (Hex : extractSecretFromTransaction Examples.bitcoinjs_testnet Examples.claim_hex
                  (SHA256.sha256 Examples.secret) = Return (Some Examples.secret))
    by (vm_compute; reflexivity).
  split; [exact Hex |].
  destruct (extracted_secret_is_preimage Examples.bitcoinjs_testnet _ _ _ Hex)
    as (Hlen & _ & Hin).
  split; [exact Hlen | exact Hin].
Defined.

(** X21. [extractSecretFromTransaction] returns [null] exactly when the
    transaction parses and no input's
    scriptSig starts with a 32-byte push whose SHA-256 hash is the
    expected one; a transaction without inputs yields [null]. *)
Theorem no_secret_found_iff (L : Lib) txHex expectedHash :
  extractSecretFromTransaction L txHex expectedHash = Return None <->
  exists tx,
    Transaction_fromHex L txHex = Return tx /\
    forall input s rest,
      In input (tx_ins tx) -> decompile (in_script input) = Some (Data s :: rest) ->
      length s = 32%nat -> SHA256.sha256 s <> expectedHash.
Proof.
  unfold extractSecretFromTransaction. split.
  - intros H. inv_bind H. injection H as H. exists x. split; [exact Hx |].
    apply scan_inputs_None, H.
  - intros (tx & -> & Hall). simpl. f_equal. apply scan_inputs_None, Hall.
Qed.

Section WithLib.
Variable L : Lib.

(** *** The refund transaction *)

Lemma refund_addInput_loop h utxos p p' :
  js_fold (fun psbt utxo => Psbt_addInput L psbt (refund_input h utxo)) utxos p
    = Return p' ->
  psbt_inputs p' = psbt_inputs p ++ map (refund_input h) utxos /\
  psbt_outputs p' = psbt_outputs p /\ psbt_locktime p' = psbt_locktime p.
Proof.
  revert p; induction utxos as [|u utxos IH]; intros p H; simpl in H.
  - injection H as <-. rewrite app_nil_r. auto.
  - inv_bind H. unfold Psbt_addInput in Hx. inv_bind Hx. injection Hx as <-.
    apply IH in H as (Hi & Ho & Hl). simpl in *.
    rewrite Hi, <- app_assoc. auto.
Qed.

End WithLib.

(** X22. [createRefundTransaction] never builds a transaction that spends
    an output of the lock. When the lock's script was made by
    [createHTLCScript] and the first UTXO is not a
    pay-to-witness-pubkey-hash output (an output that pays to the lock's
    address is pay-to-script-hash), the call throws, whatever the key,
    the address and the library's answers are: the input is given as
    [witnessUtxo] with the lock's script as redeem script, and
    [signInput] accepts a [witnessUtxo] input only when the script it
    signs for is a witness program. *)
Theorem refund_transaction_never_built (L : Lib) hash k1 k2 lockT h wif addr u utxos :
  createHTLCScript hash k1 k2 lockT = Return (script h) ->
  isP2WPKH (from_hex (scriptPubKey u)) = false ->
  exists message, createRefundTransaction L h wif addr (u :: utxos) = Throw message.
Proof.
  intros Hscript Hprev.
  destruct (HTLCProofs.lock_script_head _ _ _ _ _ Hscript) as [tail Htail].
  destruct (HTLCProofs.not_a_witness_program _ _ Htail) as [Hr1 Hr2].
  unfold createRefundTransaction.
  destruct (ECPair_fromWIF L wif) as [kp|m]; [| simpl; eauto]. cbn [js_bind].
  destruct (check32Bit (lockTime h)) as [[]|m]; [| simpl; eauto]. cbn [js_bind].
  destruct (js_fold _ (u :: utxos) _) as [p1|m] eqn:Hadd; [| simpl; eauto].
  apply refund_addInput_loop in Hadd as (Hi1 & _). cbn [js_bind].
  destruct (Psbt_addOutput L p1 addr (amount h - 1000)) as [p2|m] eqn:Hout;
    [| simpl; eauto].
  apply HTLCProofs.addOutput_inv in Hout as (spk & _ & _ & Hi2 & _). cbn [js_bind].
  cbn [length seq js_fold]. unfold refund_sign at 1.
  destruct (compile [Op OP_FALSE]) as [ws|m]; [| simpl; eauto]. cbn [js_bind].
  destruct (HTLCProofs.signInput_rejects L p2 0 kp (refund_input h u)) as [m Hm];
    [rewrite Hi2, Hi1; reflexivity | exact Hr1 | exact Hr2 | exact Hprev |].
  rewrite Hm. simpl. eauto.
Qed.

Lemma refund_transaction_never_built_witness :
  exists h message,
    Examples.htlc 100000 = Return h /\
    createRefundTransaction Examples.bitcoinjs_testnet h Examples.recipient_wif
      Examples.destination [Examples.utxo 100000] = Throw message.
Proof.
  destruct (Examples.htlc 100000) as [h|] eqn:Hh; [| vm_compute in Hh; discriminate].
  assert (Hscript : createHTLCScript (SHA256.sha256 Examples.secret)
                      (repeat x00 33) (repeat x00 33) 800144 = Return (script h)).
  { vm_compute in Hh. injection Hh as <-. vm_compute. reflexivity. }
  destruct (refund_transaction_never_built Examples.bitcoinjs_testnet _ _ _ _ h
              Examples.recipient_wif Examples.destination (Examples.utxo 100000) []
              Hscript ltac:(vm_compute; reflexivity)) as [message Hm].
  exists h, message. split; [reflexivity | exact Hm].
Defined.

End HTLCBehaviour.

(** ** [BitcoinWallet]: building a payment, watching an address *)

Module WalletBehaviour.
Import Bitcoin BitcoinWallet HTLCProofs.
Local Open Scope js_scope.

Section WithNet.
Variable N : Net.

Lemma createTransaction_inputs_loop utxos p t p' t' :
  js_fold (fun acc utxo =>
             let* txHex := getTransactionHex_response N (txid utxo) in
             let* psbt := addInput N (fst acc)
                            (mkWalletInput (txid utxo) (vout utxo) (from_hex txHex)) in
             Return (psbt, snd acc + value utxo))
          utxos (p, t) = Return (p', t') ->
  map (fun i => (wi_hash i, wi_index i)) (wp_inputs p') =
    map (fun i => (wi_hash i, wi_index i)) (wp_inputs p)
    ++ map (fun u => (txid u, vout u)) utxos /\
  wp_outputs p' = wp_outputs p /\ t' = t + total value utxos.
Proof.
  revert p t; induction utxos as [|u utxos IH]; intros p t H; simpl in H.
  - injection H as <- <-. rewrite app_nil_r. unfold total; simpl. split; [| split]; auto; lia.
  - inv_bind H. destruct x as [p1 t1]. inv_bind Hx. inv_bind Hx.
    injection Hx as <- <-. unfold addInput in Hx1. inv_bind Hx1. injection Hx1 as <-.
    apply IH in H as (Hi & Ho & Ht). simpl in *.
    rewrite Hi, map_app, <- app_assoc. simpl.
    split; [reflexivity |]. split; [exact Ho |]. unfold total in *; simpl. lia.
Qed.

Lemma createTransaction_outputs_loop outputs p t p' t' :
  js_fold (fun acc output =>
             let* psbt := addOutput N (fst acc)
                            (mkPayment (pay_address output) (pay_value output)) in
             Return (psbt, snd acc + pay_value output))
          outputs (p, t) = Return (p', t') ->
  wp_outputs p' = wp_outputs p ++ outputs /\
  wp_inputs p' = wp_inputs p /\ t' = t + total pay_value outputs.
Proof.
  revert p t; induction outputs as [|o outputs IH]; intros p t H; simpl in H.
  - injection H as <- <-. rewrite app_nil_r. unfold total; simpl. split; [| split]; auto; lia.
  - inv_bind H. destruct x as [p1 t1]. inv_bind Hx.
    injection Hx as <- <-. unfold addOutput in Hx0. inv_bind Hx0. injection Hx0 as <-.
    apply IH in H as (Ho & Hi & Ht). simpl in *.
    rewrite Ho, <- app_assoc. destruct o; simpl.
    split; [reflexivity |]. split; [exact Hi |]. unfold total in *; simpl in *. lia.
Qed.

End WithNet.

Lemma total_app {A} (f : A -> Z) l1 l2 : total f (l1 ++ l2) = total f l1 + total f l2.
Proof.
  unfold total. induction l1 as [|x l1 IH]; simpl; [reflexivity |]. rewrite IH. lia.
Qed.

(** X24. The [Psbt] that [createTransaction] returns spends the given UTXOs
    in their order and pays the requested outputs in their order; the
    change, the inputs less the outputs less the estimated fee, is added
    as a last output to the change address exactly when it exceeds 546
    satoshis, and then inputs equal outputs plus fee. There is no other
    check of the amounts. With a non-zero rate the fee is 148 per input,
    34 per output (the change counted) and 10, times the rate. *)
Theorem createTransaction_change (N : Net) utxos outputs changeAddress feeRate psbt :
  createTransaction N utxos outputs changeAddress feeRate = Return psbt ->
  let fee := estimateFee N (Z.of_nat (length utxos)) (Z.of_nat (length outputs) + 1)
                         (Some (default 10 feeRate)) in
  let change := total value utxos - total pay_value outputs - fee in
  map (fun i => (wi_hash i, wi_index i)) (wp_inputs psbt) =
    map (fun u => (txid u, vout u)) utxos /\
  wp_outputs psbt =
    outputs ++ (if change >? 546 then [mkPayment changeAddress change] else []) /\
  (change > 546 -> total value utxos = total pay_value (wp_outputs psbt) + fee) /\
  (default 10 feeRate <> 0 ->
   fee = (Z.of_nat (length utxos) * 148 + (Z.of_nat (length outputs) + 1) * 34 + 10)
         * default 10 feeRate).
Proof.
  unfold createTransaction. cbv zeta. intros H.
  inv_bind H. destruct x as [p1 t1].
  apply createTransaction_inputs_loop in Hx as (Hi1 & Ho1 & Ht1).
  inv_bind H. destruct x as [p2 t2]. cbn [fst snd] in *.
  apply createTransaction_outputs_loop in Hx as (Ho2 & Hi2 & Ht2).
  simpl in Hi1, Ho1, Ht1. rewrite Ho1 in Ho2. simpl in Ho2.
  rewrite Ht1, Ht2 in H. simpl in H.
  set (fee := estimateFee N _ _ _) in *.
  replace (0 + total value utxos - (0 + total pay_value outputs) - fee)
    with (total value utxos - total pay_value outputs - fee) in H by lia.
  set (change := total value utxos - total pay_value outputs - fee) in *.
  assert (Hfee : default 10 feeRate <> 0 ->
                 fee = (Z.of_nat (length utxos) * 148
                        + (Z.of_nat (length outputs) + 1) * 34 + 10) * default 10 feeRate).
  { intros Hr. unfold fee, estimateFee. cbv zeta.
    replace (default 10 feeRate =? 0) with false by lia. reflexivity. }
  destruct (change >? 546) eqn:Hc.
  - unfold addOutput in H. inv_bind H. injection H as <-. simpl.
    rewrite Hi2, Hi1, Ho2. repeat split; auto.
    intros _. rewrite total_app. unfold total at 3. simpl. unfold change. lia.
  - injection H as <-. rewrite Hi2, Hi1, Ho2. repeat split; auto.
    + rewrite app_nil_r. reflexivity.
    + intros Hgt. rewrite Z.gtb_ltb in Hc. apply Z.ltb_ge in Hc. lia.
Qed.

Lemma createTransaction_change_witness :
  let N := mkNet (fun _ => Return "0200"%string) (Throw "timeout")
                 (fun _ _ => Return tt) (fun _ _ => Return tt) in
  let utxos := [Examples.utxo 100000] in
  let outputs := [mkPayment "mh5CE8Nbj38iND267s4XnvhSmhDW7yWc6Q" 50000] in
  exists psbt,
    createTransaction N utxos outputs "tb1change" None = Return psbt /\
    wp_outputs psbt = outputs ++ [mkPayment "tb1change" 47740].
Proof.
  cbv zeta.
  match goal with
  | |- exists psbt, ?call = _ /\ _ =>
      destruct call as [psbt|] eqn:H; [| vm_compute in H; discriminate];
      exists psbt; split; [reflexivity |]
  end.
  apply createTransaction_change in H. cbv zeta in H.
  destruct H as (_ & Ho & _). rewrite Ho. reflexivity.
Defined.

(** *** [monitorAddress] *)

Lemma forEach_calls_all {A} (throws : A -> bool) (l : list A) :
  (forall x, throws x = false) -> forEach_calls throws l = (l, true).
Proof.
  intros Hno. induction l as [|x l IH]; simpl; [reflexivity |].
  rewrite Hno, IH. reflexivity.
Qed.

Lemma checks_report_each_once {A} (throws : A -> bool) known responses :
  (forall x, throws x = false) -> grows known responses ->
  concat (rev (fst (checks throws (length known) responses))) ++ known =
    last_answer known responses /\
  snd (checks throws (length known) responses) = length (last_answer known responses).
Proof.
  intros Hno. revert known.
  induction responses as [|r responses IH]; intros known Hg; simpl.
  - auto.
  - destruct r as [data|m]; simpl in *.
    + destruct Hg as [[new ->] Hg]. specialize (IH _ Hg).
      rewrite length_app.
      destruct (length known <? length new + length known)%nat eqn:Hlt.
      * replace (length new + length known - length known)%nat with (length new) by lia.
        rewrite take_app_length, forEach_calls_all by exact Hno. cbn [fst snd].
        rewrite <- length_app.
        destruct IH as [IH1 IH2]. split; [| exact IH2].
        rewrite <- IH1. rewrite concat_app. simpl. rewrite app_nil_r, <- app_assoc.
        reflexivity.
      * apply Nat.ltb_ge in Hlt. assert (new = []) by (destruct new; simpl in *; [auto | lia]).
        subst new. simpl in *. destruct IH as [IH1 IH2]. split; [| exact IH2].
        rewrite <- IH1. rewrite concat_app. simpl. rewrite app_nil_r. reflexivity.
    + specialize (IH _ Hg). destruct IH as [IH1 IH2]. split; [| exact IH2].
      rewrite <- IH1. rewrite concat_app. simpl. rewrite app_nil_r. reflexivity.
Qed.

(** X25. While the list of the address's transactions grows at the front and
    the callback does not throw, [monitorAddress] hands every transaction
    to the callback exactly once, each batch newest first: the batches,
    latest first, make up the last list received, and [lastTxCount] ends
    as its length. The count starts at 0, so the transactions the address
    had before the monitoring began are handed over as well, with the
    first answer. Failed requests are skipped and lose nothing. *)
Theorem monitorAddress_reports_each_once {A} (throws : A -> bool) responses :
  (forall x, throws x = false) -> grows [] responses ->
  concat (rev (fst (monitorAddress throws responses))) = last_answer [] responses /\
  snd (monitorAddress throws responses) = length (last_answer [] responses).
Proof.
  intros Hno Hg. unfold monitorAddress.
  destruct (checks_report_each_once throws [] responses Hno Hg) as [H1 H2].
  rewrite app_nil_r in H1. auto.
Qed.

Lemma monitorAddress_reports_each_once_witness :
  let responses := [Return ["tx1"%string]; Throw "timeout";
                    Return ["tx3"; "tx2"; "tx1"]%string; Return ["tx3"; "tx2"; "tx1"]%string] in
  fst (monitorAddress (fun _ => false) responses) =
    [["tx1"]; []; ["tx3"; "tx2"]; []]%string /\
  concat (rev (fst (monitorAddress (fun _ => false) responses))) =
    ["tx3"; "tx2"; "tx1"]%string.
Proof.
  cbv zeta. split; [reflexivity |].
  match goal with
  | |- concat (rev (fst (monitorAddress ?t ?rs))) = _ =>
      destruct (monitorAddress_reports_each_once t rs) as [H _]
  end.
  - reflexivity.
  - simpl. repeat split; [exists ["tx1"%string] | exists ["tx3"; "tx2"]%string | exists []];
      reflexivity.
  - exact H.
Defined.

End WalletBehaviour.

(** ** The coordinator: timeouts, and completing a swap *)

Module CoordinatorBehaviour.
Import StateManager SwapCoordinator StoreProofs StoreBehaviour.

Lemma getSwapState_cached fs_error id st rec :
  initialized st = true -> Map_get id (swapStates st) = Some rec ->
  getSwapState fs_error id st = (Return (Some rec), st).
Proof.
  intros Hi Hg. unfold getSwapState, sm_bind.
  rewrite ensure_initialized_done by exact Hi. simpl. rewrite Hg. reflexivity.
Qed.

Lemma sm_bind_lift_Return {A B} (a : A) (k : A -> SM B) st :
  sm_bind (sm_lift (Return a)) k st = k a st.
Proof. reflexivity. Qed.

Lemma sm_bind_lift_Throw {A B} m (k : A -> SM B) st :
  sm_bind (sm_lift (Throw m)) k st = (Throw m, st).
Proof. reflexivity. Qed.

(** [assign], then [saveSwapState], then the result, on an initialized
    store. *)
Lemma assign_save_ret {A} fs_error now id s (r : A) st :
  initialized st = true ->
  sm_bind (assign id s)
          (fun _ => sm_bind (saveSwapState fs_error now id s) (fun _ => sm_ret r)) st =
  match fs_error (WriteFile id) with
  | Some code =>
      (Throw code,
       mkStore (Map_set id (with_lastUpdated s now) (Map_set id s (swapStates st)))
               (files st) true)
  | None =>
      (Return r,
       mkStore (Map_set id (with_lastUpdated s now) (Map_set id s (swapStates st)))
               (<[id := s]> (files st)) true)
  end.
Proof.
  intros Hi. unfold sm_bind, assign, saveSwapState, sm_bind, ensure_initialized.
  simpl. rewrite Hi. simpl. unfold fs_call, sm_throw, sm_ret.
  destruct (fs_error (WriteFile id)); simpl; rewrite ?Hi; reflexivity.
Qed.

(** *** [handleSwapTimeout] *)

(** The call on an initialized store that holds the record, case by
    case. *)
Lemma handleSwapTimeout_cases w id st rec :
  initialized st = true -> Map_get id (swapStates st) = Some rec ->
  handleSwapTimeout w id st =
  if tw_now_check w >? expiresAt rec then
    match tw_refundSwap w id "Swap timeout" with
    | Throw message => (Throw message, st)
    | Return h =>
        let rec' := mark_refunded rec (tw_now_refundedAt w) h in
        match tw_fs_error w (WriteFile id) with
        | Some code =>
            (Throw code,
             mkStore (Map_set id (with_lastUpdated rec' (tw_now_saved w))
                              (Map_set id rec' (swapStates st)))
                     (files st) true)
        | None =>
            (Return (mkRefunded id "refunded" h),
             mkStore (Map_set id (with_lastUpdated rec' (tw_now_saved w))
                              (Map_set id rec' (swapStates st)))
                     (<[id := rec']> (files st)) true)
        end
    end
  else (Throw "Swap not expired yet", st).
Proof.
  intros Hi Hg. unfold handleSwapTimeout, sm_bind at 1.
  rewrite (getSwapState_cached _ _ _ _ Hi Hg).
  destruct (tw_now_check w >? expiresAt rec); [| reflexivity].
  destruct (tw_refundSwap w id "Swap timeout") as [h|m]; [| reflexivity].
  rewrite sm_bind_lift_Return. apply assign_save_ret, Hi.
Qed.

(** X26. Unless the clock is past the record's [expiresAt] and the registry's
    [refundSwap] returns, [handleSwapTimeout] throws and leaves the store
    exactly as it was: "Swap not expired yet" before the deadline, the
    registry's error after it. *)
Theorem timeout_without_refund_changes_nothing w id st rec :
  initialized st = true -> Map_get id (swapStates st) = Some rec ->
  (tw_now_check w <= expiresAt rec ->
   handleSwapTimeout w id st = (Throw "Swap not expired yet", st)) /\
  (forall message,
     tw_now_check w > expiresAt rec ->
     tw_refundSwap w id "Swap timeout" = Throw message ->
     handleSwapTimeout w id st = (Throw message, st)).
Proof.
  intros Hi Hg. rewrite (handleSwapTimeout_cases w id st rec Hi Hg). split.
  - intros Ht. replace (tw_now_check w >? expiresAt rec) with false by lia. reflexivity.
  - intros message Ht Hr.
    replace (tw_now_check w >? expiresAt rec) with true by lia.
    rewrite Hr. reflexivity.
Qed.

Lemma timeout_without_refund_changes_nothing_witness :
  let side := mkBtcSide 100000 "tb1user" "2Mz" "63" "01" "ae" 800144 in
  let eth := mkEthSide "0xToken" 1 "0xUser" "{}" in
  let rec := mkSwapState "a" "initiated" side eth 1000 2000
                         None None None None None (Some 1001) in
  let st := mkStore [("a", rec)] {[ "a" := rec ]} true in
  let w := mkTimeoutWorld (fun _ => None) 1500 (fun _ _ => Return "0xrefund") 1501 1502 in
  handleSwapTimeout w "a" st = (Throw "Swap not expired yet", st).
Proof.
  cbv zeta.
  match goal with
  | |- handleSwapTimeout ?w ?id (mkStore [(_, ?rec)] ?f ?i) = _ =>
      destruct (timeout_without_refund_changes_nothing w id (mkStore [(id, rec)] f i) rec
                  eq_refl eq_refl) as [H _]
  end.
  apply H. simpl. lia.
Defined.

(** X27. Past the deadline, once the registry's [refundSwap] has returned, the
    record in the [Map] is the old one with status "refunded", the time
    and the transaction hash, whatever its status was: the call does not
    look at it. If the file is written the call returns, and the file
    holds that record; otherwise it throws the write error. *)
Theorem timeout_marks_refunded w id st rec ethTxHash :
  initialized st = true -> Map_get id (swapStates st) = Some rec ->
  tw_now_check w > expiresAt rec ->
  tw_refundSwap w id "Swap timeout" = Return ethTxHash ->
  Map_get id (swapStates (snd (handleSwapTimeout w id st))) =
    Some (with_lastUpdated (mark_refunded rec (tw_now_refundedAt w) ethTxHash)
                           (tw_now_saved w)) /\
  match tw_fs_error w (WriteFile id) with
  | None =>
      fst (handleSwapTimeout w id st) = Return (mkRefunded id "refunded" ethTxHash) /\
      files (snd (handleSwapTimeout w id st)) !! id =
        Some (mark_refunded rec (tw_now_refundedAt w) ethTxHash)
  | Some code =>
      fst (handleSwapTimeout w id st) = Throw code /\
      files (snd (handleSwapTimeout w id st)) = files st
  end.
Proof.
  intros Hi Hg Ht Hr. rewrite (handleSwapTimeout_cases w id st rec Hi Hg).
  replace (tw_now_check w >? expiresAt rec) with true by lia.
  rewrite Hr. cbv zeta.
  destruct (tw_fs_error w (WriteFile id)); simpl;
    (split; [apply Map_get_set_eq |]); split; try reflexivity.
  apply lookup_insert_eq.
Qed.

Lemma timeout_marks_refunded_witness :
  let side := mkBtcSide 100000 "tb1user" "2Mz" "63" "01" "ae" 800144 in
  let eth := mkEthSide "0xToken" 1 "0xUser" "{}" in
  let rec := mkSwapState "a" "completed" side eth 1000 2000
                         (Some "tx") (Some "0x1") (Some 1500) None None (Some 1501) in
  let st := mkStore [("a", rec)] {[ "a" := rec ]} true in
  let w := mkTimeoutWorld (fun _ => None) 2500 (fun _ _ => Return "0xrefund") 2501 2502 in
  status rec = "completed"%string /\
  option_map status (Map_get "a" (swapStates (snd (handleSwapTimeout w "a" st)))) =
    Some "refunded"%string.
Proof.
  cbv zeta. split; [reflexivity |].
  match goal with
  | |- option_map _ (Map_get ?id (swapStates (snd (handleSwapTimeout ?w ?id
                                                     (mkStore [(_, ?rec)] ?f ?i))))) = _ =>
      destruct (timeout_marks_refunded w id (mkStore [(id, rec)] f i) rec "0xrefund"
                  eq_refl eq_refl ltac:(simpl; lia) eq_refl) as [H _]
  end.
  rewrite H. reflexivity.
Defined.

(** *** [monitorSwaps] *)

(** What one [handleSwapTimeout] does to an initialized store that holds
    the record: other keys are untouched, and the record is either as it
    was or refunded. *)
Lemma handleSwapTimeout_exact w id st rec :
  initialized st = true -> Map_get id (swapStates st) = Some rec ->
  initialized (snd (handleSwapTimeout w id st)) = true /\
  (forall id', id' <> id ->
     Map_get id' (swapStates (snd (handleSwapTimeout w id st))) =
     Map_get id' (swapStates st)) /\
  Map_get id (swapStates (snd (handleSwapTimeout w id st))) =
    Some (if tw_now_check w >? expiresAt rec
          then match tw_refundSwap w id "Swap timeout" with
               | Return h =>
                   with_lastUpdated (mark_refunded rec (tw_now_refundedAt w) h)
                                    (tw_now_saved w)
               | Throw _ => rec
               end
          else rec).
Proof.
  intros Hi Hg. rewrite (handleSwapTimeout_cases w id st rec Hi Hg).
  destruct (tw_now_check w >? expiresAt rec) eqn:Ht; [| simpl; auto].
  destruct (tw_refundSwap w id "Swap timeout") as [h|m] eqn:Hr; [| simpl; auto].
  cbv zeta.
  destruct (tw_fs_error w (WriteFile id)); simpl;
    (split; [reflexivity |]);
    (split; [intros id' Hne; rewrite !Map_get_set_ne by exact Hne; reflexivity |]);
    apply Map_get_set_eq.
Qed.

(** The loop over distinct keys whose records are those of the [Map]:
    the turn of the [j]-th entry is turn [turn + j], and it alone
    decides what becomes of that entry's record. *)
Lemma monitor_loop_exact w turn rest assigned cur :
  initialized cur = true -> List.NoDup (map fst rest) ->
  (forall k s, In (k, s) rest ->
     swapId s = k /\ Map_get k (swapStates cur) = Some s /\
     existsb (String.eqb k) assigned = false) ->
  initialized (monitor_loop w turn rest assigned cur) = true /\
  (forall id, ~ In id (map fst rest) ->
     Map_get id (swapStates (monitor_loop w turn rest assigned cur)) =
     Map_get id (swapStates cur)) /\
  (forall j id s, rest !! j = Some (id, s) ->
     Map_get id (swapStates (monitor_loop w turn rest assigned cur)) =
       Some (if (mw_now w (turn + j) >? expiresAt s)
                && String.eqb (status s) "initiated"
                && (tw_now_check (mw_timeout w (turn + j)) >? expiresAt s)
             then match tw_refundSwap (mw_timeout w (turn + j)) id "Swap timeout" with
                  | Return h =>
                      with_lastUpdated
                        (mark_refunded s (tw_now_refundedAt (mw_timeout w (turn + j))) h)
                        (tw_now_saved (mw_timeout w (turn + j)))
                  | Throw _ => s
                  end
             else s)).
Proof.
  revert turn assigned cur.
  induction rest as [|[k s] rest IH]; intros turn assigned cur Hi Hnd Hall.
  - simpl. split; [exact Hi |]. split; [reflexivity |]. intros j id s Hj.
    destruct j; discriminate Hj.
  - inversion Hnd as [|? ? Hnotin Hnd']; subst.
    destruct (Hall k s (or_introl eq_refl)) as (Hid & Hget & Hfresh).
    assert (Hrest : forall k0 s0, In (k0, s0) rest -> k0 <> k).
    { intros k0 s0 Hin ->. apply Hnotin. apply (in_map fst) in Hin. exact Hin. }
    cbn [monitor_loop]. rewrite Hfresh.
    destruct ((mw_now w turn >? expiresAt s) && String.eqb (status s) "initiated")
      eqn:Hcond.
    + rewrite Hid.
      destruct (handleSwapTimeout_exact (mw_timeout w turn) k cur s Hi Hget)
        as (Hi2 & Hframe & Hk).
      set (st2 := snd (handleSwapTimeout (mw_timeout w turn) k cur)) in *.
      set (assigned' := if reaches_assignments (mw_timeout w turn) k cur
                        then k :: assigned else assigned).
      assert (Hall' : forall k0 s0, In (k0, s0) rest ->
                swapId s0 = k0 /\ Map_get k0 (swapStates st2) = Some s0 /\
                existsb (String.eqb k0) assigned' = false).
      { intros k0 s0 Hin.
        destruct (Hall k0 s0 (or_intror Hin)) as (H1 & H2 & H3).
        pose proof (Hrest k0 s0 Hin) as Hne.
        split; [exact H1 |]. split; [rewrite Hframe by exact Hne; exact H2 |].
        unfold assigned'. destruct (reaches_assignments _ _ _); [| exact H3].
        simpl. rewrite H3. destruct (String.eqb_spec k0 k); [contradiction | reflexivity]. }
      destruct (IH (S turn) assigned' st2 Hi2 Hnd' Hall') as (Hi3 & Hout & Hin).
      split; [exact Hi3 |]. split.
      * intros id Hno.
        rewrite Hout by (intros Hin'; apply Hno; right; exact Hin').
        apply Hframe. intros ->. apply Hno. left. reflexivity.
      * intros [|j] id s0 Hj.
        -- injection Hj as <- <-. rewrite (Hout k Hnotin), Hk.
           rewrite Nat.add_0_r, Hcond. reflexivity.
        -- rewrite <- Nat.add_succ_comm. apply Hin, Hj.
    + assert (Hall' : forall k0 s0, In (k0, s0) rest ->
                swapId s0 = k0 /\ Map_get k0 (swapStates cur) = Some s0 /\
                existsb (String.eqb k0) assigned = false)
        by (intros k0 s0 Hin; apply Hall; right; exact Hin).
      destruct (IH (S turn) assigned cur Hi Hnd' Hall') as (Hi3 & Hout & Hin).
      split; [exact Hi3 |]. split.
      * intros id Hno. apply Hout. intros Hin'. apply Hno. right. exact Hin'.
      * intros [|j] id s0 Hj.
        -- injection Hj as <- <-. rewrite (Hout k Hnotin), Hget.
           rewrite Nat.add_0_r, Hcond. reflexivity.
        -- rewrite <- Nat.add_succ_comm. apply Hin, Hj.
Qed.

Lemma NoDup_fst_filter {V} (P : string * V -> bool) (m : list (string * V)) :
  List.NoDup (map fst m) -> List.NoDup (map fst (List.filter P m)).
Proof.
  induction m as [|[k v] m IH]; simpl; intros Hnd; [constructor |].
  inversion Hnd as [|? ? Hnotin Hnd']; subst.
  destruct (P (k, v)); simpl; [| apply IH, Hnd'].
  constructor; [| apply IH, Hnd'].
  intros Hin. apply Hnotin. apply in_map_iff in Hin as (e & He & Hin).
  apply filter_In in Hin as [Hin _]. apply in_map_iff. eauto.
Qed.

(** X28. On an initialized store filled by the coordinator, [monitorSwaps]
    returns, and what it leaves of each record is decided by the record's
    own turn of the loop, the [j]-th for the [j]-th of the records that
    are "initiated" or "pending", in the order of the [Map]. The record
    is replaced by itself marked "refunded", with the time and the hash
    of the refund, exactly when it is "initiated", the clock of its turn
    and the clock of its [handleSwapTimeout] are both past its
    [expiresAt], and the registry's [refundSwap] returned; otherwise it
    stays as it was. A record that is neither "initiated" nor "pending"
    stays as it was, and no record is created. *)
Theorem monitor_refunds_exactly_the_expired w st :
  initialized st = true -> coherent st ->
  fst (monitorSwaps w st) = Return tt /\
  (forall id, Map_get id (swapStates st) = None ->
     Map_get id (swapStates (snd (monitorSwaps w st))) = None) /\
  (forall id rec,
     Map_get id (swapStates st) = Some rec ->
     String.eqb (status rec) "initiated" || String.eqb (status rec) "pending" = false ->
     Map_get id (swapStates (snd (monitorSwaps w st))) = Some rec) /\
  (forall j id rec,
     List.filter (fun e => String.eqb (status (snd e)) "initiated"
                           || String.eqb (status (snd e)) "pending")
                 (swapStates st) !! j = Some (id, rec) ->
     Map_get id (swapStates st) = Some rec /\
     Map_get id (swapStates (snd (monitorSwaps w st))) =
       Some (if (mw_now w j >? expiresAt rec)
                && String.eqb (status rec) "initiated"
                && (tw_now_check (mw_timeout w j) >? expiresAt rec)
             then match tw_refundSwap (mw_timeout w j) id "Swap timeout" with
                  | Return h =>
                      with_lastUpdated
                        (mark_refunded rec (tw_now_refundedAt (mw_timeout w j)) h)
                        (tw_now_saved (mw_timeout w j))
                  | Throw _ => rec
                  end
             else rec)).
Proof.
  intros Hi [Hnd Hkeys]. unfold monitorSwaps, getActiveSwaps, sm_bind.
  rewrite ensure_initialized_done by exact Hi. simpl.
  set (active := fun e : string * SwapState =>
                   String.eqb (status (snd e)) "initiated"
                   || String.eqb (status (snd e)) "pending").
  set (entries := List.filter active (swapStates st)).
  split; [reflexivity |].
  assert (Hall : forall k s, In (k, s) entries ->
            swapId s = k /\ Map_get k (swapStates st) = Some s /\
            existsb (String.eqb k) [] = false).
  { intros k s Hin. apply filter_In in Hin as [Hin _].
    split; [apply Hkeys, Hin |]. split; [apply Map_get_In; assumption | reflexivity]. }
  destruct (monitor_loop_exact w 0 entries [] st Hi (NoDup_fst_filter _ _ Hnd) Hall)
    as (_ & Hout & Hin).
  assert (Hkey : forall id, In id (map fst entries) ->
            exists s, Map_get id (swapStates st) = Some s /\ active (id, s) = true).
  { intros id Hk. apply in_map_iff in Hk as ([k s] & Hks & Hk). simpl in Hks. subst k.
    apply filter_In in Hk as [Hk Hs]. exists s.
    split; [apply Map_get_In; assumption | exact Hs]. }
  split; [| split].
  - intros id Hg. rewrite Hout; [exact Hg |].
    intros Hk. destruct (Hkey id Hk) as (s & Hs & _). congruence.
  - intros id rec Hg Hact. rewrite Hout; [exact Hg |].
    intros Hk. destruct (Hkey id Hk) as (s & Hs & Ha).
    rewrite Hs in Hg. injection Hg as ->. unfold active in Ha. simpl in Ha. congruence.
  - intros j id rec Hj. split.
    + apply (Hall id rec). apply list_elem_of_In. eapply list_elem_of_lookup_2, Hj.
    + apply (Hin j id rec Hj).
Qed.

Lemma monitor_refunds_exactly_the_expired_witness :
  let side := mkBtcSide 100000 "tb1user" "2Mz" "63" "01" "ae" 800144 in
  let eth := mkEthSide "0xToken" 1 "0xUser" "{}" in
  let late := mkSwapState "a" "initiated" side eth 1000 2000
                          None None None None None (Some 1001) in
  let fresh := mkSwapState "b" "initiated" side eth 5000 9000
                           None None None None None (Some 5001) in
  let st := mkStore [("a", late); ("b", fresh)] {[ "a" := late; "b" := fresh ]} true in
  let w := mkMonitorWorld (fun _ => None) (fun _ => 3000)
             (fun _ => mkTimeoutWorld (fun _ => None) 3001 (fun _ _ => Return "0xrefund")
                                      3002 3003) in
  fst (monitorSwaps w st) = Return tt /\
  Map_get "a" (swapStates (snd (monitorSwaps w st))) =
    Some (with_lastUpdated (mark_refunded late 3002 "0xrefund") 3003) /\
  Map_get "b" (swapStates (snd (monitorSwaps w st))) = Some fresh.
Proof.
  cbv zeta.
  match goal with
  | |- fst (monitorSwaps ?w ?st) = _ /\ _ =>
      destruct (monitor_refunds_exactly_the_expired w st) as (Hret & _ & _ & Hturn)
  end.
  - reflexivity.
  - split; simpl.
    + constructor; [simpl; intros [H|[]]; discriminate |].
      constructor; [simpl; tauto | constructor].
    + intros key swap [[= <- <-] | [[= <- <-] | []]]; reflexivity.
  - split; [exact Hret |]. split.
    + exact (proj2 (Hturn 0%nat _ _ eq_refl)).
    + exact (proj2 (Hturn 1%nat _ _ eq_refl)).
Defined.

(** *** [waitForBitcoinConfirmations] *)

(** X29. The wait resolves exactly at the first answer that shows at least the
    required number of confirmations, provided no earlier request failed;
    answers that give no transaction or no confirmation count are waited
    out. *)
Theorem wait_resolves_at_first_sufficient_answer confirmations polls :
  waitForBitcoinConfirmations confirmations polls = Some (Return tt) <->
  exists before hex n after,
    polls = before ++ Return (Some (mkBtcTx hex (Some n))) :: after /\
    n >= confirmations /\
    Forall (fun p => exists tx, p = Return tx /\
                       forall h m, tx = Some (mkBtcTx h (Some m)) -> m < confirmations)
           before.
Proof.
  induction polls as [|p polls IH]; simpl.
  - split; [discriminate |]. intros (before & hex & n & after & Heq & _).
    destruct before; discriminate.
  - assert (Hskip : forall tx,
              (forall h m, tx = Some (mkBtcTx h (Some m)) -> m < confirmations) ->
              (waitForBitcoinConfirmations confirmations polls = Some (Return tt) <->
               exists before hex n after,
                 Return tx :: polls = before ++ Return (Some (mkBtcTx hex (Some n))) :: after /\
                 n >= confirmations /\
                 Forall (fun p => exists tx, p = Return tx /\
                           forall h m, tx = Some (mkBtcTx h (Some m)) -> m < confirmations)
                        before)).
    { intros tx Hlow. rewrite IH. split.
      - intros (before & hex & n & after & -> & Hn & Hall).
        exists (Return tx :: before), hex, n, after. split; [reflexivity |].
        split; [exact Hn |]. constructor; [eauto | exact Hall].
      - intros (before & hex & n & after & Heq & Hn & Hall).
        destruct before as [|b before]; simpl in Heq.
        + injection Heq as -> ->. specialize (Hlow _ _ eq_refl). lia.
        + injection Heq as <- ->. inversion Hall; subst.
          exists before, hex, n, after. auto. }
    destruct p as [[[hex [n|]]|]|m].
    + destruct (n >=? confirmations) eqn:Hn.
      * split; [| reflexivity]. intros _.
        exists [], hex, n, polls. split; [reflexivity |]. split; [lia | constructor].
      * apply Hskip. intros h m0 [= _ <-]. lia.
    + apply Hskip. intros h m0 [=].
    + apply Hskip. intros h m0 [=].
    + split; [discriminate |].
      intros (before & hex & n & after & Heq & _ & Hall).
      destruct before as [|b before]; simpl in Heq; [discriminate |].
      injection Heq as <- _. inversion Hall as [|? ? (tx & Htx & _) _]; subst.
      discriminate.
Qed.

(** *** [completeBTCToETHSwap] *)

(** [completeEthereumSwap] returns only when [getTransactionHex] answered
    a string that [ethers.hexlify] takes for bytes. *)
Lemma completeEthereumSwap_reads_hex w id secret ethTxHash :
  completeEthereumSwap w id secret = Return ethTxHash ->
  exists txHex,
    cw_getTransactionHex w = Return txHex /\ Ethers.isBytesHex txHex = true.
Proof.
  unfold completeEthereumSwap, createBitcoinTxProof. intros H.
  destruct (cw_proof_getTransaction w) as [tx|]; [| discriminate H].
  cbn [js_bind] in H.
  destruct (cw_getTransactionHex w) as [txHex|]; [| discriminate H].
  exists txHex. split; [reflexivity |].
  cbn [js_bind] in H. unfold Ethers.hexlify, Ethers.getBytes in H.
  destruct (Ethers.isBytesHex txHex); [reflexivity | discriminate H].
Qed.

(** X30. On an initialized state manager that holds the record in memory,
    [completeBTCToETHSwap] marks the record "completed" exactly when the
    first [getTransaction] answered a transaction with a hex form, the
    wait saw three confirmations, [extractSecretFromTransaction] found
    in that hex form a secret for the record's secret hash, and
    [completeEthereumSwap] returned for that secret. Then the record in
    memory is the old one marked "completed" with the two transaction
    ids and the time, every other record is as it was, and the call
    returns the result or, if the file cannot be written, throws the
    write error. In every other case the store is left exactly as it
    was and the call returns no result. A secret for which the record
    was completed is 32 bytes long and its SHA-256 hash is the record's
    secret hash, and [getTransactionHex] then answered a string that
    ethers takes for bytes, [0x] followed by pairs of hex digits. *)
Theorem completion_exactly_with_secret_and_registry
    (L : Bitcoin.Lib) w id bitcoinTxId st rec :
  initialized st = true -> Map_get id (swapStates st) = Some rec ->
  (forall hex confs secret ethTxHash,
     cw_getTransaction w = Return (Some (mkBtcTx (Some hex) confs)) ->
     waitForBitcoinConfirmations 3 (cw_polls w) = Some (Return tt) ->
     BitcoinHTLC.extractSecretFromTransaction L hex (from_hex (secretHash (btcSide rec)))
       = Return (Some secret) ->
     completeEthereumSwap w id secret = Return ethTxHash ->
     Map_get id (swapStates (snd (completeBTCToETHSwap L w id bitcoinTxId st))) =
       Some (with_lastUpdated
               (mark_completed rec bitcoinTxId ethTxHash (cw_now_completedAt w))
               (cw_now_saved w)) /\
     (forall id', id' <> id ->
        Map_get id' (swapStates (snd (completeBTCToETHSwap L w id bitcoinTxId st))) =
        Map_get id' (swapStates st)) /\
     fst (completeBTCToETHSwap L w id bitcoinTxId st) =
       Some (match cw_fs_error w (WriteFile id) with
             | None => Return (mkCompleted id "completed" bitcoinTxId ethTxHash
                                           (to_hex secret))
             | Some code => Throw code
             end)) /\
  ((snd (completeBTCToETHSwap L w id bitcoinTxId st) = st /\
    forall result, fst (completeBTCToETHSwap L w id bitcoinTxId st)
                   <> Some (Return result)) \/
   exists hex confs secret ethTxHash,
     cw_getTransaction w = Return (Some (mkBtcTx (Some hex) confs)) /\
     waitForBitcoinConfirmations 3 (cw_polls w) = Some (Return tt) /\
     BitcoinHTLC.extractSecretFromTransaction L hex (from_hex (secretHash (btcSide rec)))
       = Return (Some secret) /\
     completeEthereumSwap w id secret = Return ethTxHash /\
     length secret = 32%nat /\
     SHA256.sha256 secret = from_hex (secretHash (btcSide rec)) /\
     exists txHex,
       cw_getTransactionHex w = Return txHex /\ Ethers.isBytesHex txHex = true).
Proof.
  intros Hi Hg. split.
  - intros hex confs secret ethTxHash Htx Hwait Hex Hc.
    unfold completeBTCToETHSwap.
    rewrite (getSwapState_cached _ _ _ _ Hi Hg), Htx, Hwait. cbv beta iota.
    unfold complete_after_wait. cbn [btc_hex]. rewrite Hex.
    rewrite !sm_bind_lift_Return, Hc, !sm_bind_lift_Return.
    rewrite !(assign_save_ret _ _ _ _ _ _ Hi).
    destruct (cw_fs_error w (WriteFile id)); simpl;
      (split; [apply Map_get_set_eq |]);
      (split; [intros id' Hne; rewrite !Map_get_set_ne by exact Hne; reflexivity
              | reflexivity]).
  - unfold completeBTCToETHSwap.
    rewrite (getSwapState_cached _ _ _ _ Hi Hg).
    destruct (cw_getTransaction w) as [[[hex confs]|]|m];
      try (left; split; [reflexivity | intros result Hr; discriminate Hr]).
    destruct (waitForBitcoinConfirmations 3 (cw_polls w)) as [[[]|m]|] eqn:Hw;
      try (left; split; [reflexivity | intros result Hr; discriminate Hr]).
    unfold complete_after_wait. simpl btc_hex.
    destruct hex as [hex|];
      [| left; split; [reflexivity | intros result Hr; discriminate Hr]].
    destruct (BitcoinHTLC.extractSecretFromTransaction L hex
                (from_hex (secretHash (btcSide rec)))) as [[secret|]|m] eqn:Hex;
      try (left; split; [reflexivity | intros result Hr; discriminate Hr]).
    rewrite !sm_bind_lift_Return.
    destruct (completeEthereumSwap w id secret) as [ethTxHash|m] eqn:Hc;
      [| left; split; [reflexivity | intros result Hr; discriminate Hr]].
    right. exists hex, confs, secret, ethTxHash.
    assert (Hpre : length secret = 32%nat /\
                   SHA256.sha256 secret = from_hex (secretHash (btcSide rec))).
    { unfold BitcoinHTLC.extractSecretFromTransaction in Hex.
      apply HTLCProofs.js_bind_Return in Hex as (tx & _ & Hscan).
      injection Hscan as Hscan.
      destruct (HTLCBehaviour.scan_inputs_Some _ _ _ Hscan) as (Hl & Hh & _). auto. }
    destruct Hpre as [Hl Hh].
    repeat (split; [first [reflexivity | assumption] |]).
    apply completeEthereumSwap_reads_hex in Hc. exact Hc.
Qed.

Lemma completion_exactly_with_secret_and_registry_witness :
  let side := mkBtcSide 100000 "tb1user" "2Mz" "63" (to_hex Examples.secret)
                        (to_hex (SHA256.sha256 Examples.secret)) 800144 in
  let eth := mkEthSide "0xToken" 1 "0xUser" "{}" in
  let rec := mkSwapState "a" "initiated" side eth 1000 2000
                         None None None None None (Some 1001) in
  let st := mkStore [("a", rec)] {[ "a" := rec ]} true in
  let w := mkCompletionWorld (fun _ => None)
             (Return (Some (mkBtcTx (Some Examples.claim_hex) (Some 1))))
             [Return (Some (mkBtcTx None (Some 1))); Return (Some (mkBtcTx None (Some 3)))]
             "TypeError"
             (Return (Some (mkBtcTx (Some Examples.claim_hex) (Some 3))))
             (Return ("0x" ++ Examples.claim_hex)%string)
             (fun _ _ _ _ => Return "0xdone") 1500 1501 (fun assertion => assertion) in
  Map_get "a" (swapStates (snd (completeBTCToETHSwap Examples.bitcoinjs_testnet w
                                  "a" "btctx" st))) =
    Some (with_lastUpdated (mark_completed rec "btctx" "0xdone" 1500) 1501) /\
  fst (completeBTCToETHSwap Examples.bitcoinjs_testnet w "a" "btctx" st) =
    Some (Return (mkCompleted "a" "completed" "btctx" "0xdone" (to_hex Examples.secret))).
Proof.
  cbv zeta.
  match goal with
  | |- Map_get ?id (swapStates (snd (completeBTCToETHSwap ?L ?w ?id ?tx
                                       (mkStore [(_, ?rec)] ?f ?i)))) = _ /\ _ =>
      pose proof (proj1 (completion_exactly_with_secret_and_registry
                           L w id tx (mkStore [(id, rec)] f i) rec eq_refl eq_refl)
                    Examples.claim_hex (Some 1) Examples.secret "0xdone"%string
                    eq_refl eq_refl) as Hdone
  end.
  assert (Hex : BitcoinHTLC.extractSecretFromTransaction Examples.bitcoinjs_testnet
                  Examples.claim_hex
                  (from_hex (to_hex (SHA256.sha256 Examples.secret)))
                = Return (Some Examples.secret)) by (vm_compute; reflexivity).
  specialize (Hdone Hex). clear Hex.
  match type of Hdone with
  | ?P -> _ => assert (Hc : P) by (vm_compute; reflexivity)
  end.
  destruct (Hdone Hc) as (Hmap & _ & Hret).
  split; [exact Hmap | exact Hret].
Defined.

(** *** [initiateBTCToETHSwap] and the registry *)

(** The hex form of bytes is never a [BytesLike] string of ethers: it
    does not start with [0x]. *)
Lemma to_hex_not_BytesLike (b : bytes) : Ethers.isBytesHex (to_hex b) = false.
Proof.
  destruct b as [|x t]; [reflexivity |].
  cbn [to_hex Ethers.isBytesHex].
  replace (Ascii.eqb (hex_digit (byte_to_Z x mod 16)) (Ascii.ascii_of_nat 120)
           || Ascii.eqb (hex_digit (byte_to_Z x mod 16)) (Ascii.ascii_of_nat 88))
    with false by (destruct x; reflexivity).
  rewrite andb_false_r. reflexivity.
Qed.

(** X31. [initiateBTCToETHSwap] returns no result, whatever the parameters
    and whatever the library, the quote service, the file system and the
    registry answer: the secret hash is stored in hex without the [0x]
    prefix, [initiateEthereumSwap] passes the stored string to
    [ethers.zeroPadValue], which refuses it, and so the call throws,
    at the latest there, before the registry is called. *)
Theorem initiation_returns_no_result (L : Bitcoin.Lib) serviceBtcAddress w swapParams st :
  exists message,
    fst (initiateBTCToETHSwap L serviceBtcAddress w swapParams st) = Throw message.
Proof.
  unfold initiateBTCToETHSwap. cbv zeta. unfold sm_bind at 1.
  destruct (BitcoinHTLC.createHTLCOutput L _ _ _ _ _) as [htlcOutput|m];
    [| simpl; eauto].
  cbn [sm_lift]. unfold sm_bind at 1.
  destruct (quote_response w) as [ethQuote|m]; [| simpl; eauto].
  cbn [sm_lift]. unfold sm_bind at 1.
  destruct (saveSwapState _ _ _ _ st) as [[[]|m] st1]; [| simpl; eauto].
  unfold sm_bind at 1, initiateEthereumSwap.
  destruct (Ethers.parseEther_toString _ _) as [amountOut|m]; [| simpl; eauto].
  cbn [js_bind]. unfold Ethers.zeroPadValue, Ethers.getBytes.
  cbn [secretHash btcSide initial_state]. rewrite to_hex_not_BytesLike.
  simpl. eauto.
Qed.

End CoordinatorBehaviour.
